(** * LUMEN GENESIS: digital soil, population spawning and creature update

    A shallow embedding of the generation and simulation logic of the
    application component (the preview scan [recomputePreviewDots], the final
    scan [generateDigitalSoil], [setupCreatures], [mapRange], [lerp], the
    interaction smoothing of [drawGrowthScene] and the [Creature] classes),
    followed by the properties the specification states about them.

    Conventions of the embedding.
    - A JavaScript [number] is an exact rational ([Q]).  Rounding of IEEE
      doubles, NaN and the infinities are outside the model; the one place
      where the program can meet [undefined] (a read outside the pixel buffer)
      is modelled with [option], and a comparison with the resulting NaN is
      false, as in JavaScript.  No division of the modelled code has a zero
      divisor (constants, [range || 1], a length guarded by [> 0]) except
      [p.map] on a canvas of width or height 0, which is not a canvas.
    - [Math.random()] is an oracle [nat -> Q] read in call order; the state
      threaded through the code is the number of calls made so far.
    - Objects of the interfaces of [types.ts] and of the classes are records,
      one module per interface so that fields keep their names. *)

From stdpp Require Import base list.
From Stdlib Require Import ZArith QArith Qround Qabs Qminmax Lia Lqa.
From Stdlib Require Import Strings.Byte.
From Stdlib Require Qcanon.
From Stdlib Require Reals Qreals.

Open Scope Q_scope.

(* ------------------------------------------------------------------------- *)
(** ** Numbers *)

(** [a < b] and [a > b] as the program tests them. *)
Definition Qltb (a b : Q) : bool :=
  (Qnum a * QDen b <? Qnum b * QDen a)%Z.

(** [Math.floor], as a number. *)
Definition floor (v : Q) : Q := inject_Z (Qfloor v).

(** ToIntegerOrInfinity of a finite number: rounding towards zero. *)
Definition toInteger (v : Q) : Z :=
  if Qltb v 0 then Qceiling v else Qfloor v.

(** [a || b] on numbers: [0] is the only falsy rational. *)
Definition orElse (a b : Q) : Q := if Qeq_bool a 0 then b else a.

(** [p.constrain(v, lo, hi)] is [Math.max(Math.min(v, hi), lo)]. *)
Definition constrain (v lo hi : Q) : Q := Qmax (Qmin v hi) lo.

(** The utility at the top of the component; [p.lerp] computes the same
    expression. *)
Definition lerp (start stop amt : Q) : Q := amt * (stop - start) + start.

Definition mapRange (v i1 i2 o1 o2 : Q) : Q :=
  o1 + (o2 - o1) * ((v - i1) / (i2 - i1)).

(** [p.map(n, start1, stop1, start2, stop2)] without the bounds flag. *)
Definition p5map (v start1 stop1 start2 stop2 : Q) : Q :=
  (v - start1) / (stop1 - start1) * (stop2 - start2) + start2.

(** [array.length] as a number. *)
Definition len {A} (a : list A) : Q := inject_Z (Z.of_nat (length a)).

(* ------------------------------------------------------------------------- *)
(** ** Math.random *)

Definition Rand (A : Type) : Type := (nat -> Q) -> nat -> A * nat.

Definition ret {A} (a : A) : Rand A := fun _ k => (a, k).

Definition bind {A B} (m : Rand A) (f : A -> Rand B) : Rand B :=
  fun rnd k => let (a, k') := m rnd k in f a rnd k'.

Definition random : Rand Q := fun rnd k => (rnd k, S k).

(** The monad notations of stdpp: [u ← random; ...]. *)
#[global] Instance Rand_ret : MRet Rand := @ret.
#[global] Instance Rand_bind : MBind Rand := fun A B f m => bind m f.

(** What [Math.random] promises: every value lies in [[0, 1)]. *)
Definition unitRange (rnd : nat -> Q) : Prop := forall k, 0 <= rnd k /\ rnd k < 1.

(** The value computed by a randomized function started at call [k]. *)
Definition result {A} (m : Rand A) (rnd : nat -> Q) (k : nat) : A := fst (m rnd k).

(* ------------------------------------------------------------------------- *)
(** ** types.ts *)

Inductive Shape := dot | square | line.

Inductive SpeciesType := torus | mobius | knot | hopf.

Module SoilSettings.
Record t := mk {
  threshold : Q;
  dotSize : Q;
  spacing : Q;
  shape : Shape;
  maxPoints : Q
}.
End SoilSettings.

Module SoilPoint.
Record t := mk {
  x : Q;
  y : Q;
  z : Q;
  b : Q;
  n : Q
}.
End SoilPoint.

Module SoilBehavior.
Record t := mk {
  densityFactor : Q;
  heightFactor : Q;
  thicknessFactor : Q;
  growthSpeed : Q;
  avgBrightness : Q
}.
End SoilBehavior.

Module CreatureParams.
Record t := mk {
  strength : Q;
  heightFactor : Q;
  thicknessFactor : Q
}.
End CreatureParams.

(* ------------------------------------------------------------------------- *)
(** ** The creature classes *)

Module Creature.

(** Angles drawn as [Math.random() * Math.PI * 2] are kept in units of
    [Math.PI]. *)
Record Particle := mkParticle { offset : Q; speed : Q }.

Record Orbital := mkOrbital { axisX : Q; axisY : Q; axisZ : Q; orbitSpeed : Q }.

(** What a subclass adds to the fields of [Creature]. *)
Inductive Body :=
| Plain
| NeonTorus (rings : Q)
| FluxRibbon (particles : list Particle)
| TensorCore (orbitals : list Orbital)
| PrismSpire (segments : Q) (rotationOffset : Q).

Record t := mk {
  baseX : Q; baseY : Q; baseZ : Q;
  strength : Q; heightBase : Q; radiusBase : Q; thickness : Q;
  growth : Q; wind : Q; contraction : Q; verticalInf : Q; time : Q;
  hueOffset : Q;
  body : Body
}.

(** [constructor(x, y, z, params)] of the base class. *)
Definition new (x y z : Q) (params : CreatureParams.t) : Rand t :=
  u ← random;
  ret {| baseX := x; baseY := y; baseZ := z;
         strength := CreatureParams.strength params;
         heightBase := 100; radiusBase := 10; thickness := 1;
         growth := 0; wind := 0; contraction := 0; verticalInf := 0; time := 0;
         hueOffset := (u - 0.5) * 30;
         body := Plain |}.

(** The assignments a subclass constructor makes after [super(...)]. *)
Definition specialize (c : t) (hb rb : Q) (bd : Body) : t :=
  {| baseX := baseX c; baseY := baseY c; baseZ := baseZ c;
     strength := strength c; heightBase := hb; radiusBase := rb;
     thickness := thickness c;
     growth := growth c; wind := wind c; contraction := contraction c;
     verticalInf := verticalInf c; time := time c;
     hueOffset := hueOffset c;
     body := bd |}.

Definition update (c : t) (growth' wind' contraction' verticalInf' frame : Q) : t :=
  {| baseX := baseX c; baseY := baseY c; baseZ := baseZ c;
     strength := strength c; heightBase := heightBase c;
     radiusBase := radiusBase c; thickness := thickness c;
     growth := growth';
     wind := wind';
     contraction := contraction';
     verticalInf := verticalInf';
     time := frame * 0.03;
     hueOffset := hueOffset c;
     body := body c |}.

End Creature.

Definition newNeonTorus (x y z : Q) (params : CreatureParams.t) : Rand Creature.t :=
  c ← Creature.new x y z params;
  let s := Creature.strength c in
  ret (Creature.specialize c
         (lerp 80 160 s * CreatureParams.heightFactor params)
         (lerp 12 24 s * CreatureParams.thicknessFactor params)
         (Creature.NeonTorus (floor (lerp 3 8 s)))).

(** [for (let i = 0; i < 3; i++) particles.push({offset, speed})]. *)
Fixpoint ribbonParticles (count : nat) (acc : list Creature.Particle)
  : Rand (list Creature.Particle) :=
  match count with
  | O => ret acc
  | S count' =>
      u ← random;
      v ← random;
      ribbonParticles count' (acc ++ [Creature.mkParticle (u * 2) (1 + v)])
  end.

Definition newFluxRibbon (x y z : Q) (params : CreatureParams.t) : Rand Creature.t :=
  c ← Creature.new x y z params;
  let s := Creature.strength c in
  ps ← ribbonParticles 3 [];
  ret (Creature.specialize c
         (lerp 70 150 s * CreatureParams.heightFactor params)
         (lerp 8 16 s * CreatureParams.thicknessFactor params)
         (Creature.FluxRibbon ps)).

(** [for (let i = 0; i < count; i++) orbitals.push({...})]: the loop runs
    [count] times for a positive integer [count] and not at all otherwise. *)
Fixpoint coreOrbitals (count : nat) (acc : list Creature.Orbital)
  : Rand (list Creature.Orbital) :=
  match count with
  | O => ret acc
  | S count' =>
      ax ← random;
      ay ← random;
      az ← random;
      u ← random;
      v ← random;
      coreOrbitals count'
        (acc ++ [Creature.mkOrbital ax ay az
                   ((u + 0.5) * (if Qltb 0.5 v then 1 else -1))])
  end.

Definition newTensorCore (x y z : Q) (params : CreatureParams.t) : Rand Creature.t :=
  c ← Creature.new x y z params;
  let s := Creature.strength c in
  os ← coreOrbitals (Z.to_nat (Qfloor (lerp 2 4 s))) [];
  ret (Creature.specialize c
         (lerp 60 110 s * CreatureParams.heightFactor params)
         (lerp 10 20 s * CreatureParams.thicknessFactor params)
         (Creature.TensorCore os)).

Definition newPrismSpire (x y z : Q) (params : CreatureParams.t) : Rand Creature.t :=
  c ← Creature.new x y z params;
  let s := Creature.strength c in
  u ← random;
  ret (Creature.specialize c
         (lerp 80 160 s * CreatureParams.heightFactor params)
         (lerp 8 15 s * CreatureParams.thicknessFactor params)
         (Creature.PrismSpire (floor (lerp 4 9 s)) (u * 2))).

(* ------------------------------------------------------------------------- *)
(** ** The sampled image *)

(** [state.sourceG]: an offscreen graphics of integer size with its RGBA
    buffer, a [Uint8ClampedArray]. *)
Module Graphics.
Record t := mk {
  width : Z;
  height : Z;
  pixels : list byte
}.
End Graphics.

(** [pixels[idx]]: a byte when [idx] is an integer inside the buffer,
    [undefined] otherwise. *)
Definition readPixel (px : list byte) (idx : Q) : option Q :=
  let i := Qred idx in
  if ((Qden i =? 1)%positive && (0 <=? Qnum i)%Z)%bool
  then (fun v => inject_Z (Z.of_N (Byte.to_N v))) <$> px !! Z.to_nat (Qnum i)
  else None.

(** The luminance of the pixel at [(x, y)], as both scans compute it:
    [idx = (x + y * width) * 4] and
    [bright = r * 0.299 + g * 0.587 + b * 0.114].  [None] is the NaN obtained
    from an [undefined] channel.  At integer coordinates the three reads are
    the red, green and blue bytes of one pixel; at a fractional coordinate
    whose index is still an integer (a spacing of 2.5, say) they are the
    three bytes found there, whichever channels those are. *)
Definition brightAt (g : Graphics.t) (x y : Q) : option Q :=
  let idx := (x + y * inject_Z (Graphics.width g)) * 4 in
  r ← readPixel (Graphics.pixels g) idx;
  gr ← readPixel (Graphics.pixels g) (idx + 1);
  bl ← readPixel (Graphics.pixels g) (idx + 2);
  Some (r * 0.299 + gr * 0.587 + bl * 0.114).

(** An entry of [state.previewDots]. *)
Module PreviewDot.
Record t := mk {
  x : Q;
  y : Q;
  size : Q
}.
End PreviewDot.

(** Plain [{x, y}] objects and the [p5.Vector] of the pointer. *)
Module Vec2.
Record t := mk { x : Q; y : Q }.
End Vec2.

Module Vec3.
Record t := mk { x : Q; y : Q; z : Q }.
End Vec3.

Module MouseInteraction.
Record t := mk {
  position : Vec3.t;
  isDragging : bool;
  dragStart : Vec2.t;
  scrollTwist : Q
}.
End MouseInteraction.

(** What the sketch [p] offers to the modelled code. *)
Module P5.
Record t := mk {
  frameCount : Q;
  width : Q;
  height : Q;
  mouseX : Q;
  mouseY : Q
}.
End P5.

(** [stateRef.current], restricted to the fields the modelled functions read
    or write. *)
Module State.
Record t := mk {
  settings : SoilSettings.t;
  imgW : Q;
  imgH : Q;
  sourceG : option Graphics.t;
  previewDots : list PreviewDot.t;
  soilPoints : list SoilPoint.t;
  creatures : list Creature.t;
  soilBehavior : SoilBehavior.t;
  growthStartFrame : Q;
  growthProgress : Q;
  wind : Q;
  windTarget : Q;
  verticalInfluence : Q;
  contraction : Q;
  worldRotation : Vec2.t;
  worldRotationStart : Vec2.t;
  mouseInteraction : MouseInteraction.t;
  isFist : bool
}.

Definition setPreviewDots (s : t) (dots : list PreviewDot.t) : t :=
  mk (settings s) (imgW s) (imgH s) (sourceG s) dots (soilPoints s)
     (creatures s) (soilBehavior s) (growthStartFrame s) (growthProgress s)
     (wind s) (windTarget s) (verticalInfluence s) (contraction s)
     (worldRotation s) (worldRotationStart s) (mouseInteraction s) (isFist s).

Definition setSoilPoints (s : t) (pts : list SoilPoint.t) : t :=
  mk (settings s) (imgW s) (imgH s) (sourceG s) (previewDots s) pts
     (creatures s) (soilBehavior s) (growthStartFrame s) (growthProgress s)
     (wind s) (windTarget s) (verticalInfluence s) (contraction s)
     (worldRotation s) (worldRotationStart s) (mouseInteraction s) (isFist s).

Definition setCreatures (s : t) (cs : list Creature.t) : t :=
  mk (settings s) (imgW s) (imgH s) (sourceG s) (previewDots s) (soilPoints s)
     cs (soilBehavior s) (growthStartFrame s) (growthProgress s)
     (wind s) (windTarget s) (verticalInfluence s) (contraction s)
     (worldRotation s) (worldRotationStart s) (mouseInteraction s) (isFist s).

(** The assignments of [generateDigitalSoil] before it calls
    [setupCreatures]. *)
Definition setSoil (s : t) (pts : list SoilPoint.t) (bh : SoilBehavior.t)
    (startFrame : Q) : t :=
  mk (settings s) (imgW s) (imgH s) (sourceG s) (previewDots s) pts
     (creatures s) bh startFrame 0
     (wind s) (windTarget s) (verticalInfluence s) (contraction s)
     (worldRotation s) (worldRotationStart s) (mouseInteraction s) (isFist s).
End State.

(* ------------------------------------------------------------------------- *)
(** ** recomputePreviewDots *)

(** The body of the inner loop. *)
Definition previewCell (g : Graphics.t) (threshold maxSize y x : Q)
    (dots : list PreviewDot.t) : list PreviewDot.t :=
  match brightAt g x y with
  | Some bright =>
      if Qltb threshold bright then
        let range := 255 - threshold in
        let norm := (bright - threshold) / orElse range 1 in
        let radius := norm * maxSize in
        if Qle_bool radius 0.3 then dots
        else
          let sx := x - inject_Z (Graphics.width g) / 2 in
          let sy := y - inject_Z (Graphics.height g) / 2 in
          dots ++ [PreviewDot.mk sx sy radius]
      else dots
  | None => dots
  end.

(** [for (let x = ...; x < width; x += step)]: [fuel] bounds the number of
    iterations; the loop leaves by its guard whenever [fuel] is at least the
    width, since [step] is at least 1 (see [previewScan_fuel] and, for the
    final scan, [soilScan_fuel]). *)
Fixpoint previewRow (fuel : nat) (g : Graphics.t) (threshold maxSize step y x : Q)
    (dots : list PreviewDot.t) : list PreviewDot.t :=
  match fuel with
  | O => dots
  | S fuel' =>
      if Qltb x (inject_Z (Graphics.width g)) then
        previewRow fuel' g threshold maxSize step y (x + step)
          (previewCell g threshold maxSize y x dots)
      else dots
  end.

(** [for (let y = ...; y < height; y += step)], the inner loop run with
    [rowFuel]. *)
Fixpoint previewRows (fuel rowFuel : nat) (g : Graphics.t) (threshold maxSize step y : Q)
    (dots : list PreviewDot.t) : list PreviewDot.t :=
  match fuel with
  | O => dots
  | S fuel' =>
      if Qltb y (inject_Z (Graphics.height g)) then
        previewRows fuel' rowFuel g threshold maxSize step (y + step)
          (previewRow rowFuel g threshold maxSize step y 0 dots)
      else dots
  end.

(** The two nested loops, from [(0, 0)] and an empty list. *)
Definition previewScan (g : Graphics.t) (settings : SoilSettings.t) : list PreviewDot.t :=
  let step := Qmax 1 (SoilSettings.spacing settings) in
  previewRows (Z.to_nat (Graphics.height g)) (Z.to_nat (Graphics.width g)) g
    (SoilSettings.threshold settings) (SoilSettings.dotSize settings) step 0 [].

Definition recomputePreviewDots (state : State.t) : State.t :=
  match State.sourceG state with
  | None => state
  | Some g =>
      if (length (Graphics.pixels g) =? 0)%nat then State.setPreviewDots state []
      else
        let dots := previewScan g (State.settings state) in
        State.setPreviewDots state
          (if Qltb 4000 (len dots) then take 4000 dots else dots)
  end.

(* ------------------------------------------------------------------------- *)
(** ** generateDigitalSoil *)

(** The body of the inner loop; the accumulator is [state.soilPoints] and
    [brightnessSum]. *)
Definition soilCell (g : Graphics.t) (threshold y x : Q)
    (acc : list SoilPoint.t * Q) : Rand (list SoilPoint.t * Q) :=
  match brightAt g x y with
  | Some bright =>
      if Qltb threshold bright then
        let range := 255 - threshold in
        let normalized := (bright - threshold) / orElse range 1 in
        let sx := x - inject_Z (Graphics.width g) / 2 in
        let sy := y - inject_Z (Graphics.height g) / 2 in
        u ← random;
        ret (acc.1 ++ [SoilPoint.mk sx sy (u * 6 - 3) bright normalized],
             acc.2 + normalized)
      else ret acc
  | None => ret acc
  end.

Fixpoint soilRow (fuel : nat) (g : Graphics.t) (threshold step y x : Q)
    (acc : list SoilPoint.t * Q) : Rand (list SoilPoint.t * Q) :=
  match fuel with
  | O => ret acc
  | S fuel' =>
      if Qltb x (inject_Z (Graphics.width g)) then
        acc' ← soilCell g threshold y x acc;
        soilRow fuel' g threshold step y (x + step) acc'
      else ret acc
  end.

Fixpoint soilRows (fuel rowFuel : nat) (g : Graphics.t) (threshold step y : Q)
    (acc : list SoilPoint.t * Q) : Rand (list SoilPoint.t * Q) :=
  match fuel with
  | O => ret acc
  | S fuel' =>
      if Qltb y (inject_Z (Graphics.height g)) then
        acc' ← soilRow rowFuel g threshold step y 0 acc;
        soilRows fuel' rowFuel g threshold step (y + step) acc'
      else ret acc
  end.

(** The grid scan: the retained points in scan order and [brightnessSum]. *)
Definition soilScan (g : Graphics.t) (settings : SoilSettings.t)
  : Rand (list SoilPoint.t * Q) :=
  let step := Qmax 1 (SoilSettings.spacing settings) in
  soilRows (Z.to_nat (Graphics.height g)) (Z.to_nat (Graphics.width g)) g
    (SoilSettings.threshold settings) step 0 ([], 0).

(** [[a[i], a[j]] = [a[j], a[i]]].  With [0 <= j <= i < a.length], the only
    case a draw in [[0, 1)] produces, both elements exist; the array is left
    alone otherwise. *)
Definition swap {A} (a : list A) (i : nat) (j : Z) : list A :=
  match a !! i, (if (0 <=? j)%Z then a !! Z.to_nat j else None) with
  | Some ai, Some aj => <[Z.to_nat j := ai]> (<[i := aj]> a)
  | _, _ => a
  end.

(** [for (let i = ...; i > 0; i--) { j = Math.floor(Math.random() * (i + 1)); swap }],
    entered with the first value of [i]. *)
Fixpoint shuffle {A} (i : nat) (a : list A) : Rand (list A) :=
  match i with
  | O => ret a
  | S i' =>
      u ← random;
      let j := Qfloor (u * (inject_Z (Z.of_nat i) + 1)) in
      shuffle i' (swap a i j)
  end.

(** The index [j] the shuffle computes for position [i] from call [k] of
    [Math.random]. *)
Definition drawnIndex (rnd : nat -> Q) (k i : nat) : Z :=
  Qfloor (rnd k * (inject_Z (Z.of_nat i) + 1)).

(** [a.slice(0, e)]: a negative end counts from the end of the array. *)
Definition slice0 {A} (a : list A) (e : Q) : list A :=
  let k := toInteger e in
  if (k <? 0)%Z then take (Z.to_nat (Z.of_nat (length a) + k)) a
  else take (Z.to_nat k) a.

(** The cap on the number of points: shuffle, then truncate. *)
Definition capPoints (maxPoints : Q) (pts : list SoilPoint.t) : Rand (list SoilPoint.t) :=
  if Qltb maxPoints (len pts) then
    shuffled ← shuffle (length pts - 1) pts;
    ret (slice0 shuffled maxPoints)
  else ret pts.

(** [for (let i = 0; i < 120; i++) state.soilPoints.push({...})], with
    [count] iterations left. *)
Fixpoint synthetic (count : nat) (imgW imgH : Q) (pts : list SoilPoint.t)
  : Rand (list SoilPoint.t) :=
  match count with
  | O => ret pts
  | S count' =>
      u ← random;
      v ← random;
      synthetic count' imgW imgH
        (pts ++ [SoilPoint.mk ((u - 0.5) * imgW) ((v - 0.5) * imgH) 0 255 1])
  end.

(** The fallback for an image that is too dark. *)
Definition darkFallback (imgW imgH : Q) (pts : list SoilPoint.t) : Rand (list SoilPoint.t) :=
  if Qltb (len pts) 50 then synthetic 120 imgW imgH pts else ret pts.

(** [avgN] and the object assigned to [state.soilBehavior]. *)
Definition soilBehaviorOf (settings : SoilSettings.t) (brightnessSum : Q)
    (pts : list SoilPoint.t) : SoilBehavior.t :=
  let avgN := if Qltb 0 (len pts) then brightnessSum / len pts else 0.5 in
  {| SoilBehavior.densityFactor := mapRange (SoilSettings.spacing settings) 2 20 1.3 0.5;
     SoilBehavior.heightFactor :=
       mapRange (SoilSettings.dotSize settings) 2 20 0.7 1.6
       * mapRange (SoilSettings.threshold settings) 0 255 0.8 1.25;
     SoilBehavior.thicknessFactor := mapRange (SoilSettings.dotSize settings) 2 20 0.7 1.6;
     SoilBehavior.growthSpeed := mapRange (SoilSettings.threshold settings) 0 255 0.8 1.25;
     SoilBehavior.avgBrightness := avgN |}.

(** The soil of [generateDigitalSoil]: [state.soilPoints] and
    [state.soilBehavior] once the function has a graphics to scan. *)
Definition digitalSoil (g : Graphics.t) (settings : SoilSettings.t) (imgW imgH : Q)
  : Rand (list SoilPoint.t * SoilBehavior.t) :=
  scanned ← soilScan g settings;
  capped ← capPoints (SoilSettings.maxPoints settings) scanned.1;
  pts ← darkFallback imgW imgH capped;
  ret (pts, soilBehaviorOf settings scanned.2 pts).

(* ------------------------------------------------------------------------- *)
(** ** setupCreatures *)

(** The body of the spawn loop for the point [p = points[indices[i]]].  A
    [SoilPoint] always carries [n], so the default [0.7] of
    [p.n !== undefined ? p.n : 0.7] is never taken. *)
Definition spawn (p : SoilPoint.t) (behavior : SoilBehavior.t) (species : SpeciesType)
  : Rand Creature.t :=
  let strength := SoilPoint.n p in
  let heightFactor := lerp 0.8 1.5 strength * SoilBehavior.heightFactor behavior in
  let thicknessFactor := lerp 0.8 1.4 strength * SoilBehavior.thicknessFactor behavior in
  let params := CreatureParams.mk strength heightFactor thicknessFactor in
  let x3d := SoilPoint.x p in
  let z3d := SoilPoint.y p in
  let y3d := SoilPoint.z p * 1.5 in
  match species with
  | torus => newNeonTorus x3d y3d z3d params
  | mobius => newFluxRibbon x3d y3d z3d params
  | knot => newTensorCore x3d y3d z3d params
  | hopf => newPrismSpire x3d y3d z3d params
  end.

(** [for (let i = 0; i < useCount; i++) { ... creatures.push(...) }], entered
    at [i].  [fuel] bounds the iterations; the length of [indices] is enough
    since [useCount] is at most that length (see [spawnLoop_fuel]).  A read
    [points[indices[i]]] outside the arrays would throw at [p.n]; the loop
    stops there. *)
Fixpoint spawnLoop (fuel : nat) (points : list SoilPoint.t) (behavior : SoilBehavior.t)
    (species : SpeciesType) (indices : list nat) (useCount : Q) (i : nat)
    (creatures : list Creature.t) : Rand (list Creature.t) :=
  match fuel with
  | O => ret creatures
  | S fuel' =>
      if Qltb (inject_Z (Z.of_nat i)) useCount then
        match indices !! i ≫= (fun k => points !! k) with
        | Some p =>
            c ← spawn p behavior species;
            spawnLoop fuel' points behavior species indices useCount (S i)
              (creatures ++ [c])
        | None => ret creatures
        end
      else ret creatures
  end.

(** [plantCount], from [points.length] and the density factor. *)
Definition plantCount (pointCount densityFactor : Q) : Q :=
  let minPlants := 30 in
  let maxPlants := 160 in
  let baseCount := floor (mapRange pointCount 50 1200 minPlants maxPlants) in
  floor (baseCount * densityFactor).

(** The permutation of the indices: [Array.from({length}, (_, i) => i)],
    shuffled in place. *)
Definition shuffledIndices (pointCount : nat) : Rand (list nat) :=
  shuffle (pointCount - 1) (seq 0 pointCount).

(** The list assigned to [stateRef.current.creatures]. *)
Definition setupCreatures (points : list SoilPoint.t) (behavior : SoilBehavior.t)
    (species : SpeciesType) : Rand (list Creature.t) :=
  let plants := plantCount (len points) (SoilBehavior.densityFactor behavior) in
  indices ← shuffledIndices (length points);
  let useCount := Qmin plants (len indices) in
  spawnLoop (length indices) points behavior species indices useCount 0 [].

(** [generateDigitalSoil], with the species selected in the interface and the
    sketch, if one is running. *)
Definition generateDigitalSoil (currentSpecies : SpeciesType) (p5Instance : option P5.t)
    (state : State.t) : Rand State.t :=
  let state := State.setSoilPoints state [] in
  match State.sourceG state with
  | None => ret state
  | Some g =>
      soil ← digitalSoil g (State.settings state) (State.imgW state) (State.imgH state);
      let startFrame :=
        match p5Instance with Some p => P5.frameCount p | None => 0 end in
      let state := State.setSoil state soil.1 soil.2 startFrame in
      creatures ← setupCreatures (State.soilPoints state) (State.soilBehavior state)
                    currentSpecies;
      ret (State.setCreatures state creatures)
  end.

(* ------------------------------------------------------------------------- *)
(** ** drawGrowthScene: interaction mapping and creature update *)

(** The three targets of the smoothing, from the pointer position and the
    fist flag. *)
Definition windTargetOf (p : P5.t) (position : Vec3.t) : Q :=
  let inputX := Vec3.x position in
  let handInfluenceX := p5map inputX (- P5.width p / 2) (P5.width p / 2) (-1) 1 in
  handInfluenceX * 1.0.

Definition verticalTargetOf (p : P5.t) (position : Vec3.t) : Q :=
  let inputY := Vec3.y position in
  let handInfluenceY := p5map inputY (- P5.height p / 2) (P5.height p / 2) 1 0 in
  constrain handInfluenceY 0 1.

Definition contractionTargetOf (isFist : bool) : Q :=
  if isFist then 1.0 else 0.0.

(** The state after [drawGrowthScene(p)]; the draw calls have no effect on
    it. *)
Definition drawGrowthScene (p : P5.t) (state : State.t) : State.t :=
  let elapsed := P5.frameCount p - State.growthStartFrame state in
  let speed := orElse (SoilBehavior.growthSpeed (State.soilBehavior state)) 1 in
  let g := constrain ((elapsed / 200) * speed) 0 1 in
  let mi := State.mouseInteraction state in
  let windTarget := windTargetOf p (MouseInteraction.position mi) in
  let wind := lerp (State.wind state) windTarget 0.05 in
  let verticalInfluence :=
    lerp (State.verticalInfluence state)
         (verticalTargetOf p (MouseInteraction.position mi)) 0.1 in
  let contraction :=
    lerp (State.contraction state) (contractionTargetOf (State.isFist state)) 0.1 in
  let worldRotation :=
    if MouseInteraction.isDragging mi then
      let dx := P5.mouseX p - Vec2.x (MouseInteraction.dragStart mi) in
      let dy := P5.mouseY p - Vec2.y (MouseInteraction.dragStart mi) in
      Vec2.mk
        (constrain (Vec2.x (State.worldRotationStart state) + dy * 0.005) (-1.2) 0.1)
        (Vec2.y (State.worldRotationStart state) + dx * 0.008)
    else State.worldRotation state in
  let mi' :=
    MouseInteraction.mk (MouseInteraction.position mi) (MouseInteraction.isDragging mi)
      (MouseInteraction.dragStart mi) (MouseInteraction.scrollTwist mi * 0.96) in
  let creatures :=
    map (fun creature =>
           Creature.update creature g wind contraction verticalInfluence (P5.frameCount p))
        (State.creatures state) in
  State.mk (State.settings state) (State.imgW state) (State.imgH state)
    (State.sourceG state) (State.previewDots state) (State.soilPoints state)
    creatures (State.soilBehavior state) (State.growthStartFrame state) g
    wind windTarget verticalInfluence contraction
    worldRotation (State.worldRotationStart state) mi' (State.isFist state).

(** What a frame finds when it starts: the sketch, and the pointer position
    and fist flag that [p.draw] and the hand-pose callback wrote since the
    last frame. *)
Module Observation.
Record t := mk {
  sketch : P5.t;
  position : Vec3.t;
  isFist : bool
}.
End Observation.

Definition observe (o : Observation.t) (s : State.t) : State.t :=
  let mi := State.mouseInteraction s in
  State.mk (State.settings s) (State.imgW s) (State.imgH s)
    (State.sourceG s) (State.previewDots s) (State.soilPoints s)
    (State.creatures s) (State.soilBehavior s) (State.growthStartFrame s)
    (State.growthProgress s)
    (State.wind s) (State.windTarget s) (State.verticalInfluence s) (State.contraction s)
    (State.worldRotation s) (State.worldRotationStart s)
    (MouseInteraction.mk (Observation.position o) (MouseInteraction.isDragging mi)
       (MouseInteraction.dragStart mi) (MouseInteraction.scrollTwist mi))
    (Observation.isFist o).

(** The state after [k] frames of the growth scene, frame [i] finding
    [obs i]. *)
Fixpoint frames (obs : nat -> Observation.t) (k : nat) (s : State.t) : State.t :=
  match k with
  | O => s
  | S k' =>
      let o := obs k' in
      drawGrowthScene (Observation.sketch o) (observe o (frames obs k' s))
  end.

(* ------------------------------------------------------------------------- *)
(** ** Concrete inputs *)

(** A [w] by [h] graphics whose pixels all have the grey level [v], opaque. *)
Definition solidImage (w h : nat) (v : byte) : Graphics.t :=
  Graphics.mk (Z.of_nat w) (Z.of_nat h) (concat (replicate (w * h) [v; v; v; xff])).

(** The initial value of the settings in the component. *)
Definition defaultSettings : SoilSettings.t :=
  SoilSettings.mk 100 8 4 dot 2000.

(** The initial value of [stateRef.current]. *)
Definition initialState : State.t :=
  State.mk defaultSettings 0 0 None [] [] []
    (SoilBehavior.mk 1 1 1 1 0) 0 0
    0 0 0 0
    (Vec2.mk (-0.6) 0) (Vec2.mk (-0.6) 0)
    (MouseInteraction.mk (Vec3.mk 0 0 0) false (Vec2.mk 0 0) 0)
    false.

(** The state once a graphics of size [imgW] by [imgH] is there to sample and
    the settings have been chosen. *)
Definition configured (g : Graphics.t) (settings : SoilSettings.t) : State.t :=
  State.mk settings (inject_Z (Graphics.width g)) (inject_Z (Graphics.height g))
    (Some g) [] [] []
    (SoilBehavior.mk 1 1 1 1 0) 0 0
    0 0 0 0
    (Vec2.mk (-0.6) 0) (Vec2.mk (-0.6) 0)
    (MouseInteraction.mk (Vec3.mk 0 0 0) false (Vec2.mk 0 0) 0)
    false.

(** A sequence of draws that walks through eighths. *)
Definition eighths (k : nat) : Q := Z.of_nat (k mod 8) # 8.

(** The canvas of the sketch at some frame, the mouse in the middle. *)
Definition canvas (frame : Q) : P5.t := P5.mk frame 900 600 450 300.

(* ------------------------------------------------------------------------- *)
(** ** The formulas of the specification *)

(** The count of spawned creatures in the words of the specification: the
    floor of the remapped point count times the density factor, clamped to
    [[0, pointCount]]. *)
Definition specPlantCount (pointCount : nat) (densityFactor : Q) : Z :=
  Z.max 0
    (Z.min (Qfloor (mapRange (inject_Z (Z.of_nat pointCount)) 50 1200 30 160 * densityFactor))
           (Z.of_nat pointCount)).

(** The normalized intensity in the words of the specification. *)
Definition specNormalized (br threshold : Q) : Q :=
  (br - threshold) / Qmax 1 (255 - threshold).

(** The sum and the arithmetic mean of the normalized intensities. *)
Definition sumN (pts : list SoilPoint.t) : Q :=
  foldr (fun p acc => SoilPoint.n p + acc) 0 pts.

Definition meanN (pts : list SoilPoint.t) : Q := sumN pts / len pts.

(* ------------------------------------------------------------------------- *)
(** ** The vocabulary of the statements *)

(** A synthetic point of the fallback for an image of size [imgW] by [imgH]. *)
Definition isSynthetic (imgW imgH : Q) (p : SoilPoint.t) : Prop :=
  SoilPoint.n p = 1 /\ SoilPoint.b p = 255 /\ SoilPoint.z p = 0
  /\ - (imgW / 2) <= SoilPoint.x p <= imgW / 2
  /\ - (imgH / 2) <= SoilPoint.y p <= imgH / 2.

(** A number that is an integer. *)
Definition integral (v : Q) : Prop := exists z : Z, v == inject_Z z.

(** A value of the loop variable after some iterations. *)
Definition multiple (step v : Q) : Prop :=
  exists i : nat, v == inject_Z (Z.of_nat i) * step.

(** A coordinate the loops visit: a multiple of the step, inside the
    graphics. *)
Definition onGrid (step : Q) (size : Z) (v : Q) : Prop :=
  multiple step v /\ v < inject_Z size.

(** Every sample the scans take at their grid coordinates is at most [bound]. *)
Definition darkGrid (g : Graphics.t) (step bound : Q) : Prop :=
  forall x y br,
    onGrid step (Graphics.width g) x -> onGrid step (Graphics.height g) y ->
    brightAt g x y = Some br -> br <= bound.

(** A point the final scan builds from a sampled pixel brighter than the
    threshold. *)
Definition isSample (g : Graphics.t) (threshold step : Q) (p : SoilPoint.t) : Prop :=
  exists x y br u,
    onGrid step (Graphics.width g) x /\ onGrid step (Graphics.height g) y
    /\ brightAt g x y = Some br /\ threshold < br
    /\ p = SoilPoint.mk (x - inject_Z (Graphics.width g) / 2)
                        (y - inject_Z (Graphics.height g) / 2)
                        (u * 6 - 3) br
                        ((br - threshold) / orElse (255 - threshold) 1).

(** The same for a dot of the preview. *)
Definition isPreviewSample (g : Graphics.t) (threshold step maxSize : Q)
    (d : PreviewDot.t) : Prop :=
  exists x y br,
    onGrid step (Graphics.width g) x /\ onGrid step (Graphics.height g) y
    /\ brightAt g x y = Some br /\ threshold < br
    /\ 0.3 < PreviewDot.size d
    /\ d = PreviewDot.mk (x - inject_Z (Graphics.width g) / 2)
                         (y - inject_Z (Graphics.height g) / 2)
                         ((br - threshold) / orElse (255 - threshold) 1 * maxSize).

(** The creature [c] stands on the soil point of index [i]. *)
Definition spawnedAt (points : list SoilPoint.t) (i : nat) (c : Creature.t) : Prop :=
  exists p, points !! i = Some p
    /\ Creature.baseX c = SoilPoint.x p
    /\ Creature.baseY c = SoilPoint.z p * 1.5
    /\ Creature.baseZ c = SoilPoint.y p
    /\ Creature.strength c = SoilPoint.n p.

(** The points [generateDigitalSoil] holds after the cap and before the
    fallback. *)
Definition cappedPoints (g : Graphics.t) (settings : SoilSettings.t)
  : Rand (list SoilPoint.t) :=
  scanned ← soilScan g settings;
  capPoints (SoilSettings.maxPoints settings) scanned.1.

(** The [i]-th point the fallback pushes when [Math.random] stands at call
    [k]: call [k + 2 i] places it across the image and call [k + 2 i + 1]
    down the image, each as [(Math.random() - 0.5)] times the size. *)
Definition syntheticAt (imgW imgH : Q) (rnd : nat -> Q) (k i : nat) : SoilPoint.t :=
  SoilPoint.mk ((rnd (k + 2 * i)%nat - 0.5) * imgW)
               ((rnd (k + 2 * i + 1)%nat - 0.5) * imgH) 0 255 1.

(** A signed distance [d] to a target settles at the rate [rate]: every tick
    multiplies it by [rate], it never changes sign, and for every [eps > 0]
    it stays below [eps] in absolute value from some tick on. *)
Definition settles (rate : Q) (d : nat -> Q) : Prop :=
  (forall k, d (S k) == rate * d k)
  /\ (forall k, (0 <= d 0%nat -> 0 <= d k) /\ (d 0%nat <= 0 -> d k <= 0))
  /\ (forall eps, 0 < eps ->
      exists N : nat, forall k, (N <= k)%nat -> Qabs (d k) < eps).

(* ------------------------------------------------------------------------- *)
(** ** Image load *)

(** The scale of the loaded image: [Math.min(900 / width, 600 / height) * 0.8],
    for an image of positive size. *)
Definition fitScale (width height : Q) : Q :=
  Qmin (900 / width) (600 / height) * 0.8.

(** [pix[i]] for an integer [i]. *)
Definition channel (pix : list byte) (i : nat) : option Q :=
  (fun v => inject_Z (Z.of_N (Byte.to_N v))) <$> pix !! i.

(** [for (let i = 0; i < pix.length; i += 4 * skip)] with [skip = 4]: the
    accumulators are [bSum], [None] once it is NaN, and [count].  [fuel]
    bounds the iterations; the length of [pix] is enough. *)
Fixpoint brightnessSamples (fuel : nat) (pix : list byte) (i : nat) (bSum : option Q)
    (count : nat) : option Q * nat :=
  match fuel with
  | O => (bSum, count)
  | S fuel' =>
      if (i <? length pix)%nat then
        let term :=
          r ← channel pix i;
          g ← channel pix (i + 1);
          b ← channel pix (i + 2);
          Some (r * 0.299 + g * 0.587 + b * 0.114) in
        brightnessSamples fuel' pix (i + 4 * 4)
          (s ← bSum; t ← term; Some (s + t)) (S count)
      else (bSum, count)
  end.

(** The threshold suggested for a pixel buffer; [None] is NaN. *)
Definition smartThreshold (pix : list byte) : option Q :=
  let samples := brightnessSamples (length pix) pix 0 (Some 0) 0 in
  let avgBrightness :=
    if (0 <? samples.2)%nat then
      (fun bSum => bSum / inject_Z (Z.of_nat samples.2)) <$> samples.1
    else Some 128 in
  (fun avg => floor (avg * 0.7)) <$> avgBrightness.

(* ------------------------------------------------------------------------- *)
(** ** The component around the state *)

(** The capture the hand-pose model reads, sized in [p.setup]. *)
Module Video.
Record t := mk {
  width : Q;
  height : Q
}.
End Video.

Definition HandLandmark : Type := Q * Q * Q.

(** A prediction; its bounding box and annotations are never read. *)
Module HandPrediction.
Record t := mk {
  landmarks : list HandLandmark
}.
End HandPrediction.

(** The component: the fields of [stateRef.current] modelled in [State], the
    remaining fields the handlers read or write, and the React state
    [scene] and [currentSpecies].  The effects that copy [scene] and
    [soilSettings] into [stateRef.current] are taken to run with the
    update that triggers them, so each is held once. *)
Module App.
Record t := mk {
  state : State.t;
  scene : Z;
  currentSpecies : SpeciesType;
  img : bool;
  previewDirty : bool;
  soilBreathPhase : Q;
  worldZoom : Q;
  handPos : option Vec3.t;
  handReady : bool
}.

Definition setState (a : t) (st : State.t) : t :=
  mk st (scene a) (currentSpecies a) (img a) (previewDirty a) (soilBreathPhase a)
     (worldZoom a) (handPos a) (handReady a).
End App.

(** A handler that ran to its end, or that stopped at a [TypeError] with the
    state it had reached. *)
Inductive Outcome :=
| Returned (a : App.t)
| Threw (a : App.t).

Definition stateOf (o : Outcome) : App.t :=
  match o with Returned a => a | Threw a => a end.

(** Assignments to single fields of [stateRef.current]. *)
Definition withSettings (st : State.t) (settings : SoilSettings.t) : State.t :=
  State.mk settings (State.imgW st) (State.imgH st) (State.sourceG st)
    (State.previewDots st) (State.soilPoints st) (State.creatures st)
    (State.soilBehavior st) (State.growthStartFrame st) (State.growthProgress st)
    (State.wind st) (State.windTarget st) (State.verticalInfluence st)
    (State.contraction st) (State.worldRotation st) (State.worldRotationStart st)
    (State.mouseInteraction st) (State.isFist st).

Definition withImage (st : State.t) (imgW imgH : Q) (g : Graphics.t) : State.t :=
  State.mk (State.settings st) imgW imgH (Some g)
    (State.previewDots st) (State.soilPoints st) (State.creatures st)
    (State.soilBehavior st) (State.growthStartFrame st) (State.growthProgress st)
    (State.wind st) (State.windTarget st) (State.verticalInfluence st)
    (State.contraction st) (State.worldRotation st) (State.worldRotationStart st)
    (State.mouseInteraction st) (State.isFist st).

Definition withMouseInteraction (st : State.t) (mi : MouseInteraction.t) : State.t :=
  State.mk (State.settings st) (State.imgW st) (State.imgH st) (State.sourceG st)
    (State.previewDots st) (State.soilPoints st) (State.creatures st)
    (State.soilBehavior st) (State.growthStartFrame st) (State.growthProgress st)
    (State.wind st) (State.windTarget st) (State.verticalInfluence st)
    (State.contraction st) (State.worldRotation st) (State.worldRotationStart st)
    mi (State.isFist st).

Definition withRotationStart (st : State.t) (start : Vec2.t) : State.t :=
  State.mk (State.settings st) (State.imgW st) (State.imgH st) (State.sourceG st)
    (State.previewDots st) (State.soilPoints st) (State.creatures st)
    (State.soilBehavior st) (State.growthStartFrame st) (State.growthProgress st)
    (State.wind st) (State.windTarget st) (State.verticalInfluence st)
    (State.contraction st) (State.worldRotation st) start
    (State.mouseInteraction st) (State.isFist st).

Definition withIsFist (st : State.t) (isFist : bool) : State.t :=
  State.mk (State.settings st) (State.imgW st) (State.imgH st) (State.sourceG st)
    (State.previewDots st) (State.soilPoints st) (State.creatures st)
    (State.soilBehavior st) (State.growthStartFrame st) (State.growthProgress st)
    (State.wind st) (State.windTarget st) (State.verticalInfluence st)
    (State.contraction st) (State.worldRotation st) (State.worldRotationStart st)
    (State.mouseInteraction st) isFist.

(** The [loadImage] callback of [handleFileSelect] for an image of size
    [width] by [height]; [pixels] is what [loadPixels] finds in the new
    graphics once the image is drawn into it.  [None]: the suggested
    threshold is NaN. *)
Definition imageLoaded (width height : Q) (pixels : list byte) (a : App.t)
  : option App.t :=
  let s := fitScale width height in
  let imgW := width * s in
  let imgH := height * s in
  let sourceG := Graphics.mk (Qfloor imgW) (Qfloor imgH) pixels in
  threshold ← smartThreshold pixels;
  let prev := State.settings (App.state a) in
  let settings :=
    SoilSettings.mk threshold (SoilSettings.dotSize prev) (SoilSettings.spacing prev)
      (SoilSettings.shape prev) (SoilSettings.maxPoints prev) in
  Some (App.mk (withSettings (withImage (App.state a) imgW imgH sourceG) settings)
          1 (App.currentSpecies a) true true (App.soilBreathPhase a)
          (App.worldZoom a) (App.handPos a) (App.handReady a)).

(** [setSoilSettings(next)] from a control of the settings panel, with the
    effect that follows it. *)
Definition setSoilSettings (next : SoilSettings.t) (a : App.t) : App.t :=
  App.mk (withSettings (App.state a) next)
    (App.scene a) (App.currentSpecies a) (App.img a) true (App.soilBreathPhase a)
    (App.worldZoom a) (App.handPos a) (App.handReady a).

(** The four controls: each replaces one field of the settings shown. *)
Inductive Control :=
| Threshold (v : Q)
| DotSize (v : Q)
| Spacing (v : Q)
| ShapeOf (v : Shape).

Definition applyControl (c : Control) (s : SoilSettings.t) : SoilSettings.t :=
  match c with
  | Threshold v =>
      SoilSettings.mk v (SoilSettings.dotSize s) (SoilSettings.spacing s)
        (SoilSettings.shape s) (SoilSettings.maxPoints s)
  | DotSize v =>
      SoilSettings.mk (SoilSettings.threshold s) v (SoilSettings.spacing s)
        (SoilSettings.shape s) (SoilSettings.maxPoints s)
  | Spacing v =>
      SoilSettings.mk (SoilSettings.threshold s) (SoilSettings.dotSize s) v
        (SoilSettings.shape s) (SoilSettings.maxPoints s)
  | ShapeOf v =>
      SoilSettings.mk (SoilSettings.threshold s) (SoilSettings.dotSize s)
        (SoilSettings.spacing s) v (SoilSettings.maxPoints s)
  end.

(** The effect on [[currentSpecies, scene]]: in the growth scene the
    population is spawned again. *)
Definition respawn (a : App.t) : Rand App.t :=
  if (App.scene a =? 3)%Z then
    creatures ← setupCreatures (State.soilPoints (App.state a))
                  (State.soilBehavior (App.state a)) (App.currentSpecies a);
    ret (App.setState a (State.setCreatures (App.state a) creatures))
  else ret a.

(** The button of the settings panel: [generateDigitalSoil], which ends in
    [setScene(3)] unless there was no graphics; the change of scene runs the
    effect above. *)
Definition generateClicked (p5Instance : option P5.t) (a : App.t) : Rand App.t :=
  st ← generateDigitalSoil (App.currentSpecies a) p5Instance (App.state a);
  match State.sourceG (App.state a) with
  | None => ret (App.setState a st)
  | Some _ =>
      let a' :=
        App.mk st 3 (App.currentSpecies a) (App.img a) (App.previewDirty a)
          (App.soilBreathPhase a) (App.worldZoom a) (App.handPos a) (App.handReady a) in
      if (App.scene a =? 3)%Z then ret a' else respawn a'
  end.

(** A button of the species selector: [setCurrentSpecies(s)], and the effect
    when the species changes. *)
Definition speciesEq (s s' : SpeciesType) : bool :=
  match s, s' with
  | torus, torus | mobius, mobius | knot, knot | hopf, hopf => true
  | _, _ => false
  end.

Definition selectSpecies (s : SpeciesType) (a : App.t) : Rand App.t :=
  if speciesEq s (App.currentSpecies a) then ret a
  else
    respawn (App.mk (App.state a) (App.scene a) s (App.img a) (App.previewDirty a)
               (App.soilBreathPhase a) (App.worldZoom a) (App.handPos a)
               (App.handReady a)).

(* ------------------------------------------------------------------------- *)
(** ** Hand pose *)

(** [Math.hypot(x, y)] on real numbers. *)
Definition hypot (x y : Rdefinitions.R) : Rdefinitions.R :=
  R_sqrt.sqrt (Rdefinitions.Rplus (Rdefinitions.Rmult x x) (Rdefinitions.Rmult y y)).

(** [tipDist < handSize * 1.1], both distances being [Math.hypot] of the
    offsets from the wrist.  The square roots are compared through their
    squares, which is the comparison of the roots (section [RealDistances]). *)
Definition fistLike (wrist midKnuckle midTip : HandLandmark) : bool :=
  let handSizeSq :=
    (midKnuckle.1.1 - wrist.1.1) * (midKnuckle.1.1 - wrist.1.1)
    + (midKnuckle.1.2 - wrist.1.2) * (midKnuckle.1.2 - wrist.1.2) in
  let tipDistSq :=
    (midTip.1.1 - wrist.1.1) * (midTip.1.1 - wrist.1.1)
    + (midTip.1.2 - wrist.1.2) * (midTip.1.2 - wrist.1.2) in
  Qltb tipDistSq (handSizeSq * (1.1 * 1.1)).

(** The position of the hand on the canvas for the knuckle at [(x, y)] of the
    video: mirrored left to right. *)
Definition mappedHand (p : P5.t) (video : Video.t) (x y : Q) : Q * Q :=
  (p5map x 0 (Video.width video) (P5.width p / 2) (- P5.width p / 2),
   p5map y 0 (Video.height video) (- P5.height p / 2) (P5.height p / 2)).

Definition gotHands (predictions : list HandPrediction.t) (p : P5.t) (video : Video.t)
    (a : App.t) : Outcome :=
  match predictions with
  | hand :: _ =>
      match HandPrediction.landmarks hand !! 9%nat with
      | None => Threw a
      | Some knuckle =>
          let mapped := mappedHand p video knuckle.1.1 knuckle.1.2 in
          let handPos :=
            match App.handPos a with
            | None => Vec3.mk mapped.1 mapped.2 0
            | Some pos =>
                Vec3.mk (lerp (Vec3.x pos) mapped.1 0.4) (lerp (Vec3.y pos) mapped.2 0.4)
                  (Vec3.z pos)
            end in
          let a1 :=
            App.mk (App.state a) (App.scene a) (App.currentSpecies a) (App.img a)
              (App.previewDirty a) (App.soilBreathPhase a) (App.worldZoom a)
              (Some handPos) (App.handReady a) in
          match HandPrediction.landmarks hand !! 0%nat,
                HandPrediction.landmarks hand !! 12%nat with
          | Some wrist, Some midTip =>
              Returned
                (App.mk (withIsFist (App.state a) (fistLike wrist knuckle midTip))
                   (App.scene a) (App.currentSpecies a) (App.img a)
                   (App.previewDirty a) (App.soilBreathPhase a) (App.worldZoom a)
                   (Some handPos) true)
          | _, _ => Threw a1
          end
      end
  | [] =>
      Returned
        (App.mk (withIsFist (App.state a) false)
           (App.scene a) (App.currentSpecies a) (App.img a)
           (App.previewDirty a) (App.soilBreathPhase a) (App.worldZoom a)
           (App.handPos a) false)
  end.

(* ------------------------------------------------------------------------- *)
(** ** The sketch: draw and the mouse *)

(** The state effect of [drawSoilConfigScene]. *)
Definition drawSoilConfigScene (a : App.t) : App.t :=
  match App.img a, State.sourceG (App.state a) with
  | true, Some _ =>
      if App.previewDirty a then
        App.mk (recomputePreviewDots (App.state a))
          (App.scene a) (App.currentSpecies a) (App.img a) false
          (App.soilBreathPhase a) (App.worldZoom a) (App.handPos a) (App.handReady a)
      else a
  | _, _ => a
  end.

(** The pointer [p.draw] chooses: the hand when one is tracked, the mouse
    otherwise. *)
Definition pointerOf (p : P5.t) (a : App.t) : Vec3.t :=
  match App.handReady a, App.handPos a with
  | true, Some pos => pos
  | _, _ => Vec3.mk (P5.mouseX p - P5.width p / 2) (P5.mouseY p - P5.height p / 2) 0
  end.

Definition draw (p : P5.t) (a : App.t) : App.t :=
  let mi := State.mouseInteraction (App.state a) in
  let st :=
    withMouseInteraction (App.state a)
      (MouseInteraction.mk (pointerOf p a) (MouseInteraction.isDragging mi)
         (MouseInteraction.dragStart mi) (MouseInteraction.scrollTwist mi)) in
  let a1 :=
    App.mk st (App.scene a) (App.currentSpecies a) (App.img a) (App.previewDirty a)
      (App.soilBreathPhase a + 0.01) (App.worldZoom a) (App.handPos a)
      (App.handReady a) in
  if (App.scene a =? 1)%Z then drawSoilConfigScene a1
  else if (App.scene a =? 3)%Z then App.setState a1 (drawGrowthScene p (App.state a1))
  else a1.

Definition mousePressed (p : P5.t) (a : App.t) : App.t :=
  if (App.scene a =? 3)%Z then
    let st := App.state a in
    let mi := State.mouseInteraction st in
    App.setState a
      (withRotationStart
         (withMouseInteraction st
            (MouseInteraction.mk (MouseInteraction.position mi) true
               (Vec2.mk (P5.mouseX p) (P5.mouseY p)) (MouseInteraction.scrollTwist mi)))
         (State.worldRotation st))
  else a.

Definition mouseReleased (a : App.t) : App.t :=
  let mi := State.mouseInteraction (App.state a) in
  App.setState a
    (withMouseInteraction (App.state a)
       (MouseInteraction.mk (MouseInteraction.position mi) false
          (MouseInteraction.dragStart mi) (MouseInteraction.scrollTwist mi))).

Definition mouseWheel (delta : Q) (a : App.t) : App.t :=
  if negb (App.scene a =? 3)%Z then a
  else
    let zoomDelta := - delta * 0.001 in
    App.mk (App.state a) (App.scene a) (App.currentSpecies a) (App.img a)
      (App.previewDirty a) (App.soilBreathPhase a)
      (constrain (App.worldZoom a + zoomDelta) 0.5 2.2)
      (App.handPos a) (App.handReady a).

(* ------------------------------------------------------------------------- *)
(** ** Sessions *)

(** What can happen to the component.  The four user-interface events carry
    the condition under which their element is rendered. *)
Inductive Event :=
| Enter
| ImageLoaded (width height : Q) (pixels : list byte)
| Changed (c : Control)
| Generate (p5Instance : option P5.t)
| SelectSpecies (s : SpeciesType)
| Draw (p : P5.t)
| Predict (predictions : list HandPrediction.t) (p : P5.t) (video : Video.t)
| MousePressed (p : P5.t)
| MouseReleased
| MouseWheel (delta : Q).

(** The component once mounted: the effect on [[soilSettings]] has run. *)
Definition mounted : App.t :=
  App.mk initialState 0 torus false true 0 1.0 None false.

(** One event.  [None]: the event cannot happen in this state (its element
    is not rendered, or the image gives a NaN threshold). *)
Definition step (e : Event) (a : App.t) : Rand (option App.t) :=
  match e with
  | Enter =>
      ret (if (App.scene a =? 0)%Z
           then Some (App.mk (App.state a) 1 (App.currentSpecies a) (App.img a)
                        (App.previewDirty a) (App.soilBreathPhase a) (App.worldZoom a)
                        (App.handPos a) (App.handReady a))
           else None)
  | ImageLoaded width height pixels =>
      ret (if ((App.scene a =? 1)%Z && negb (App.img a))%bool
           then imageLoaded width height pixels a else None)
  | Changed c =>
      ret (if ((App.scene a =? 1)%Z && App.img a)%bool
           then Some (setSoilSettings (applyControl c (State.settings (App.state a))) a)
           else None)
  | Generate p5Instance =>
      if ((App.scene a =? 1)%Z && App.img a)%bool
      then a' ← generateClicked p5Instance a; ret (Some a')
      else ret None
  | SelectSpecies s =>
      if (App.scene a =? 3)%Z
      then a' ← selectSpecies s a; ret (Some a')
      else ret None
  | Draw p => ret (Some (draw p a))
  | Predict predictions p video => ret (Some (stateOf (gotHands predictions p video a)))
  | MousePressed p => ret (Some (mousePressed p a))
  | MouseReleased => ret (Some (mouseReleased a))
  | MouseWheel delta => ret (Some (mouseWheel delta a))
  end.

(** A session: the events in order, from a state and a call count. *)
Fixpoint session (events : list Event) (a : App.t) : Rand (option App.t) :=
  match events with
  | [] => ret (Some a)
  | e :: rest =>
      next ← step e a;
      match next with
      | Some a' => session rest a'
      | None => ret None
      end
  end.

(* ------------------------------------------------------------------------- *)
(** ** The vocabulary of the further statements *)

(** A soil point as the data model wants it, for an image of size [imgW] by
    [imgH] centred at the origin. *)
Definition wellFormedPoint (imgW imgH : Q) (p : SoilPoint.t) : Prop :=
  (0 < SoilPoint.n p /\ SoilPoint.n p <= 1)
  /\ (0 <= SoilPoint.b p /\ SoilPoint.b p <= 255)
  /\ (-3 <= SoilPoint.z p /\ SoilPoint.z p <= 3)
  /\ (- (imgW / 2) <= SoilPoint.x p /\ SoilPoint.x p <= imgW / 2)
  /\ (- (imgH / 2) <= SoilPoint.y p /\ SoilPoint.y p <= imgH / 2).

(** Where a soil point stands and what was sampled there. *)
Definition sampleOf (p : SoilPoint.t) : Q * Q * Q :=
  (SoilPoint.x p, SoilPoint.y p, SoilPoint.b p).

(** The dot the preview shows for a soil point, if it shows one: its radius
    is the normalized brightness times the dot size, and radii up to 0.3 are
    left out. *)
Definition previewOf (maxSize : Q) (p : SoilPoint.t) : option PreviewDot.t :=
  let radius := SoilPoint.n p * maxSize in
  if Qle_bool radius 0.3 then None
  else Some (PreviewDot.mk (SoilPoint.x p) (SoilPoint.y p) radius).

(** The species a creature belongs to, read off its class. *)
Definition speciesOfBody (b : Creature.Body) : option SpeciesType :=
  match b with
  | Creature.Plain => None
  | Creature.NeonTorus _ => Some torus
  | Creature.FluxRibbon _ => Some mobius
  | Creature.TensorCore _ => Some knot
  | Creature.PrismSpire _ _ => Some hopf
  end.

(** What the constructor of each class promises of its own fields, angles in
    units of [Math.PI]. *)
Definition wellFormedBody (b : Creature.Body) : Prop :=
  match b with
  | Creature.Plain => True
  | Creature.NeonTorus rings => integral rings /\ 3 <= rings <= 8
  | Creature.FluxRibbon particles =>
      length particles = 3%nat
      /\ Forall (fun q => (0 <= Creature.offset q /\ Creature.offset q < 2)
                          /\ (1 <= Creature.speed q /\ Creature.speed q < 2)) particles
  | Creature.TensorCore orbitals =>
      (2 <= length orbitals <= 4)%nat
      /\ Forall (fun o => (0 <= Creature.axisX o /\ Creature.axisX o < 1)
                          /\ (0 <= Creature.axisY o /\ Creature.axisY o < 1)
                          /\ (0 <= Creature.axisZ o /\ Creature.axisZ o < 1)
                          /\ (0.5 <= Qabs (Creature.orbitSpeed o)
                              /\ Qabs (Creature.orbitSpeed o) < 1.5)) orbitals
  | Creature.PrismSpire segments rotationOffset =>
      (integral segments /\ 4 <= segments <= 9)
      /\ (0 <= rotationOffset /\ rotationOffset < 2)
  end.

(** A creature of [species] as [setupCreatures] leaves it: of the class of
    the species, with positive dimensions, and not yet animated. *)
Definition wellFormedCreature (species : SpeciesType) (c : Creature.t) : Prop :=
  speciesOfBody (Creature.body c) = Some species
  /\ wellFormedBody (Creature.body c)
  /\ (0 < Creature.strength c /\ Creature.strength c <= 1)
  /\ 0 < Creature.heightBase c
  /\ 0 < Creature.radiusBase c
  /\ Creature.thickness c = 1
  /\ (-15 <= Creature.hueOffset c /\ Creature.hueOffset c < 15)
  /\ Creature.growth c = 0 /\ Creature.wind c = 0 /\ Creature.contraction c = 0
  /\ Creature.verticalInf c = 0 /\ Creature.time c = 0.

(** The animation state of a creature is inside the unit ranges its drawing
    code reads it in. *)
Definition animated (c : Creature.t) : Prop :=
  (0 <= Creature.growth c /\ Creature.growth c <= 1)
  /\ (0 <= Creature.contraction c /\ Creature.contraction c <= 1)
  /\ (0 <= Creature.verticalInf c /\ Creature.verticalInf c <= 1).

(** A position on the 900 by 600 canvas of [p.setup], the origin at its
    centre. *)
Definition onCanvas (pos : Vec3.t) : Prop :=
  (-450 <= Vec3.x pos /\ Vec3.x pos <= 450)
  /\ (-300 <= Vec3.y pos /\ Vec3.y pos <= 300).

(** The event finds the canvas and the video at the sizes [p.setup] gives
    them, the mouse over the canvas and the tracked knuckle inside the video
    frame. *)
Definition inFrame (e : Event) : Prop :=
  match e with
  | Draw p =>
      P5.width p = 900 /\ P5.height p = 600
      /\ (0 <= P5.mouseX p /\ P5.mouseX p <= 900)
      /\ (0 <= P5.mouseY p /\ P5.mouseY p <= 600)
  | Predict predictions p video =>
      P5.width p = 900 /\ P5.height p = 600
      /\ Video.width video = 320 /\ Video.height video = 240
      /\ forall hand knuckle,
           head predictions = Some hand ->
           HandPrediction.landmarks hand !! 9%nat = Some knuckle ->
           (0 <= knuckle.1.1 /\ knuckle.1.1 <= 320)
           /\ (0 <= knuckle.1.2 /\ knuckle.1.2 <= 240)
  | _ => True
  end.

(** A prediction of 21 landmarks with the wrist, the middle knuckle and the
    middle fingertip where given; the other landmarks, which nothing reads,
    are at the wrist. *)
Definition handAt (wrist midKnuckle midTip : HandLandmark) : HandPrediction.t :=
  HandPrediction.mk
    (<[12%nat := midTip]> (<[9%nat := midKnuckle]> (replicate 21 wrist))).

(** The creatures are a population of [species] on the soil [points]: as
    many as [setupCreatures] makes for these points and this behavior, each
    of the class of the species and standing on one of the points. *)
Definition populationOf (points : list SoilPoint.t) (behavior : SoilBehavior.t)
    (species : SpeciesType) (creatures : list Creature.t) : Prop :=
  Z.of_nat (length creatures)
  = Z.max 0
      (Z.min (Qfloor (floor (mapRange (len points) 50 1200 30 160)
                      * SoilBehavior.densityFactor behavior))
             (Z.of_nat (length points)))
  /\ Forall (fun c => speciesOfBody (Creature.body c) = Some species
                      /\ exists i, spawnedAt points i c) creatures.

(** The spacing control gives a value of its slider. *)
Definition sliderEvent (e : Event) : Prop :=
  match e with
  | Changed (Spacing v) => 2 <= v /\ v <= 20
  | _ => True
  end.

(** A landmark moved by [(dx, dy)], scaled by [s] about the origin of the
    video frame, and mirrored left to right in a frame of the given width. *)
Definition moveLandmark (dx dy : Q) (l : HandLandmark) : HandLandmark :=
  (l.1.1 + dx, l.1.2 + dy, l.2).

Definition scaleLandmark (s : Q) (l : HandLandmark) : HandLandmark :=
  (s * l.1.1, s * l.1.2, s * l.2).

Definition mirrorLandmark (width : Q) (l : HandLandmark) : HandLandmark :=
  (width - l.1.1, l.1.2, l.2).

(* ------------------------------------------------------------------------- *)
(** ** Numbers: basic facts *)

Lemma Qltb_lt (a b : Q) : Qltb a b = true <-> a < b.
Proof. unfold Qltb, Qlt. apply Z.ltb_lt. Qed.

Lemma Qltb_ge (a b : Q) : Qltb a b = false <-> b <= a.
Proof. unfold Qltb, Qle. rewrite Z.ltb_ge. reflexivity. Qed.

Lemma eighths_unitRange : unitRange eighths.
Proof.
  intros k. unfold eighths, Qle, Qlt. simpl.
  pose proof (Nat.mod_upper_bound k 8). lia.
Qed.

(* ------------------------------------------------------------------------- *)
(** ** The random monad: unfolding *)

Lemma bind_run {A B} (m : Rand A) (f : A -> Rand B) rnd k :
  (m ≫= f) rnd k = f (m rnd k).1 rnd (m rnd k).2.
Proof.
  unfold mbind, Rand_bind, bind. destruct (m rnd k) as [a k']. reflexivity.
Qed.

Lemma ret_run {A} (a : A) rnd k : ret a rnd k = (a, k).
Proof. reflexivity. Qed.

Ltac run := repeat (rewrite ?bind_run, ?ret_run; simpl).

(* ------------------------------------------------------------------------- *)
(** ** What generateDigitalSoil stores *)

Lemma generateDigitalSoil_soil species p5 state g rnd k :
  State.sourceG state = Some g ->
  let final := result (generateDigitalSoil species p5 state) rnd k in
  let soil := result (digitalSoil g (State.settings state) (State.imgW state)
                        (State.imgH state)) rnd k in
  State.soilPoints final = soil.1 /\ State.soilBehavior final = soil.2.
Proof.
  intros Hg. unfold result, generateDigitalSoil. simpl. rewrite Hg.
  run. split; reflexivity.
Qed.

Lemma generateDigitalSoil_creatures species p5 state g rnd k :
  State.sourceG state = Some g ->
  let final := generateDigitalSoil species p5 state rnd k in
  let soil := digitalSoil g (State.settings state) (State.imgW state)
                (State.imgH state) rnd k in
  State.creatures final.1
  = result (setupCreatures soil.1.1 soil.1.2 species) rnd soil.2.
Proof.
  intros Hg. unfold result, generateDigitalSoil. simpl. rewrite Hg.
  run. reflexivity.
Qed.

Lemma generateDigitalSoil_not_ready species p5 state rnd k :
  State.sourceG state = None ->
  generateDigitalSoil species p5 state rnd k = (State.setSoilPoints state [], k).
Proof.
  intros Hg. unfold generateDigitalSoil. simpl. rewrite Hg. reflexivity.
Qed.

Lemma digitalSoil_run g settings imgW imgH rnd k :
  let scanned := soilScan g settings rnd k in
  let capped := capPoints (SoilSettings.maxPoints settings) scanned.1.1 rnd scanned.2 in
  let pts := darkFallback imgW imgH capped.1 rnd capped.2 in
  digitalSoil g settings imgW imgH rnd k
  = ((pts.1, soilBehaviorOf settings scanned.1.2 pts.1), pts.2).
Proof. unfold digitalSoil. run. reflexivity. Qed.

Lemma cappedPoints_run g settings rnd k :
  let scanned := soilScan g settings rnd k in
  cappedPoints g settings rnd k
  = capPoints (SoilSettings.maxPoints settings) scanned.1.1 rnd scanned.2.
Proof. unfold cappedPoints. run. reflexivity. Qed.

(* ------------------------------------------------------------------------- *)
(** ** Creature update *)

(** C7. [update] stores its first four arguments in [growth], [wind],
    [contraction] and [verticalInf], sets [time] (the phase) to
    [frame * 0.03], and leaves every other field of the creature, whatever
    its class, as it was; hence a second call with the same five arguments
    changes nothing. *)
Theorem update_idempotent (c : Creature.t) (growth wind contraction verticalInf frame : Q) :
  let c1 := Creature.update c growth wind contraction verticalInf frame in
  Creature.update c1 growth wind contraction verticalInf frame = c1
  /\ Creature.growth c1 = growth
  /\ Creature.wind c1 = wind
  /\ Creature.contraction c1 = contraction
  /\ Creature.verticalInf c1 = verticalInf
  /\ Creature.time c1 = frame * 0.03
  /\ Creature.baseX c1 = Creature.baseX c
  /\ Creature.baseY c1 = Creature.baseY c
  /\ Creature.baseZ c1 = Creature.baseZ c
  /\ Creature.strength c1 = Creature.strength c
  /\ Creature.heightBase c1 = Creature.heightBase c
  /\ Creature.radiusBase c1 = Creature.radiusBase c
  /\ Creature.thickness c1 = Creature.thickness c
  /\ Creature.hueOffset c1 = Creature.hueOffset c
  /\ Creature.body c1 = Creature.body c.
Proof. repeat split. Qed.

(** Every frame of the growth scene calls [update] on every creature with
    the scalars it has just stored in the state and the frame count. *)
Lemma drawGrowthScene_updates (p : P5.t) (state : State.t) :
  let state' := drawGrowthScene p state in
  State.creatures state'
  = map (fun c => Creature.update c (State.growthProgress state') (State.wind state')
                    (State.contraction state') (State.verticalInfluence state')
                    (P5.frameCount p))
        (State.creatures state).
Proof. reflexivity. Qed.

(* ------------------------------------------------------------------------- *)
(** ** Behavior factors *)

Lemma mapRange_increasing (v v' i1 i2 o1 o2 : Q) :
  i1 < i2 -> o1 < o2 -> v < v' -> mapRange v i1 i2 o1 o2 < mapRange v' i1 i2 o1 o2.
Proof.
  intros Hi Ho Hv. unfold mapRange.
  assert (Hd : 0 < / (i2 - i1)) by (apply Qinv_lt_0_compat; lra).
  assert (Hq : (v - i1) / (i2 - i1) < (v' - i1) / (i2 - i1)).
  { unfold Qdiv. apply Qmult_lt_compat_r; [exact Hd | lra]. }
  assert (Hm : (o2 - o1) * ((v - i1) / (i2 - i1)) < (o2 - o1) * ((v' - i1) / (i2 - i1))).
  { rewrite !(Qmult_comm (o2 - o1)). apply Qmult_lt_compat_r; [lra | exact Hq]. }
  lra.
Qed.

Lemma mapRange_decreasing (v v' i1 i2 o1 o2 : Q) :
  i1 < i2 -> o2 < o1 -> v < v' -> mapRange v' i1 i2 o1 o2 < mapRange v i1 i2 o1 o2.
Proof.
  intros Hi Ho Hv. unfold mapRange.
  assert (Hd : 0 < / (i2 - i1)) by (apply Qinv_lt_0_compat; lra).
  assert (Hq : (v - i1) / (i2 - i1) < (v' - i1) / (i2 - i1)).
  { unfold Qdiv. apply Qmult_lt_compat_r; [exact Hd | lra]. }
  assert (Hm : (o1 - o2) * ((v - i1) / (i2 - i1)) < (o1 - o2) * ((v' - i1) / (i2 - i1))).
  { rewrite !(Qmult_comm (o1 - o2)). apply Qmult_lt_compat_r; [lra | exact Hq]. }
  lra.
Qed.

Lemma growthSpeed_factor_pos (t : Q) : 0 <= t -> 0 < mapRange t 0 255 0.8 1.25.
Proof.
  intros Ht. unfold mapRange.
  assert (H : 0 <= (1.25 - 0.8) * ((t - 0) / (255 - 0))).
  { apply Qmult_le_0_compat; [lra | ].
    unfold Qdiv. apply Qmult_le_0_compat; [lra | ].
    apply Qlt_le_weak, Qinv_lt_0_compat. lra. }
  lra.
Qed.

(** C6. In the behavior profile [generateDigitalSoil] stores, a larger spacing
    gives a strictly smaller density factor, and a larger dot size gives a
    strictly larger thickness factor and, at the same threshold in
    [[0, 255]], a strictly larger height factor.  The images, the other
    settings and the random draws of the two runs are arbitrary, and the
    ranges [[2, 20]] of spacing and dot size are not needed. *)
Theorem behavior_factors_monotone
    (species1 species2 : SpeciesType) (p1 p2 : option P5.t) (state1 state2 : State.t)
    (g1 g2 : Graphics.t) (rnd1 rnd2 : nat -> Q) (k1 k2 : nat) :
  State.sourceG state1 = Some g1 ->
  State.sourceG state2 = Some g2 ->
  let settings1 := State.settings state1 in
  let settings2 := State.settings state2 in
  let b1 := State.soilBehavior (result (generateDigitalSoil species1 p1 state1) rnd1 k1) in
  let b2 := State.soilBehavior (result (generateDigitalSoil species2 p2 state2) rnd2 k2) in
  (SoilSettings.spacing settings1 < SoilSettings.spacing settings2 ->
   SoilBehavior.densityFactor b2 < SoilBehavior.densityFactor b1)
  /\ (SoilSettings.dotSize settings1 < SoilSettings.dotSize settings2 ->
      SoilBehavior.thicknessFactor b1 < SoilBehavior.thicknessFactor b2)
  /\ (SoilSettings.dotSize settings1 < SoilSettings.dotSize settings2 ->
      0 <= SoilSettings.threshold settings1 <= 255 ->
      SoilSettings.threshold settings2 == SoilSettings.threshold settings1 ->
      SoilBehavior.heightFactor b1 < SoilBehavior.heightFactor b2).
Proof.
  intros Hg1 Hg2 settings1 settings2 b1 b2.
  destruct (generateDigitalSoil_soil species1 p1 state1 g1 rnd1 k1 Hg1) as [_ E1].
  destruct (generateDigitalSoil_soil species2 p2 state2 g2 rnd2 k2 Hg2) as [_ E2].
  subst b1 b2. rewrite E1, E2. unfold result. rewrite !digitalSoil_run. simpl.
  fold settings1 settings2.
  split; [ | split].
  - intros Hs. apply mapRange_decreasing; [lra | lra | exact Hs].
  - intros Hd. apply mapRange_increasing; [lra | lra | exact Hd].
  - intros Hd Ht Heq.
    assert (Hinc := mapRange_increasing _ _ 2 20 0.7 1.6 ltac:(lra) ltac:(lra) Hd).
    assert (Hpos := growthSpeed_factor_pos (SoilSettings.threshold settings1) (proj1 Ht)).
    assert (Hsame : mapRange (SoilSettings.threshold settings2) 0 255 0.8 1.25
                    == mapRange (SoilSettings.threshold settings1) 0 255 0.8 1.25).
    { unfold mapRange. rewrite Heq. reflexivity. }
    rewrite Hsame. apply Qmult_lt_compat_r; [exact Hpos | exact Hinc].
Qed.

Lemma behavior_factors_monotone_witness :
  let narrow := configured (solidImage 4 4 xc8) (SoilSettings.mk 100 2 2 dot 2000) in
  let wide := configured (solidImage 4 4 xc8) (SoilSettings.mk 100 20 20 dot 2000) in
  let b1 := State.soilBehavior (result (generateDigitalSoil torus None narrow) eighths 0) in
  let b2 := State.soilBehavior (result (generateDigitalSoil torus None wide) eighths 0) in
  SoilBehavior.densityFactor b2 < SoilBehavior.densityFactor b1
  /\ SoilBehavior.thicknessFactor b1 < SoilBehavior.thicknessFactor b2
  /\ SoilBehavior.heightFactor b1 < SoilBehavior.heightFactor b2.
Proof.
  intros narrow wide.
  destruct (behavior_factors_monotone torus torus None None narrow wide
              (solidImage 4 4 xc8) (solidImage 4 4 xc8) eighths eighths 0%nat 0%nat
              eq_refl eq_refl) as (Hd & Ht & Hh).
  split; [ | split].
  - apply Hd. reflexivity.
  - apply Ht. reflexivity.
  - apply Hh.
    + reflexivity.
    + split; discriminate.
    + reflexivity.
Defined.

(* ------------------------------------------------------------------------- *)
(** ** Interaction smoothing *)

Lemma frames_wind obs k s :
  State.wind (frames obs (S k) s)
  = lerp (State.wind (frames obs k s))
         (windTargetOf (Observation.sketch (obs k)) (Observation.position (obs k))) 0.05.
Proof. reflexivity. Qed.

Lemma frames_verticalInfluence obs k s :
  State.verticalInfluence (frames obs (S k) s)
  = lerp (State.verticalInfluence (frames obs k s))
         (verticalTargetOf (Observation.sketch (obs k)) (Observation.position (obs k))) 0.1.
Proof. reflexivity. Qed.

Lemma frames_contraction obs k s :
  State.contraction (frames obs (S k) s)
  = lerp (State.contraction (frames obs k s))
         (contractionTargetOf (Observation.isFist (obs k))) 0.1.
Proof. reflexivity. Qed.

Lemma of_nat_nonneg (k : nat) : 0 <= inject_Z (Z.of_nat k).
Proof. change 0 with (inject_Z 0). rewrite <- Zle_Qle. lia. Qed.

Lemma of_nat_succ (k : nat) : inject_Z (Z.of_nat (S k)) == inject_Z (Z.of_nat k) + 1.
Proof. rewrite Nat2Z.inj_succ. unfold Z.succ. rewrite inject_Z_plus. reflexivity. Qed.

Section Decay.

(** A distance [d] that shrinks by the factor [1 - a] at every tick. *)
Variable d : nat -> Q.
Variable a : Q.
Hypothesis a_range : 0 < a /\ a <= 1.
Hypothesis d_step : forall k, d (S k) == (1 - a) * d k.

Lemma decay_nonneg : 0 <= d 0%nat -> forall k, 0 <= d k.
Proof.
  intros H0 k. induction k as [ | k IH]; [exact H0 | ].
  rewrite d_step. apply Qmult_le_0_compat; [lra | exact IH].
Qed.

Lemma decay_nonpos : d 0%nat <= 0 -> forall k, d k <= 0.
Proof.
  intros H0 k. induction k as [ | k IH]; [exact H0 | ].
  rewrite d_step.
  assert (H : 0 <= (1 - a) * - d k) by (apply Qmult_le_0_compat; lra).
  assert (E : (1 - a) * - d k == - ((1 - a) * d k)) by ring.
  lra.
Qed.

Lemma decay_bound (k : nat) :
  Qabs (d k) * (1 + a * inject_Z (Z.of_nat k)) <= Qabs (d 0%nat).
Proof.
  induction k as [ | k IH].
  - simpl. assert (E : Qabs (d 0%nat) * (1 + a * inject_Z 0) == Qabs (d 0%nat)) by ring.
    rewrite E. apply Qle_refl.
  - pose proof (of_nat_nonneg k) as Hk.
    pose proof (Qabs_nonneg (d k)) as HA.
    assert (Habs : Qabs (d (S k)) == (1 - a) * Qabs (d k)).
    { rewrite d_step, Qabs_Qmult. rewrite (Qabs_pos (1 - a)) by lra. reflexivity. }
    rewrite Habs, of_nat_succ.
    set (K := inject_Z (Z.of_nat k)) in *. set (A := Qabs (d k)) in *.
    assert (E : (1 - a) * A * (1 + a * (K + 1))
                == A * (1 + a * K) - A * (a * a * (K + 1))) by ring.
    assert (Hsq : 0 <= A * (a * a * (K + 1))).
    { apply Qmult_le_0_compat; [exact HA | ].
      apply Qmult_le_0_compat; [ | lra].
      apply Qmult_le_0_compat; lra. }
    lra.
Qed.

Lemma decay_converges (eps : Q) :
  0 < eps -> exists N : nat, forall k, (N <= k)%nat -> Qabs (d k) < eps.
Proof.
  intros Heps.
  set (x := Qabs (d 0%nat) / (eps * a)).
  exists (Z.to_nat (Qceiling x)). intros k Hk.
  pose proof (decay_bound k) as Hb.
  pose proof (Qabs_nonneg (d k)) as HA.
  pose proof (Qle_ceiling x) as Hc.
  assert (HK : x <= inject_Z (Z.of_nat k)).
  { eapply Qle_trans; [exact Hc | ]. rewrite <- Zle_Qle. lia. }
  assert (Hea : 0 < eps * a).
  { apply Qmult_lt_0_compat; lra. }
  assert (Hx : Qabs (d 0%nat) == x * (eps * a)).
  { unfold x. field. lra. }
  assert (Hxk : x * (eps * a) <= inject_Z (Z.of_nat k) * (eps * a)).
  { apply Qmult_le_compat_r; [exact HK | lra]. }
  set (K := inject_Z (Z.of_nat k)) in *.
  assert (Hc1 : 0 < 1 + a * K).
  { assert (0 <= a * K) by (apply Qmult_le_0_compat; [lra | apply of_nat_nonneg]). lra. }
  apply (Qmult_lt_r _ _ (1 + a * K) Hc1).
  assert (E : eps * (1 + a * K) == eps + K * (eps * a)) by ring.
  lra.
Qed.

End Decay.

Lemma decay_settles (d : nat -> Q) (a : Q) :
  0 < a /\ a <= 1 -> (forall k, d (S k) == (1 - a) * d k) -> settles (1 - a) d.
Proof.
  intros Ha Hd. split; [exact Hd | ]. split.
  - intros k. split; intros H0.
    + exact (decay_nonneg d a Ha Hd H0 k).
    + exact (decay_nonpos d a Ha Hd H0 k).
  - intros eps Heps. exact (decay_converges d a Ha Hd eps Heps).
Qed.

Lemma settles_rate (r r' : Q) (d : nat -> Q) : r == r' -> settles r d -> settles r' d.
Proof.
  intros E (H1 & H2 & H3). split; [ | split; assumption].
  intros k. rewrite (H1 k), E. reflexivity.
Qed.

(** C8, one scalar at a time.  Each smoothed scalar depends on its own
    target only: while the wind target stays the same from frame to frame,
    whatever the other two targets do, the signed distance of the wind to it
    is multiplied by [0.95] at every frame, so it keeps its sign, and for
    every [eps > 0] it stays below [eps] in absolute value from some frame
    on; the same holds of the vertical influence and of the contraction,
    each with its own target and the factor [0.9]. *)
Theorem smoothing_converges (obs : nat -> Observation.t) (s : State.t) (wT vT cT : Q) :
  let w k := State.wind (frames obs k s) - wT in
  let v k := State.verticalInfluence (frames obs k s) - vT in
  let c k := State.contraction (frames obs k s) - cT in
  ((forall i, windTargetOf (Observation.sketch (obs i)) (Observation.position (obs i)) == wT) ->
   settles 0.95 w)
  /\ ((forall i, verticalTargetOf (Observation.sketch (obs i)) (Observation.position (obs i))
                 == vT) ->
      settles 0.9 v)
  /\ ((forall i, contractionTargetOf (Observation.isFist (obs i)) == cT) ->
      settles 0.9 c).
Proof.
  intros w v c.
  assert (R5 : 0 < 0.05 /\ 0.05 <= 1) by (split; [reflexivity | discriminate]).
  assert (R1 : 0 < 0.1 /\ 0.1 <= 1) by (split; [reflexivity | discriminate]).
  split; [ | split].
  - intros Hw. apply (settles_rate (1 - 0.05)); [reflexivity | ].
    apply decay_settles; [exact R5 | ].
    intros k. unfold w. rewrite frames_wind. unfold lerp. rewrite (Hw k). ring.
  - intros Hv. apply (settles_rate (1 - 0.1)); [reflexivity | ].
    apply decay_settles; [exact R1 | ].
    intros k. unfold v. rewrite frames_verticalInfluence. unfold lerp. rewrite (Hv k). ring.
  - intros Hc. apply (settles_rate (1 - 0.1)); [reflexivity | ].
    apply decay_settles; [exact R1 | ].
    intros k. unfold c. rewrite frames_contraction. unfold lerp. rewrite (Hc k). ring.
Qed.

Lemma smoothing_converges_witness :
  let steady := fun k : nat =>
    Observation.mk (canvas (inject_Z (Z.of_nat k))) (Vec3.mk 225 (-150) 0) true in
  let moving := fun k : nat =>
    Observation.mk (canvas (inject_Z (Z.of_nat k)))
      (Vec3.mk (inject_Z (Z.of_nat k)) (- inject_Z (Z.of_nat k)) 0) true in
  (settles 0.95 (fun k => State.wind (frames steady k initialState) - 0.5)
   /\ settles 0.9 (fun k => State.verticalInfluence (frames steady k initialState) - 0.75)
   /\ settles 0.9 (fun k => State.contraction (frames steady k initialState) - 1))
  /\ settles 0.9 (fun k => State.contraction (frames moving k initialState) - 1).
Proof.
  intros steady moving.
  destruct (smoothing_converges steady initialState 0.5 0.75 1) as (Hw & Hv & Hc).
  destruct (smoothing_converges moving initialState 0 0 1) as (_ & _ & Hm).
  split; [split; [ | split] | ].
  - apply Hw. intros i. vm_compute. reflexivity.
  - apply Hv. intros i. vm_compute. reflexivity.
  - apply Hc. intros i. vm_compute. reflexivity.
  - apply Hm. intros i. vm_compute. reflexivity.
Defined.

(* ------------------------------------------------------------------------- *)
(** ** The final scan *)

Lemma readPixel_range px idx v : readPixel px idx = Some v -> 0 <= v /\ v <= 255.
Proof.
  unfold readPixel. destruct (_ && _)%bool; [ | discriminate].
  intros H. apply fmap_Some in H as (b & _ & ->).
  pose proof (Byte.to_N_bounded b) as Hb.
  split.
  - change 0 with (inject_Z 0). rewrite <- Zle_Qle. lia.
  - change 255 with (inject_Z 255). rewrite <- Zle_Qle. lia.
Qed.

Lemma brightAt_range g x y br : brightAt g x y = Some br -> 0 <= br /\ br <= 255.
Proof.
  unfold brightAt. intros H.
  apply bind_Some in H as (r & Hr & H).
  apply bind_Some in H as (gr & Hg & H).
  apply bind_Some in H as (bl & Hb & H).
  injection H as <-.
  apply readPixel_range in Hr, Hg, Hb. lra.
Qed.

Lemma sumN_app pts new : sumN (pts ++ new) == sumN pts + sumN new.
Proof.
  induction pts as [ | q pts IH]; simpl.
  - ring.
  - rewrite IH. ring.
Qed.


Lemma multiple_0 step : multiple step 0.
Proof. exists 0%nat. simpl. ring. Qed.

Lemma multiple_next step v : multiple step v -> multiple step (v + step).
Proof.
  intros [i Hi]. exists (S i). rewrite of_nat_succ, Hi. ring.
Qed.

Lemma soilCell_spec g t step y x acc rnd k :
  onGrid step (Graphics.width g) x -> onGrid step (Graphics.height g) y ->
  exists new,
    (soilCell g t y x acc rnd k).1.1 = acc.1 ++ new
    /\ (soilCell g t y x acc rnd k).1.2 == acc.2 + sumN new
    /\ Forall (isSample g t step) new.
Proof.
  intros Hx Hy. unfold soilCell.
  destruct (brightAt g x y) as [br | ] eqn:Hbr.
  - destruct (Qltb t br) eqn:Hlt.
    + rewrite bind_run, ret_run. simpl.
      eexists [_]. split; [reflexivity | ]. split; [simpl; ring | ].
      constructor; [ | constructor].
      exists x, y, br, (rnd k). apply Qltb_lt in Hlt. auto 6.
    + exists []. rewrite ret_run. simpl. rewrite app_nil_r.
      split; [reflexivity | ]. split; [ring | constructor].
  - exists []. rewrite ret_run. simpl. rewrite app_nil_r.
    split; [reflexivity | ]. split; [ring | constructor].
Qed.

Lemma soilRow_spec fuel g t step y x acc rnd k :
  multiple step x -> onGrid step (Graphics.height g) y ->
  exists new,
    (soilRow fuel g t step y x acc rnd k).1.1 = acc.1 ++ new
    /\ (soilRow fuel g t step y x acc rnd k).1.2 == acc.2 + sumN new
    /\ Forall (isSample g t step) new.
Proof.
  intros Hx Hy. revert x acc k Hx. induction fuel as [ | fuel IH]; intros x acc k Hx.
  - exists []. simpl. rewrite app_nil_r.
    split; [reflexivity | ]. split; [ring | constructor].
  - simpl. destruct (Qltb x (inject_Z (Graphics.width g))) eqn:Hlt.
    + rewrite bind_run. apply Qltb_lt in Hlt.
      destruct (soilCell_spec g t step y x acc rnd k (conj Hx Hlt) Hy)
        as (n1 & E1 & S1 & F1).
      destruct (IH (x + step) (soilCell g t y x acc rnd k).1
                   (soilCell g t y x acc rnd k).2 (multiple_next _ _ Hx))
        as (n2 & E2 & S2 & F2).
      exists (n1 ++ n2). rewrite E2, E1, S2, S1, sumN_app, app_assoc.
      split; [reflexivity | ]. split; [ring | ].
      apply Forall_app; auto.
    + exists []. rewrite ret_run. simpl. rewrite app_nil_r.
      split; [reflexivity | ]. split; [ring | constructor].
Qed.

Lemma soilRows_spec fuel rowFuel g t step y acc rnd k :
  multiple step y ->
  exists new,
    (soilRows fuel rowFuel g t step y acc rnd k).1.1 = acc.1 ++ new
    /\ (soilRows fuel rowFuel g t step y acc rnd k).1.2 == acc.2 + sumN new
    /\ Forall (isSample g t step) new.
Proof.
  revert y acc k. induction fuel as [ | fuel IH]; intros y acc k Hy.
  - exists []. simpl. rewrite app_nil_r.
    split; [reflexivity | ]. split; [ring | constructor].
  - simpl. destruct (Qltb y (inject_Z (Graphics.height g))) eqn:Hlt.
    + rewrite bind_run. apply Qltb_lt in Hlt.
      destruct (soilRow_spec rowFuel g t step y 0 acc rnd k (multiple_0 step) (conj Hy Hlt))
        as (n1 & E1 & S1 & F1).
      destruct (IH (y + step) (soilRow rowFuel g t step y 0 acc rnd k).1
                   (soilRow rowFuel g t step y 0 acc rnd k).2 (multiple_next _ _ Hy))
        as (n2 & E2 & S2 & F2).
      exists (n1 ++ n2). rewrite E2, E1, S2, S1, sumN_app, app_assoc.
      split; [reflexivity | ]. split; [ring | ].
      apply Forall_app; auto.
    + exists []. rewrite ret_run. simpl. rewrite app_nil_r.
      split; [reflexivity | ]. split; [ring | constructor].
Qed.

(** The points of the final scan are samples of the grid, and
    [brightnessSum] is the sum of their normalized intensities. *)
Lemma soilScan_spec g settings rnd k :
  let scanned := (soilScan g settings rnd k).1 in
  Forall (isSample g (SoilSettings.threshold settings)
            (Qmax 1 (SoilSettings.spacing settings))) scanned.1
  /\ scanned.2 == sumN scanned.1.
Proof.
  unfold soilScan.
  destruct (soilRows_spec (Z.to_nat (Graphics.height g)) (Z.to_nat (Graphics.width g)) g
              (SoilSettings.threshold settings) (Qmax 1 (SoilSettings.spacing settings))
              0 ([], 0) rnd k (multiple_0 _)) as (new & E & S & F).
  simpl in *. rewrite E, S. split; [exact F | ring].
Qed.

(** Enough fuel: the loops leave by their guard. *)
Lemma fuel_covers (w : Z) : inject_Z w - 0 <= inject_Z (Z.of_nat (Z.to_nat w)).
Proof.
  assert (H : inject_Z w <= inject_Z (Z.of_nat (Z.to_nat w))) by (rewrite <- Zle_Qle; lia).
  lra.
Qed.

Lemma soilRow_fuel fuel extra g t step y x acc rnd k :
  1 <= step ->
  inject_Z (Graphics.width g) - x <= inject_Z (Z.of_nat fuel) ->
  soilRow (fuel + extra) g t step y x acc rnd k = soilRow fuel g t step y x acc rnd k.
Proof.
  intros Hstep. revert x acc k. induction fuel as [ | fuel IH]; intros x acc k Hx.
  - change (inject_Z (Z.of_nat 0)) with 0 in Hx.
    assert (Hge : Qltb x (inject_Z (Graphics.width g)) = false) by (apply Qltb_ge; lra).
    destruct extra as [ | extra]; simpl; [reflexivity | ]. rewrite Hge. reflexivity.
  - simpl. destruct (Qltb x (inject_Z (Graphics.width g))); [ | reflexivity].
    rewrite !bind_run. apply IH.
    rewrite of_nat_succ in Hx. lra.
Qed.

Lemma soilRows_fuel fuel extra rowFuel rowExtra g t step y acc rnd k :
  1 <= step ->
  inject_Z (Graphics.width g) - 0 <= inject_Z (Z.of_nat rowFuel) ->
  inject_Z (Graphics.height g) - y <= inject_Z (Z.of_nat fuel) ->
  soilRows (fuel + extra) (rowFuel + rowExtra) g t step y acc rnd k
  = soilRows fuel rowFuel g t step y acc rnd k.
Proof.
  intros Hstep Hw. revert y acc k. induction fuel as [ | fuel IH]; intros y acc k Hy.
  - change (inject_Z (Z.of_nat 0)) with 0 in Hy.
    assert (Hge : Qltb y (inject_Z (Graphics.height g)) = false) by (apply Qltb_ge; lra).
    destruct extra as [ | extra]; simpl; [reflexivity | ]. rewrite Hge. reflexivity.
  - simpl. destruct (Qltb y (inject_Z (Graphics.height g))); [ | reflexivity].
    rewrite !bind_run. rewrite (soilRow_fuel rowFuel rowExtra) by assumption.
    apply IH. rewrite of_nat_succ in Hy. lra.
Qed.

(** The final scan does not depend on the fuel it is given beyond the size
    of the graphics: both loops end because their guards fail. *)
Lemma soilScan_fuel g settings extra rowExtra rnd k :
  soilRows (Z.to_nat (Graphics.height g) + extra) (Z.to_nat (Graphics.width g) + rowExtra)
    g (SoilSettings.threshold settings) (Qmax 1 (SoilSettings.spacing settings)) 0 ([], 0)
    rnd k
  = soilScan g settings rnd k.
Proof.
  unfold soilScan. apply soilRows_fuel.
  - apply Q.le_max_l.
  - apply fuel_covers.
  - apply fuel_covers.
Qed.

(* ------------------------------------------------------------------------- *)
(** ** The preview scan *)

Lemma previewCell_spec g t step maxSize y x dots :
  onGrid step (Graphics.width g) x -> onGrid step (Graphics.height g) y ->
  exists new,
    previewCell g t maxSize y x dots = dots ++ new
    /\ Forall (isPreviewSample g t step maxSize) new.
Proof.
  intros Hx Hy. unfold previewCell.
  destruct (brightAt g x y) as [br | ] eqn:Hbr.
  - destruct (Qltb t br) eqn:Hlt.
    + destruct (Qle_bool _ 0.3) eqn:Hr.
      * exists []. rewrite app_nil_r. split; [reflexivity | constructor].
      * eexists [_]. split; [reflexivity | ].
        constructor; [ | constructor].
        exists x, y, br. apply Qltb_lt in Hlt.
        split; [exact Hx | ]. split; [exact Hy | ].
        split; [exact Hbr | ]. split; [exact Hlt | ]. split; [ | reflexivity].
        simpl. apply Qnot_le_lt. intros Hle. apply Qle_bool_iff in Hle.
        rewrite Hle in Hr. discriminate.
    + exists []. rewrite app_nil_r. split; [reflexivity | constructor].
  - exists []. rewrite app_nil_r. split; [reflexivity | constructor].
Qed.

Lemma previewRow_spec fuel g t maxSize step y x dots :
  multiple step x -> onGrid step (Graphics.height g) y ->
  exists new,
    previewRow fuel g t maxSize step y x dots = dots ++ new
    /\ Forall (isPreviewSample g t step maxSize) new.
Proof.
  intros Hx Hy. revert x dots Hx. induction fuel as [ | fuel IH]; intros x dots Hx.
  - exists []. simpl. rewrite app_nil_r. split; [reflexivity | constructor].
  - simpl. destruct (Qltb x (inject_Z (Graphics.width g))) eqn:Hlt.
    + apply Qltb_lt in Hlt.
      destruct (previewCell_spec g t step maxSize y x dots (conj Hx Hlt) Hy)
        as (n1 & E1 & F1).
      destruct (IH (x + step) (previewCell g t maxSize y x dots) (multiple_next _ _ Hx))
        as (n2 & E2 & F2).
      exists (n1 ++ n2). rewrite E2, E1, app_assoc.
      split; [reflexivity | apply Forall_app; auto].
    + exists []. rewrite app_nil_r. split; [reflexivity | constructor].
Qed.

Lemma previewRows_spec fuel rowFuel g t maxSize step y dots :
  multiple step y ->
  exists new,
    previewRows fuel rowFuel g t maxSize step y dots = dots ++ new
    /\ Forall (isPreviewSample g t step maxSize) new.
Proof.
  revert y dots. induction fuel as [ | fuel IH]; intros y dots Hy.
  - exists []. simpl. rewrite app_nil_r. split; [reflexivity | constructor].
  - simpl. destruct (Qltb y (inject_Z (Graphics.height g))) eqn:Hlt.
    + apply Qltb_lt in Hlt.
      destruct (previewRow_spec rowFuel g t maxSize step y 0 dots (multiple_0 step)
                  (conj Hy Hlt)) as (n1 & E1 & F1).
      destruct (IH (y + step) (previewRow rowFuel g t maxSize step y 0 dots)
                  (multiple_next _ _ Hy)) as (n2 & E2 & F2).
      exists (n1 ++ n2). rewrite E2, E1, app_assoc.
      split; [reflexivity | apply Forall_app; auto].
    + exists []. rewrite app_nil_r. split; [reflexivity | constructor].
Qed.

Lemma previewScan_spec g settings :
  Forall (isPreviewSample g (SoilSettings.threshold settings)
            (Qmax 1 (SoilSettings.spacing settings)) (SoilSettings.dotSize settings))
         (previewScan g settings).
Proof.
  unfold previewScan.
  destruct (previewRows_spec (Z.to_nat (Graphics.height g)) (Z.to_nat (Graphics.width g)) g
              (SoilSettings.threshold settings) (SoilSettings.dotSize settings)
              (Qmax 1 (SoilSettings.spacing settings)) 0 [] (multiple_0 _)) as (new & E & F).
  rewrite E. exact F.
Qed.

Lemma previewRow_fuel fuel extra g t maxSize step y x dots :
  1 <= step ->
  inject_Z (Graphics.width g) - x <= inject_Z (Z.of_nat fuel) ->
  previewRow (fuel + extra) g t maxSize step y x dots
  = previewRow fuel g t maxSize step y x dots.
Proof.
  intros Hstep. revert x dots. induction fuel as [ | fuel IH]; intros x dots Hx.
  - change (inject_Z (Z.of_nat 0)) with 0 in Hx.
    assert (Hge : Qltb x (inject_Z (Graphics.width g)) = false) by (apply Qltb_ge; lra).
    destruct extra as [ | extra]; simpl; [reflexivity | ]. rewrite Hge. reflexivity.
  - simpl. destruct (Qltb x (inject_Z (Graphics.width g))); [ | reflexivity].
    apply IH. rewrite of_nat_succ in Hx. lra.
Qed.

Lemma previewRows_fuel fuel extra rowFuel rowExtra g t maxSize step y dots :
  1 <= step ->
  inject_Z (Graphics.width g) - 0 <= inject_Z (Z.of_nat rowFuel) ->
  inject_Z (Graphics.height g) - y <= inject_Z (Z.of_nat fuel) ->
  previewRows (fuel + extra) (rowFuel + rowExtra) g t maxSize step y dots
  = previewRows fuel rowFuel g t maxSize step y dots.
Proof.
  intros Hstep Hw. revert y dots. induction fuel as [ | fuel IH]; intros y dots Hy.
  - change (inject_Z (Z.of_nat 0)) with 0 in Hy.
    assert (Hge : Qltb y (inject_Z (Graphics.height g)) = false) by (apply Qltb_ge; lra).
    destruct extra as [ | extra]; simpl; [reflexivity | ]. rewrite Hge. reflexivity.
  - simpl. destruct (Qltb y (inject_Z (Graphics.height g))); [ | reflexivity].
    rewrite (previewRow_fuel rowFuel rowExtra) by assumption.
    apply IH. rewrite of_nat_succ in Hy. lra.
Qed.

Lemma previewScan_fuel g settings extra rowExtra :
  previewRows (Z.to_nat (Graphics.height g) + extra) (Z.to_nat (Graphics.width g) + rowExtra)
    g (SoilSettings.threshold settings) (SoilSettings.dotSize settings)
    (Qmax 1 (SoilSettings.spacing settings)) 0 []
  = previewScan g settings.
Proof.
  unfold previewScan. apply previewRows_fuel.
  - apply Q.le_max_l.
  - apply fuel_covers.
  - apply fuel_covers.
Qed.

(* ------------------------------------------------------------------------- *)
(** ** Shuffle, cap and fallback *)

Lemma swap_Permutation {A} (a : list A) i j : swap a i j ≡ₚ a.
Proof.
  unfold swap. destruct (a !! i) as [ai | ] eqn:Hi; [ | reflexivity].
  destruct (0 <=? j)%Z; [ | reflexivity].
  destruct (a !! Z.to_nat j) as [aj | ] eqn:Hj; [ | reflexivity].
  apply Permutation_insert_swap; assumption.
Qed.

Lemma shuffle_Permutation {A} i (a : list A) rnd k : (shuffle i a rnd k).1 ≡ₚ a.
Proof.
  revert a k. induction i as [ | i IH]; intros a k.
  - reflexivity.
  - cbn [shuffle]. rewrite bind_run. rewrite IH. apply swap_Permutation.
Qed.

(** The index drawn for position [i] lies in [[0, i]]. *)
Lemma draw_index_range (u : Q) (i : nat) :
  0 <= u -> u < 1 ->
  (0 <= Qfloor (u * (inject_Z (Z.of_nat i) + 1)) <= Z.of_nat i)%Z.
Proof.
  intros H0 H1. pose proof (of_nat_nonneg i) as Hi.
  set (I := inject_Z (Z.of_nat i)) in *.
  assert (Hlo : 0 <= u * (I + 1)) by (apply Qmult_le_0_compat; lra).
  assert (Hhi : u * (I + 1) < I + 1).
  { assert (E : I + 1 == 1 * (I + 1)) by ring. rewrite E at 2.
    apply Qmult_lt_compat_r; lra. }
  split.
  - change 0%Z with (Qfloor 0). apply Qfloor_resp_le. exact Hlo.
  - pose proof (Qfloor_le (u * (I + 1))) as Hf.
    assert (Hlt : inject_Z (Qfloor (u * (I + 1))) < inject_Z (Z.of_nat i + 1)).
    { rewrite inject_Z_plus. fold I. change (inject_Z 1) with 1. lra. }
    rewrite <- Zlt_Qlt in Hlt. lia.
Qed.

(** With draws in [[0, 1)] and [i] inside the array, the swap of the shuffle
    reads two elements of the array and exchanges them. *)
Lemma swap_in_range {A} (a : list A) (i : nat) (u : Q) :
  0 <= u -> u < 1 -> (i < length a)%nat ->
  exists ai aj,
    a !! i = Some ai
    /\ a !! Z.to_nat (Qfloor (u * (inject_Z (Z.of_nat i) + 1))) = Some aj
    /\ swap a i (Qfloor (u * (inject_Z (Z.of_nat i) + 1)))
       = <[Z.to_nat (Qfloor (u * (inject_Z (Z.of_nat i) + 1))) := ai]> (<[i := aj]> a).
Proof.
  intros H0 H1 Hi. pose proof (draw_index_range u i H0 H1) as [Hlo Hhi].
  set (j := Qfloor (u * (inject_Z (Z.of_nat i) + 1))) in *.
  destruct (lookup_lt_is_Some_2 a i Hi) as [ai Hai].
  destruct (lookup_lt_is_Some_2 a (Z.to_nat j) ltac:(lia)) as [aj Haj].
  exists ai, aj. split; [exact Hai | ]. split; [exact Haj | ].
  unfold swap. rewrite Hai.
  destruct (0 <=? j)%Z eqn:E; [ | apply Z.leb_gt in E; lia].
  rewrite Haj. reflexivity.
Qed.

(** The shuffle as a function of its draws. *)
Lemma shuffle_step {A} i (a : list A) rnd k :
  shuffle (S i) a rnd k = shuffle i (swap a (S i) (drawnIndex rnd k (S i))) rnd (S k).
Proof. cbn [shuffle]. rewrite bind_run. reflexivity. Qed.

Lemma swap_length {A} (a : list A) i j : length (swap a i j) = length a.
Proof. apply Permutation_length, swap_Permutation. Qed.

(** After the swap for position [i], that position holds what was at the
    drawn index. *)
Lemma swap_lookup_top {A} (a : list A) (i : nat) (j : Z) :
  (i < length a)%nat -> (0 <= j <= Z.of_nat i)%Z ->
  swap a i j !! i = a !! Z.to_nat j.
Proof.
  intros Hi Hj.
  destruct (lookup_lt_is_Some_2 a i Hi) as [ai Hai].
  destruct (lookup_lt_is_Some_2 a (Z.to_nat j) ltac:(lia)) as [aj Haj].
  unfold swap. rewrite Hai.
  destruct (0 <=? j)%Z eqn:E; [ | apply Z.leb_gt in E; lia].
  rewrite Haj.
  destruct (decide (Z.to_nat j = i)) as [Heq | Hne].
  - rewrite Heq in *.
    rewrite list_lookup_insert_eq by (rewrite length_insert; exact Hi). congruence.
  - rewrite list_lookup_insert_ne by exact Hne.
    rewrite list_lookup_insert_eq by exact Hi. reflexivity.
Qed.

(** The swap for position [i] leaves the positions above [i] alone. *)
Lemma swap_lookup_above {A} (a : list A) (i : nat) (j : Z) (p : nat) :
  (0 <= j <= Z.of_nat i)%Z -> (i < p)%nat -> swap a i j !! p = a !! p.
Proof.
  intros Hj Hp. unfold swap.
  destruct (a !! i) as [ai | ]; [ | reflexivity].
  destruct (0 <=? j)%Z; [ | reflexivity].
  destruct (a !! Z.to_nat j) as [aj | ]; [ | reflexivity].
  rewrite !list_lookup_insert_ne by lia. reflexivity.
Qed.

Lemma shuffle_lookup_above {A} rnd i (a : list A) k p :
  unitRange rnd -> (i < p)%nat -> (shuffle i a rnd k).1 !! p = a !! p.
Proof.
  intros Hr. revert a k. induction i as [ | i IH]; intros a k Hp.
  - reflexivity.
  - rewrite shuffle_step, IH by lia.
    apply swap_lookup_above; [ | exact Hp].
    destruct (Hr k). apply draw_index_range; assumption.
Qed.

(** Two runs of the shuffle on an array without repetition that end in the
    same order drew the same index at every step: the [t]-th draw is the one
    for position [i - t]. *)
Lemma shuffle_injective {A} rnd1 rnd2 i (a : list A) k1 k2 :
  unitRange rnd1 -> unitRange rnd2 ->
  NoDup a -> (i < length a)%nat ->
  (shuffle i a rnd1 k1).1 = (shuffle i a rnd2 k2).1 ->
  forall t, (t < i)%nat ->
    drawnIndex rnd1 (k1 + t) (i - t) = drawnIndex rnd2 (k2 + t) (i - t).
Proof.
  intros Hr1 Hr2. revert a k1 k2.
  induction i as [ | i IH]; intros a k1 k2 Hnd Hi Heq t Ht; [lia | ].
  rewrite !shuffle_step in Heq.
  set (j1 := drawnIndex rnd1 k1 (S i)) in *.
  set (j2 := drawnIndex rnd2 k2 (S i)) in *.
  assert (Hj1 : (0 <= j1 <= Z.of_nat (S i))%Z).
  { destruct (Hr1 k1). apply draw_index_range; assumption. }
  assert (Hj2 : (0 <= j2 <= Z.of_nat (S i))%Z).
  { destruct (Hr2 k2). apply draw_index_range; assumption. }
  assert (Htop : swap a (S i) j1 !! S i = swap a (S i) j2 !! S i).
  { pose proof (shuffle_lookup_above rnd1 i (swap a (S i) j1) (S k1) (S i) Hr1
                  ltac:(lia)) as T1.
    pose proof (shuffle_lookup_above rnd2 i (swap a (S i) j2) (S k2) (S i) Hr2
                  ltac:(lia)) as T2.
    rewrite Heq in T1. congruence. }
  rewrite !swap_lookup_top in Htop by assumption.
  assert (Ej : j1 = j2).
  { destruct (lookup_lt_is_Some_2 a (Z.to_nat j1) ltac:(lia)) as [x Hx].
    rewrite Hx in Htop. symmetry in Htop.
    pose proof (NoDup_lookup a _ _ x Hnd Hx Htop). lia. }
  destruct t as [ | t].
  - rewrite !Nat.add_0_r, Nat.sub_0_r. exact Ej.
  - replace (k1 + S t)%nat with (S k1 + t)%nat by lia.
    replace (k2 + S t)%nat with (S k2 + t)%nat by lia.
    replace (S i - S t)%nat with (i - t)%nat by lia.
    apply (IH (swap a (S i) j1)).
    + rewrite swap_Permutation. exact Hnd.
    + rewrite swap_length. lia.
    + rewrite <- Ej in Heq. exact Heq.
    + lia.
Qed.

Lemma slice0_prefix {A} (a : list A) (e : Q) : exists m, slice0 a e = take m a.
Proof. unfold slice0. destruct (_ <? 0)%Z; eexists; reflexivity. Qed.

Lemma toInteger_nonneg (e : Q) : 0 <= e -> toInteger e = Qfloor e /\ (0 <= Qfloor e)%Z.
Proof.
  intros He. unfold toInteger.
  assert (H : Qltb e 0 = false) by (apply Qltb_ge; exact He).
  rewrite H. split; [reflexivity | ].
  change 0%Z with (Qfloor 0). apply Qfloor_resp_le. exact He.
Qed.

Lemma slice0_length {A} (a : list A) (e : Q) :
  0 <= e -> len (slice0 a e) <= e.
Proof.
  intros He. destruct (toInteger_nonneg e He) as [E Hf].
  unfold slice0. rewrite E.
  destruct (Qfloor e <? 0)%Z eqn:Hneg; [apply Z.ltb_lt in Hneg; lia | ].
  unfold len. rewrite length_take.
  eapply Qle_trans; [ | apply Qfloor_le].
  rewrite <- Zle_Qle. lia.
Qed.

Lemma capPoints_run maxPoints pts rnd k :
  capPoints maxPoints pts rnd k
  = if Qltb maxPoints (len pts)
    then (slice0 (shuffle (length pts - 1) pts rnd k).1 maxPoints,
          (shuffle (length pts - 1) pts rnd k).2)
    else (pts, k).
Proof.
  unfold capPoints. destruct (Qltb maxPoints (len pts)); [ | reflexivity].
  rewrite bind_run, ret_run. reflexivity.
Qed.

Lemma capPoints_within maxPoints pts rnd k :
  len pts <= maxPoints -> capPoints maxPoints pts rnd k = (pts, k).
Proof.
  intros H. rewrite capPoints_run.
  apply Qltb_ge in H. rewrite H. reflexivity.
Qed.

Lemma capPoints_length maxPoints pts rnd k :
  0 <= maxPoints -> len (capPoints maxPoints pts rnd k).1 <= maxPoints.
Proof.
  intros H0. rewrite capPoints_run.
  destruct (Qltb maxPoints (len pts)) eqn:E; simpl.
  - apply slice0_length. exact H0.
  - apply Qltb_ge in E. exact E.
Qed.

Lemma capPoints_prefix maxPoints pts rnd k :
  exists shuffled m,
    shuffled ≡ₚ pts /\ (capPoints maxPoints pts rnd k).1 = take m shuffled.
Proof.
  rewrite capPoints_run.
  destruct (Qltb maxPoints (len pts)); simpl.
  - destruct (slice0_prefix (shuffle (length pts - 1) pts rnd k).1 maxPoints) as [m Hm].
    exists (shuffle (length pts - 1) pts rnd k).1, m.
    split; [apply shuffle_Permutation | exact Hm].
  - exists pts, (length pts). split; [reflexivity | ]. rewrite firstn_all. reflexivity.
Qed.

Lemma capPoints_Forall (P : SoilPoint.t -> Prop) maxPoints pts rnd k :
  Forall P pts -> Forall P (capPoints maxPoints pts rnd k).1.
Proof.
  intros HP. destruct (capPoints_prefix maxPoints pts rnd k) as (sh & m & Hp & ->).
  apply Forall_take. rewrite Hp. exact HP.
Qed.

Lemma synthetic_shape count imgW imgH pts rnd k :
  exists new,
    (synthetic count imgW imgH pts rnd k).1 = pts ++ new
    /\ length new = count
    /\ Forall (fun p => SoilPoint.n p = 1 /\ SoilPoint.b p = 255 /\ SoilPoint.z p = 0) new.
Proof.
  revert pts k. induction count as [ | count IH]; intros pts k.
  - exists []. simpl. rewrite app_nil_r. repeat split. constructor.
  - cbn [synthetic]. rewrite !bind_run.
    destruct (IH (pts ++ [SoilPoint.mk (((random rnd k).1 - 0.5) * imgW)
                           (((random rnd (random rnd k).2).1 - 0.5) * imgH) 0 255 1])
                 (random rnd (random rnd k).2).2) as (new & E & L & F).
    eexists (_ :: new). rewrite E, <- app_assoc. simpl.
    split; [reflexivity | ]. split; [lia | ].
    constructor; [repeat split | exact F].
Qed.

Lemma centered_draw (u size : Q) :
  0 <= u -> u < 1 -> 0 <= size ->
  - (size / 2) <= (u - 0.5) * size /\ (u - 0.5) * size <= size / 2.
Proof.
  intros H0 H1 Hs.
  assert (A1 : 0 <= u * size) by (apply Qmult_le_0_compat; lra).
  assert (A2 : 0 <= (1 - u) * size) by (apply Qmult_le_0_compat; lra).
  assert (E1 : (u - 0.5) * size == u * size - size / 2) by field.
  assert (E2 : (1 - u) * size == size - u * size) by ring.
  rewrite E1. rewrite E2 in A2.
  set (P := u * size) in *. split; lra.
Qed.

Lemma synthetic_spec count imgW imgH pts rnd k :
  unitRange rnd -> 0 <= imgW -> 0 <= imgH ->
  exists new,
    (synthetic count imgW imgH pts rnd k).1 = pts ++ new
    /\ length new = count
    /\ Forall (isSynthetic imgW imgH) new.
Proof.
  intros Hr HW HH. revert pts k. induction count as [ | count IH]; intros pts k.
  - exists []. simpl. rewrite app_nil_r. repeat split. constructor.
  - cbn [synthetic]. rewrite !bind_run.
    destruct (IH (pts ++ [SoilPoint.mk (((random rnd k).1 - 0.5) * imgW)
                           (((random rnd (random rnd k).2).1 - 0.5) * imgH) 0 255 1])
                 (random rnd (random rnd k).2).2) as (new & E & L & F).
    eexists (_ :: new). rewrite E, <- app_assoc. simpl.
    split; [reflexivity | ]. split; [lia | ].
    constructor; [ | exact F].
    destruct (Hr k) as [Hu0 Hu1]. destruct (Hr (S k)) as [Hv0 Hv1].
    unfold isSynthetic. simpl.
    repeat split; try reflexivity; apply centered_draw; assumption.
Qed.

Lemma darkFallback_run imgW imgH pts rnd k :
  darkFallback imgW imgH pts rnd k
  = if Qltb (len pts) 50 then synthetic 120 imgW imgH pts rnd k else (pts, k).
Proof. unfold darkFallback. destruct (Qltb (len pts) 50); reflexivity. Qed.

Lemma len_lt_50 {A} (a : list A) : len a < 50 <-> (length a < 50)%nat.
Proof. unfold len. change 50 with (inject_Z 50). rewrite <- Zlt_Qlt. lia. Qed.

Lemma darkFallback_small imgW imgH pts rnd k :
  (length pts < 50)%nat ->
  darkFallback imgW imgH pts rnd k = synthetic 120 imgW imgH pts rnd k.
Proof.
  intros H. rewrite darkFallback_run.
  apply len_lt_50, Qltb_lt in H. rewrite H. reflexivity.
Qed.

Lemma darkFallback_enough imgW imgH pts rnd k :
  (50 <= length pts)%nat -> darkFallback imgW imgH pts rnd k = (pts, k).
Proof.
  intros H. rewrite darkFallback_run.
  assert (E : Qltb (len pts) 50 = false).
  { apply Qltb_ge. unfold len. change 50 with (inject_Z 50). rewrite <- Zle_Qle. lia. }
  rewrite E. reflexivity.
Qed.

(* ------------------------------------------------------------------------- *)
(** ** Images of one grey level *)

Lemma Qred_inject_Z (z : Z) : Qred (inject_Z z) = inject_Z z.
Proof. apply Qcanon.Qred_identity. simpl. apply Z.gcd_1_r. Qed.

Lemma readPixel_integer px idx (z : Z) :
  idx == inject_Z z ->
  readPixel px idx
  = if (0 <=? z)%Z
    then (fun v => inject_Z (Z.of_N (Byte.to_N v))) <$> px !! Z.to_nat z
    else None.
Proof.
  intros H. unfold readPixel.
  rewrite (Qred_complete _ _ H), Qred_inject_Z. simpl. reflexivity.
Qed.

Lemma solid_lookup (count : nat) (v a : byte) (j : nat) (b : byte) :
  concat (replicate count [v; v; v; a]) !! j = Some b ->
  (j mod 4 <> 3)%nat -> b = v.
Proof.
  revert j. induction count as [ | count IH]; intros j Hj Hmod.
  - discriminate.
  - destruct j as [ | [ | [ | [ | j]]]]; simpl in Hj.
    + congruence.
    + congruence.
    + congruence.
    + exfalso. apply Hmod. reflexivity.
    + apply (IH j Hj). intros E. apply Hmod.
      assert (Hshift : (S (S (S (S j))) mod 4 = j mod 4)%nat).
      { replace (S (S (S (S j)))) with (j + 1 * 4)%nat by lia.
        apply Nat.Div0.mod_add. }
      rewrite Hshift. exact E.
Qed.

Lemma readPixel_solid count v a (z : Z) idx r :
  idx == inject_Z z -> (z mod 4 <> 3)%Z ->
  readPixel (concat (replicate count [v; v; v; a])) idx = Some r ->
  r = inject_Z (Z.of_N (Byte.to_N v)).
Proof.
  intros Hidx Hmod. rewrite (readPixel_integer _ _ z Hidx).
  destruct (0 <=? z)%Z eqn:Hz; [ | discriminate].
  apply Z.leb_le in Hz. intros H.
  apply fmap_Some in H as (b & Hb & ->).
  apply solid_lookup in Hb; [subst b; reflexivity | ].
  intros E. apply Hmod.
  rewrite <- (Z2Nat.id z Hz). change 4%Z with (Z.of_nat 4).
  rewrite <- Nat2Z.inj_mod, E. reflexivity.
Qed.

Lemma integral_multiple step v : integral step -> multiple step v -> integral v.
Proof.
  intros [s Hs] [i Hi]. exists (Z.of_nat i * s)%Z.
  rewrite Hi, Hs, inject_Z_mult. reflexivity.
Qed.

Lemma integral_step spacing : integral spacing -> integral (Qmax 1 spacing).
Proof.
  intros [z Hz]. destruct (Q.max_dec 1 spacing) as [E | E].
  - exists 1%Z. rewrite E. reflexivity.
  - exists z. rewrite E. exact Hz.
Qed.

(** At integer coordinates, a sample of a solid image is its grey level. *)
Lemma brightAt_solid w h v x y br :
  integral x -> integral y ->
  brightAt (solidImage w h v) x y = Some br ->
  br == inject_Z (Z.of_N (Byte.to_N v)).
Proof.
  intros [a Ha] [b Hb]. unfold brightAt, solidImage. simpl.
  set (px := concat (replicate (w * h) [v; v; v; xff])).
  set (idx := (x + y * inject_Z (Z.of_nat w)) * 4).
  set (z := (4 * (a + b * Z.of_nat w))%Z).
  assert (E0 : idx == inject_Z z).
  { unfold idx, z. rewrite Ha, Hb, !inject_Z_mult, inject_Z_plus, inject_Z_mult.
    change (inject_Z 4) with 4. ring. }
  assert (E1 : idx + 1 == inject_Z (z + 1)).
  { rewrite E0, inject_Z_plus. reflexivity. }
  assert (E2 : idx + 2 == inject_Z (z + 2)).
  { rewrite E0, inject_Z_plus. reflexivity. }
  assert (M0 : (z mod 4 <> 3)%Z).
  { unfold z. rewrite Z.mul_comm, Z.mod_mul by lia. lia. }
  assert (M1 : ((z + 1) mod 4 <> 3)%Z).
  { unfold z. rewrite Z.add_comm, Z.mul_comm, Z.mod_add by lia. discriminate. }
  assert (M2 : ((z + 2) mod 4 <> 3)%Z).
  { unfold z. rewrite Z.add_comm, Z.mul_comm, Z.mod_add by lia. discriminate. }
  intros H.
  apply bind_Some in H as (r & Hr & H).
  apply bind_Some in H as (gr & Hg & H).
  apply bind_Some in H as (bl & Hbl & H).
  injection H as <-.
  apply (readPixel_solid _ _ _ z) in Hr; [ | exact E0 | exact M0].
  apply (readPixel_solid _ _ _ (z + 1)%Z) in Hg; [ | exact E1 | exact M1].
  apply (readPixel_solid _ _ _ (z + 2)%Z) in Hbl; [ | exact E2 | exact M2].
  subst r gr bl. ring.
Qed.

(** A solid image is dark for every threshold from its grey level on, when
    the spacing is an integer. *)
Lemma solidImage_darkGrid w h v spacing bound :
  integral spacing ->
  inject_Z (Z.of_N (Byte.to_N v)) <= bound ->
  darkGrid (solidImage w h v) (Qmax 1 spacing) bound.
Proof.
  intros Hs Hv x y br [Hx _] [Hy _] Hbr.
  apply brightAt_solid in Hbr.
  - rewrite Hbr. exact Hv.
  - exact (integral_multiple _ _ (integral_step _ Hs) Hx).
  - exact (integral_multiple _ _ (integral_step _ Hs) Hy).
Qed.

(* ------------------------------------------------------------------------- *)
(** ** The soil of generateDigitalSoil *)

Lemma generateDigitalSoil_points species p5 state g rnd k :
  State.sourceG state = Some g ->
  let settings := State.settings state in
  let retained := cappedPoints g settings rnd k in
  let final := result (generateDigitalSoil species p5 state) rnd k in
  State.soilPoints final
  = (darkFallback (State.imgW state) (State.imgH state) retained.1 rnd retained.2).1
  /\ State.soilBehavior final
     = soilBehaviorOf settings (soilScan g settings rnd k).1.2 (State.soilPoints final).
Proof.
  intros Hg settings retained final.
  destruct (generateDigitalSoil_soil species p5 state g rnd k Hg) as [Ep Eb].
  subst final. rewrite Ep, Eb. unfold result. rewrite digitalSoil_run. simpl.
  subst retained. rewrite cappedPoints_run. split; reflexivity.
Qed.

Lemma dark_scan_empty g settings rnd k :
  darkGrid g (Qmax 1 (SoilSettings.spacing settings)) (SoilSettings.threshold settings) ->
  (soilScan g settings rnd k).1.1 = [] /\ (soilScan g settings rnd k).1.2 == 0.
Proof.
  intros Hdark. destruct (soilScan_spec g settings rnd k) as [F S].
  destruct ((soilScan g settings rnd k).1.1) as [ | p pts] eqn:E.
  - split; [reflexivity | ]. simpl in S. rewrite S. reflexivity.
  - exfalso. simpl in F. inversion F as [ | ? ? Hp _]; subst.
    destruct Hp as (x & y & br & u & Hx & Hy & Hbr & Hlt & _).
    pose proof (Hdark x y br Hx Hy Hbr). lra.
Qed.

Lemma capPoints_nil maxPoints rnd k : (capPoints maxPoints [] rnd k).1 = [].
Proof.
  destruct (capPoints_prefix maxPoints [] rnd k) as (sh & m & Hp & ->).
  apply Permutation_nil_r in Hp. subst sh. apply take_nil.
Qed.

Lemma dark_image_points species p5 state g rnd k :
  State.sourceG state = Some g ->
  darkGrid g (Qmax 1 (SoilSettings.spacing (State.settings state)))
    (SoilSettings.threshold (State.settings state)) ->
  exists k',
    State.soilPoints (result (generateDigitalSoil species p5 state) rnd k)
    = (synthetic 120 (State.imgW state) (State.imgH state) [] rnd k').1.
Proof.
  intros Hg Hdark.
  destruct (generateDigitalSoil_points species p5 state g rnd k Hg) as [Ep _].
  rewrite Ep, cappedPoints_run.
  destruct (dark_scan_empty g (State.settings state) rnd k Hdark) as [E _].
  rewrite E. rewrite darkFallback_small.
  - rewrite capPoints_nil. eexists. reflexivity.
  - rewrite capPoints_nil. simpl. lia.
Qed.

(** Every point of the scan takes one call of [Math.random]. *)
Lemma soilCell_counter g t y x acc rnd k :
  ((soilCell g t y x acc rnd k).2 + length acc.1
   = k + length (soilCell g t y x acc rnd k).1.1)%nat.
Proof.
  unfold soilCell. destruct (brightAt g x y) as [br | ]; [ | rewrite ret_run; reflexivity].
  destruct (Qltb t br); [ | rewrite ret_run; reflexivity].
  rewrite bind_run, ret_run. cbn [fst snd random]. rewrite length_app. cbn [length]. lia.
Qed.

Lemma soilRow_counter fuel g t step y x acc rnd k :
  ((soilRow fuel g t step y x acc rnd k).2 + length acc.1
   = k + length (soilRow fuel g t step y x acc rnd k).1.1)%nat.
Proof.
  revert x acc k. induction fuel as [ | fuel IH]; intros x acc k; cbn [soilRow].
  - rewrite ret_run. reflexivity.
  - destruct (Qltb x (inject_Z (Graphics.width g))); [ | rewrite ret_run; reflexivity].
    rewrite bind_run.
    pose proof (IH (x + step) (soilCell g t y x acc rnd k).1 (soilCell g t y x acc rnd k).2).
    pose proof (soilCell_counter g t y x acc rnd k). lia.
Qed.

Lemma soilRows_counter fuel rowFuel g t step y acc rnd k :
  ((soilRows fuel rowFuel g t step y acc rnd k).2 + length acc.1
   = k + length (soilRows fuel rowFuel g t step y acc rnd k).1.1)%nat.
Proof.
  revert y acc k. induction fuel as [ | fuel IH]; intros y acc k; cbn [soilRows].
  - rewrite ret_run. reflexivity.
  - destruct (Qltb y (inject_Z (Graphics.height g))); [ | rewrite ret_run; reflexivity].
    rewrite bind_run.
    pose proof (IH (y + step) (soilRow rowFuel g t step y 0 acc rnd k).1
                  (soilRow rowFuel g t step y 0 acc rnd k).2).
    pose proof (soilRow_counter rowFuel g t step y 0 acc rnd k). lia.
Qed.

Lemma soilScan_counter g settings rnd k :
  (soilScan g settings rnd k).2 = (k + length (soilScan g settings rnd k).1.1)%nat.
Proof.
  unfold soilScan.
  pose proof (soilRows_counter (Z.to_nat (Graphics.height g)) (Z.to_nat (Graphics.width g))
                g (SoilSettings.threshold settings) (Qmax 1 (SoilSettings.spacing settings))
                0 ([], 0) rnd k) as H.
  cbn [fst length] in H. rewrite Nat.add_0_r in H. exact H.
Qed.

(** The fallback loop: point [i] is placed by the calls [k + 2 i] and
    [k + 2 i + 1] of [Math.random]. *)
Lemma synthetic_exact count imgW imgH pts rnd k :
  synthetic count imgW imgH pts rnd k
  = (pts ++ map (syntheticAt imgW imgH rnd k) (seq 0 count), (k + 2 * count)%nat).
Proof.
  revert pts k. induction count as [ | count IH]; intros pts k.
  - cbn [synthetic seq map]. rewrite ret_run, app_nil_r. f_equal. lia.
  - cbn [synthetic]. rewrite !bind_run. cbn [random fst snd]. rewrite IH.
    rewrite <- app_assoc. cbn [app seq map]. f_equal.
    + f_equal. f_equal.
      * unfold syntheticAt.
        replace (k + 2 * 0)%nat with k by lia.
        replace (k + 1)%nat with (S k) by lia. reflexivity.
      * rewrite <- seq_shift, map_map. apply map_ext. intros i.
        unfold syntheticAt.
        replace (k + 2 * S i)%nat with (S (S k) + 2 * i)%nat by lia. reflexivity.
    + lia.
Qed.

Lemma capPoints_nil_run maxPoints rnd k : capPoints maxPoints [] rnd k = ([], k).
Proof.
  rewrite capPoints_run. destruct (Qltb maxPoints (len [])); [ | reflexivity].
  cbn [length Nat.sub shuffle]. rewrite ret_run. cbn [fst snd]. f_equal.
  destruct (slice0_prefix (@nil SoilPoint.t) maxPoints) as [m ->]. apply take_nil.
Qed.

Lemma dark_image_run species p5 state g rnd k :
  State.sourceG state = Some g ->
  darkGrid g (Qmax 1 (SoilSettings.spacing (State.settings state)))
    (SoilSettings.threshold (State.settings state)) ->
  State.soilPoints (result (generateDigitalSoil species p5 state) rnd k)
  = map (syntheticAt (State.imgW state) (State.imgH state) rnd k) (seq 0 120).
Proof.
  intros Hg Hdark.
  destruct (generateDigitalSoil_points species p5 state g rnd k Hg) as [Ep _].
  rewrite Ep, cappedPoints_run.
  destruct (dark_scan_empty g (State.settings state) rnd k Hdark) as [E _].
  pose proof (soilScan_counter g (State.settings state) rnd k) as Hk.
  rewrite E in Hk. cbn [length] in Hk. rewrite Nat.add_0_r in Hk.
  rewrite E, Hk, capPoints_nil_run. cbn [fst snd].
  rewrite darkFallback_small by (cbn [length]; lia).
  rewrite synthetic_exact. reflexivity.
Qed.

(** C3. When no sample of the grid is brighter than the threshold, as for an
    all-black image of any size, the final generation leaves exactly 120 soil
    points, every one with [n = 1], [b = 255], [z = 0] and a position inside
    the image, whose centre is the origin.  The positions are drawn: the scan
    and the cap use no call of [Math.random], and point [i] stands at
    [((u - 0.5) * imgW, (v - 0.5) * imgH)] for the two calls [u] and [v] of
    [Math.random] numbered [k + 2 i] and [k + 2 i + 1], so every coordinate
    has a call of its own. *)
Theorem dark_image_fallback species p5 state g rnd k :
  State.sourceG state = Some g ->
  unitRange rnd ->
  0 <= State.imgW state -> 0 <= State.imgH state ->
  darkGrid g (Qmax 1 (SoilSettings.spacing (State.settings state)))
    (SoilSettings.threshold (State.settings state)) ->
  let pts := State.soilPoints (result (generateDigitalSoil species p5 state) rnd k) in
  length pts = 120%nat
  /\ Forall (isSynthetic (State.imgW state) (State.imgH state)) pts
  /\ pts = map (syntheticAt (State.imgW state) (State.imgH state) rnd k) (seq 0 120)
  /\ (forall i p, pts !! i = Some p ->
        (i < 120)%nat
        /\ SoilPoint.x p = (rnd (k + 2 * i)%nat - 0.5) * State.imgW state
        /\ SoilPoint.y p = (rnd (k + 2 * i + 1)%nat - 0.5) * State.imgH state).
Proof.
  intros Hg Hr HW HH Hdark pts.
  pose proof (dark_image_run species p5 state g rnd k Hg Hdark) as E. fold pts in E.
  destruct (dark_image_points species p5 state g rnd k Hg Hdark) as [k' E'].
  fold pts in E'.
  destruct (synthetic_spec 120 (State.imgW state) (State.imgH state) [] rnd k' Hr HW HH)
    as (new & En & L & F).
  rewrite En in E'. cbn [app] in E'.
  split; [rewrite E'; exact L | ]. split; [rewrite E'; exact F | ].
  split; [exact E | ].
  intros i p Hp. rewrite E in Hp.
  apply list_lookup_fmap_Some in Hp as (j & -> & Hj).
  apply lookup_seq in Hj as [-> Hi]. cbn [Nat.add].
  split; [exact Hi | ]. split; reflexivity.
Qed.

Lemma dark_image_fallback_witness :
  let state := configured (solidImage 10 10 x00) defaultSettings in
  let pts := State.soilPoints (result (generateDigitalSoil torus None state) eighths 0) in
  unitRange eighths
  /\ darkGrid (solidImage 10 10 x00) (Qmax 1 4) 100
  /\ length pts = 120%nat
  /\ Forall (isSynthetic 10 10) pts
  /\ pts = map (syntheticAt 10 10 eighths 0) (seq 0 120)
  /\ (forall i p, pts !! i = Some p ->
        (i < 120)%nat
        /\ SoilPoint.x p = (eighths (0 + 2 * i)%nat - 0.5) * 10
        /\ SoilPoint.y p = (eighths (0 + 2 * i + 1)%nat - 0.5) * 10).
Proof.
  intros state pts.
  assert (Hdark : darkGrid (solidImage 10 10 x00) (Qmax 1 4) 100).
  { apply solidImage_darkGrid; [exists 4%Z; reflexivity | discriminate]. }
  split; [exact eighths_unitRange | ]. split; [exact Hdark | ].
  apply (dark_image_fallback torus None state (solidImage 10 10 x00) eighths 0%nat).
  - reflexivity.
  - exact eighths_unitRange.
  - discriminate.
  - discriminate.
  - exact Hdark.
Defined.

(* ------------------------------------------------------------------------- *)
(** ** avgBrightness *)

Lemma sumN_ones pts : Forall (fun p => SoilPoint.n p = 1) pts -> sumN pts == len pts.
Proof.
  induction 1 as [ | p pts Hp _ IH].
  - reflexivity.
  - simpl. rewrite Hp, IH. unfold len. simpl length.
    rewrite of_nat_succ. ring.
Qed.

(** What the code computes: the sum over the points of the scan, divided by
    the number of points left after the cap and the fallback. *)
Lemma avgBrightness_value species p5 state g rnd k :
  State.sourceG state = Some g ->
  let final := result (generateDigitalSoil species p5 state) rnd k in
  let scanned := (result (soilScan g (State.settings state)) rnd k).1 in
  (0 < length (State.soilPoints final))%nat ->
  SoilBehavior.avgBrightness (State.soilBehavior final)
  == sumN scanned / len (State.soilPoints final).
Proof.
  intros Hg final scanned Hpos.
  destruct (generateDigitalSoil_points species p5 state g rnd k Hg) as [_ Eb].
  subst final scanned. rewrite Eb. unfold soilBehaviorOf. simpl.
  set (pts := State.soilPoints _) in *.
  assert (H : Qltb 0 (len pts) = true).
  { apply Qltb_lt. unfold len. change 0 with (inject_Z 0). rewrite <- Zlt_Qlt. lia. }
  rewrite H.
  destruct (soilScan_spec g (State.settings state) rnd k) as [_ S].
  simpl in S. rewrite S. reflexivity.
Qed.

(** Where the code does compute the mean: neither the cap nor the fallback
    changes the scanned points. *)
Lemma avgBrightness_mean_untouched species p5 state g rnd k :
  State.sourceG state = Some g ->
  let final := result (generateDigitalSoil species p5 state) rnd k in
  let scanned := (result (soilScan g (State.settings state)) rnd k).1 in
  (50 <= length scanned)%nat ->
  len scanned <= SoilSettings.maxPoints (State.settings state) ->
  State.soilPoints final = scanned
  /\ SoilBehavior.avgBrightness (State.soilBehavior final) == meanN (State.soilPoints final).
Proof.
  intros Hg final scanned H50 Hcap.
  assert (E : State.soilPoints final = scanned).
  { destruct (generateDigitalSoil_points species p5 state g rnd k Hg) as [Ep _].
    subst final scanned. rewrite Ep, cappedPoints_run.
    rewrite capPoints_within by exact Hcap. simpl.
    rewrite darkFallback_enough by exact H50. reflexivity. }
  split; [exact E | ].
  pose proof (avgBrightness_value species p5 state g rnd k Hg) as Hv.
  cbv zeta in Hv. subst final scanned. rewrite Hv.
  - rewrite E. reflexivity.
  - rewrite E. lia.
Qed.

(** C1. On an image with no sample brighter than the threshold the stored
    [avgBrightness] is [0]: it is neither [0.5], the value for an empty point
    set, nor the mean of [n] over the 120 points of the final set, which is
    [1]. *)
Theorem avgBrightness_dark_image species p5 state g rnd k :
  State.sourceG state = Some g ->
  darkGrid g (Qmax 1 (SoilSettings.spacing (State.settings state)))
    (SoilSettings.threshold (State.settings state)) ->
  let final := result (generateDigitalSoil species p5 state) rnd k in
  (result (soilScan g (State.settings state)) rnd k).1 = []
  /\ length (State.soilPoints final) = 120%nat
  /\ meanN (State.soilPoints final) == 1
  /\ SoilBehavior.avgBrightness (State.soilBehavior final) == 0.
Proof.
  intros Hg Hdark final.
  destruct (dark_scan_empty g (State.settings state) rnd k Hdark) as [Escan Esum].
  destruct (dark_image_points species p5 state g rnd k Hg Hdark) as [k' E].
  destruct (synthetic_shape 120 (State.imgW state) (State.imgH state) [] rnd k')
    as (new & En & L & F).
  pose proof (avgBrightness_value species p5 state g rnd k Hg) as Hv.
  cbv zeta in Hv. subst final.
  set (final := result (generateDigitalSoil species p5 state) rnd k) in *.
  rewrite En in E. simpl in E.
  assert (Hlen : length (State.soilPoints final) = 120%nat) by (rewrite E; exact L).
  assert (Hones : Forall (fun p => SoilPoint.n p = 1) (State.soilPoints final)).
  { rewrite E. eapply Forall_impl; [exact F | ]. intros p (Hn & _). exact Hn. }
  assert (Hlen120 : len (State.soilPoints final) == 120).
  { unfold len. rewrite Hlen. reflexivity. }
  split; [exact Escan | ]. split; [exact Hlen | ]. split.
  - unfold meanN. rewrite (sumN_ones _ Hones), Hlen120. reflexivity.
  - rewrite Hv by lia.
    unfold result. rewrite Escan, Hlen120. reflexivity.
Qed.

(** When the cap drops points the sum still runs over all scanned points:
    100 points of [n = 20/31] capped to 60 give [100/93], above 1. *)
Lemma avgBrightness_capped_example :
  let state := configured (solidImage 40 40 xc8) (SoilSettings.mk 100 8 4 dot 60) in
  let final := result (generateDigitalSoil torus None state) eighths 0 in
  length (State.soilPoints final) = 60%nat
  /\ meanN (State.soilPoints final) == 20 # 31
  /\ SoilBehavior.avgBrightness (State.soilBehavior final) == 100 # 93.
Proof. vm_compute. repeat split. Qed.

Lemma avgBrightness_dark_image_witness :
  let black := solidImage 720 480 x00 in
  let state := configured black (SoilSettings.mk 0 8 4 dot 2000) in
  let final := result (generateDigitalSoil torus None state) eighths 0 in
  darkGrid black (Qmax 1 4) 0
  /\ (result (soilScan black (State.settings state)) eighths 0).1 = []
  /\ length (State.soilPoints final) = 120%nat
  /\ meanN (State.soilPoints final) == 1
  /\ SoilBehavior.avgBrightness (State.soilBehavior final) == 0.
Proof.
  intros black state final.
  assert (Hdark : darkGrid black (Qmax 1 4) 0).
  { apply solidImage_darkGrid; [exists 4%Z; reflexivity | discriminate]. }
  split; [exact Hdark | ].
  exact (avgBrightness_dark_image torus None state black eighths 0%nat eq_refl Hdark).
Defined.

(* ------------------------------------------------------------------------- *)
(** ** Cap and fallback *)

(** The fallback looks at the points left when the cap has been applied:
    fewer than 50, and 120 synthetic points are appended after them; 50 or
    more, and they are the final set. *)
Lemma fallback_cases species p5 state g rnd k :
  State.sourceG state = Some g ->
  let settings := State.settings state in
  let scanned := (result (soilScan g settings) rnd k).1 in
  let retained := result (cappedPoints g settings) rnd k in
  let final := State.soilPoints (result (generateDigitalSoil species p5 state) rnd k) in
  (len scanned <= SoilSettings.maxPoints settings -> retained = scanned)
  /\ Forall (isSample g (SoilSettings.threshold settings)
               (Qmax 1 (SoilSettings.spacing settings))) retained
  /\ ((length retained < 50)%nat ->
      exists synth,
        final = retained ++ synth
        /\ length synth = 120%nat
        /\ Forall (fun p => SoilPoint.n p = 1 /\ SoilPoint.b p = 255 /\ SoilPoint.z p = 0)
                  synth
        /\ length final = (length retained + 120)%nat)
  /\ ((50 <= length retained)%nat -> final = retained)
  /\ (50 <= length final)%nat.
Proof.
  intros Hg settings scanned retained final.
  destruct (generateDigitalSoil_points species p5 state g rnd k Hg) as [Ep _].
  destruct (soilScan_spec g settings rnd k) as [Fscan _].
  subst final retained scanned. unfold result in *. rewrite Ep.
  fold settings. rewrite cappedPoints_run. simpl in Fscan.
  set (scan := soilScan g settings rnd k) in *.
  set (capped := capPoints (SoilSettings.maxPoints settings) scan.1.1 rnd scan.2).
  assert (Hsmall : (length capped.1 < 50)%nat ->
            exists synth,
              (darkFallback (State.imgW state) (State.imgH state) capped.1 rnd capped.2).1
              = capped.1 ++ synth
              /\ length synth = 120%nat
              /\ Forall (fun p => SoilPoint.n p = 1 /\ SoilPoint.b p = 255
                                  /\ SoilPoint.z p = 0) synth).
  { intros Hlt. rewrite darkFallback_small by exact Hlt.
    apply synthetic_shape. }
  assert (Hbig : (50 <= length capped.1)%nat ->
            (darkFallback (State.imgW state) (State.imgH state) capped.1 rnd capped.2).1
            = capped.1).
  { intros Hge. rewrite darkFallback_enough by exact Hge. reflexivity. }
  split; [ | split; [ | split; [ | split]]].
  - intros Hcap. subst capped. rewrite capPoints_within by exact Hcap. reflexivity.
  - apply capPoints_Forall. exact Fscan.
  - intros Hlt. destruct (Hsmall Hlt) as (synth & E & L & F).
    exists synth. rewrite E, length_app, L. auto.
  - exact Hbig.
  - destruct (Nat.lt_ge_cases (length capped.1) 50) as [Hlt | Hge].
    + destruct (Hsmall Hlt) as (synth & E & L & _). rewrite E, length_app, L. lia.
    + rewrite (Hbig Hge). exact Hge.
Qed.





Lemma len_169 {A} (a b : list A) :
  (length a < 50)%nat -> length b = 120%nat -> len (a ++ b) <= 169.
Proof.
  intros Ha Hb. unfold len. rewrite length_app, Hb.
  change 169 with (inject_Z 169). rewrite <- Zle_Qle. lia.
Qed.

(** C4, with the bound the code keeps.  For a graphics to scan and
    [maxPoints >= 0], the cap leaves at most [maxPoints] points: when the scan
    found more, the cap is the Fisher-Yates shuffle of all scanned points
    followed by [slice(0, maxPoints)].  The fallback may then append 120
    points to fewer than 50, so the final set has at most
    [max(maxPoints, 169)] points, hence at most [maxPoints] from 169 on.  The
    preview keeps the first 4000 dots of the scan order. *)
Theorem point_caps species p5 state g rnd k :
  State.sourceG state = Some g ->
  0 <= SoilSettings.maxPoints (State.settings state) ->
  let settings := State.settings state in
  let maxPoints := SoilSettings.maxPoints settings in
  let scan := soilScan g settings rnd k in
  let shuffled := result (shuffle (length scan.1.1 - 1) scan.1.1) rnd scan.2 in
  let retained := result (cappedPoints g settings) rnd k in
  let final := State.soilPoints (result (generateDigitalSoil species p5 state) rnd k) in
  let dots := State.previewDots (recomputePreviewDots state) in
  len retained <= maxPoints
  /\ shuffled ≡ₚ scan.1.1
  /\ (maxPoints < len scan.1.1 -> retained = slice0 shuffled maxPoints)
  /\ (len scan.1.1 <= maxPoints -> retained = scan.1.1)
  /\ len final <= Qmax maxPoints 169
  /\ (169 <= maxPoints -> len final <= maxPoints)
  /\ (length dots <= 4000)%nat
  /\ (exists rest, previewScan g settings = dots ++ rest)
  /\ (Graphics.pixels g <> [] -> dots = take 4000 (previewScan g settings)).
Proof.
  intros Hg Hmax settings maxPoints scan shuffled retained final dots.
  destruct (fallback_cases species p5 state g rnd k Hg) as (_ & _ & Hsmall & Hbig & _).
  cbv zeta in Hsmall, Hbig. fold settings in Hsmall, Hbig.
  assert (Er : retained = (capPoints maxPoints scan.1.1 rnd scan.2).1).
  { subst retained. unfold result. rewrite cappedPoints_run. reflexivity. }
  fold retained final in Hsmall, Hbig.
  assert (Hcap : len retained <= maxPoints).
  { rewrite Er. apply capPoints_length. exact Hmax. }
  assert (Hfinal : len final <= Qmax maxPoints 169).
  { destruct (Nat.lt_ge_cases (length retained) 50) as [Hlt | Hge].
    - destruct (Hsmall Hlt) as (synth & E & L & _). rewrite E.
      eapply Qle_trans; [apply len_169; assumption | apply Q.le_max_r].
    - rewrite (Hbig Hge). eapply Qle_trans; [exact Hcap | apply Q.le_max_l]. }
  split; [exact Hcap | ]. split; [apply shuffle_Permutation | ].
  split; [ | split; [ | split; [exact Hfinal | split; [ | ]]]].
  - intros Hover. rewrite Er, capPoints_run.
    apply Qltb_lt in Hover. rewrite Hover. reflexivity.
  - intros Hunder. rewrite Er, capPoints_within by exact Hunder. reflexivity.
  - intros H169. rewrite (Q.max_l maxPoints 169 H169) in Hfinal. exact Hfinal.
  - subst dots. unfold recomputePreviewDots. rewrite Hg. fold settings.
    destruct (length (Graphics.pixels g) =? 0)%nat eqn:Hpx; simpl.
    + split; [lia | ]. split; [exists (previewScan g settings); reflexivity | ].
      intros Hne. apply Nat.eqb_eq in Hpx.
      destruct (Graphics.pixels g); [congruence | discriminate].
    + destruct (Qltb 4000 (len (previewScan g settings))) eqn:Hlong.
      * split; [rewrite length_take; lia | ].
        split; [exists (drop 4000 (previewScan g settings)); symmetry; apply take_drop | ].
        reflexivity.
      * apply Qltb_ge in Hlong. unfold len in Hlong.
        change 4000 with (inject_Z 4000) in Hlong. rewrite <- Zle_Qle in Hlong.
        split; [lia | ].
        split; [exists []; symmetry; apply app_nil_r | ].
        intros _. symmetry. apply take_ge. lia.
Qed.

Lemma point_caps_counterexample :
  let state := configured (solidImage 8 8 x00) (SoilSettings.mk 100 8 4 dot 100) in
  let final := State.soilPoints (result (generateDigitalSoil torus None state) eighths 0) in
  ~ len final <= SoilSettings.maxPoints (State.settings state).
Proof.
  vm_compute. intros H. apply H. reflexivity.
Qed.

Lemma point_caps_witness :
  let g := solidImage 40 40 xc8 in
  let state := configured g (SoilSettings.mk 100 8 4 dot 60) in
  let settings := State.settings state in
  let maxPoints := SoilSettings.maxPoints settings in
  let scan := soilScan g settings eighths 0%nat in
  let shuffled := result (shuffle (length scan.1.1 - 1) scan.1.1) eighths scan.2 in
  let retained := result (cappedPoints g settings) eighths 0 in
  let final := State.soilPoints (result (generateDigitalSoil torus None state) eighths 0) in
  let dots := State.previewDots (recomputePreviewDots state) in
  (length scan.1.1 = 100%nat /\ length retained = 60%nat
   /\ retained !! 0%nat <> scan.1.1 !! 0%nat)
  /\ len retained <= maxPoints
  /\ shuffled ≡ₚ scan.1.1
  /\ (maxPoints < len scan.1.1 -> retained = slice0 shuffled maxPoints)
  /\ (len scan.1.1 <= maxPoints -> retained = scan.1.1)
  /\ len final <= Qmax maxPoints 169
  /\ (169 <= maxPoints -> len final <= maxPoints)
  /\ (length dots <= 4000)%nat
  /\ (exists rest, previewScan g settings = dots ++ rest)
  /\ (Graphics.pixels g <> [] -> dots = take 4000 (previewScan g settings)).
Proof.
  intros g state settings maxPoints scan shuffled retained final dots.
  split.
  - split; [vm_compute; reflexivity | ]. split; [vm_compute; reflexivity | ].
    vm_compute. discriminate.
  - apply (point_caps torus None state g eighths 0%nat); [reflexivity | discriminate].
Defined.

(* ------------------------------------------------------------------------- *)
(** ** Normalized intensity *)

(** For a sample brighter than the threshold the divisor is
    [255 - threshold], which is positive. *)
Lemma divisor_of_sample (br t : Q) :
  t < br -> br <= 255 -> 0 < 255 - t /\ orElse (255 - t) 1 = 255 - t.
Proof.
  intros Hlt Hbr. split; [lra | ].
  unfold orElse. destruct (Qeq_bool (255 - t) 0) eqn:E; [ | reflexivity].
  apply Qeq_bool_iff in E. lra.
Qed.

Lemma normalized_range (br t : Q) :
  t < br -> br <= 255 ->
  0 < (br - t) / orElse (255 - t) 1 /\ (br - t) / orElse (255 - t) 1 <= 1.
Proof.
  intros Hlt Hbr. destruct (divisor_of_sample br t Hlt Hbr) as [Hpos ->].
  split.
  - apply Qlt_shift_div_l; [exact Hpos | lra].
  - apply Qle_shift_div_r; [exact Hpos | lra].
Qed.

Lemma normalized_increasing (br br' t t' : Q) :
  t' == t -> t < br -> br < br' -> br' <= 255 ->
  (br - t) / orElse (255 - t) 1 < (br' - t') / orElse (255 - t') 1.
Proof.
  intros Ht Hlt Hbr Hmax.
  destruct (divisor_of_sample br t Hlt ltac:(lra)) as [Hpos ->].
  destruct (divisor_of_sample br' t' ltac:(lra) Hmax) as [_ ->].
  rewrite Ht. unfold Qdiv.
  apply Qmult_lt_compat_r; [apply Qinv_lt_0_compat; exact Hpos | lra].
Qed.

(** For an integer threshold in [[0, 255]] the divisor of the code is the
    [max(1, 255 - threshold)] of the specification. *)
Lemma divisor_integral (t : Q) :
  integral t -> t <= 255 -> orElse (255 - t) 1 == Qmax 1 (255 - t).
Proof.
  intros [z Hz] Ht. unfold orElse.
  destruct (Qeq_bool (255 - t) 0) eqn:E.
  - apply Qeq_bool_iff in E. rewrite Q.max_l by lra. reflexivity.
  - apply Qeq_bool_neq in E. rewrite Q.max_r; [reflexivity | ].
    assert (Hz' : inject_Z z < 255) by lra.
    change 255 with (inject_Z 255) in Hz'. rewrite <- Zlt_Qlt in Hz'.
    assert (Hle : inject_Z z <= inject_Z 254) by (rewrite <- Zle_Qle; lia).
    change (inject_Z 254) with 254 in Hle. lra.
Qed.

(** C5, with the divisor of the code.  With a threshold in [[0, 255]], every
    point of the final scan carries the luminance [b] of a sample of the
    grid, [b] is above the threshold, and [n] is [(b - threshold) / d] with
    [d = 255 - threshold], or [1] should that be [0]; for an integer
    threshold this is the [max(1, 255 - threshold)] of the specification.
    [n] lies in [[0, 1]], and of two scanned points, of the same or of two
    images at the same threshold, the one with the larger luminance has the
    larger [n].  The dots of the preview have the size [n * dotSize] of such
    a sample. *)
Theorem scan_normalization g settings rnd k g' settings' rnd' k' :
  0 <= SoilSettings.threshold settings <= 255 ->
  SoilSettings.threshold settings' == SoilSettings.threshold settings ->
  let t := SoilSettings.threshold settings in
  let d := orElse (255 - t) 1 in
  let step := Qmax 1 (SoilSettings.spacing settings) in
  let sampled br :=
    exists x y, onGrid step (Graphics.width g) x /\ onGrid step (Graphics.height g) y
                /\ brightAt g x y = Some br in
  (forall p, p ∈ (result (soilScan g settings) rnd k).1 ->
     sampled (SoilPoint.b p)
     /\ t < SoilPoint.b p
     /\ SoilPoint.n p == (SoilPoint.b p - t) / d
     /\ 0 <= SoilPoint.n p <= 1
     /\ (integral t -> SoilPoint.n p == specNormalized (SoilPoint.b p) t))
  /\ (forall p q,
        p ∈ (result (soilScan g settings) rnd k).1 ->
        q ∈ (result (soilScan g' settings') rnd' k').1 ->
        SoilPoint.b p < SoilPoint.b q -> SoilPoint.n p < SoilPoint.n q)
  /\ (forall dt, dt ∈ previewScan g settings ->
        exists br, sampled br /\ t < br
          /\ 0 <= (br - t) / d <= 1
          /\ PreviewDot.size dt == (br - t) / d * SoilSettings.dotSize settings
          /\ (integral t -> (br - t) / d == specNormalized br t)).
Proof.
  intros Ht Ht' t d step sampled.
  destruct (soilScan_spec g settings rnd k) as [F _].
  destruct (soilScan_spec g' settings' rnd' k') as [F' _].
  cbv zeta in F, F'. rewrite Forall_forall in F, F'.
  fold t step in F.
  assert (Hspec : forall br, integral t -> (br - t) / d == specNormalized br t).
  { intros br Hint. unfold specNormalized, d.
    rewrite (divisor_integral t Hint (proj2 Ht)). reflexivity. }
  split; [ | split].
  - intros p Hp. destruct (F p Hp) as (x & y & br & u & Hx & Hy & Hbr & Hlt & ->).
    simpl. destruct (brightAt_range g x y br Hbr) as [_ Hmax].
    destruct (normalized_range br t Hlt Hmax) as [Hn0 Hn1].
    split; [exists x, y; auto | ]. split; [exact Hlt | ].
    split; [reflexivity | ]. split; [split; [apply Qlt_le_weak; exact Hn0 | exact Hn1] | ].
    apply Hspec.
  - intros p q Hp Hq Hb.
    destruct (F p Hp) as (x & y & br & u & _ & _ & Hbr & Hlt & ->).
    destruct (F' q Hq) as (x' & y' & br' & u' & _ & _ & Hbr' & Hlt' & ->).
    simpl in *. destruct (brightAt_range g' x' y' br' Hbr') as [_ Hmax'].
    apply normalized_increasing; assumption.
  - intros dt Hdt. pose proof (previewScan_spec g settings) as Fp.
    rewrite Forall_forall in Fp.
    destruct (Fp dt Hdt) as (x & y & br & Hx & Hy & Hbr & Hlt & _ & ->).
    simpl. destruct (brightAt_range g x y br Hbr) as [_ Hmax].
    destruct (normalized_range br t Hlt Hmax) as [Hn0 Hn1].
    exists br. split; [exists x, y; auto | ]. split; [exact Hlt | ].
    split; [split; [apply Qlt_le_weak; exact Hn0 | exact Hn1] | ]. split; [reflexivity | ].
    apply Hspec.
Qed.

Lemma scan_normalization_counterexample :
  let settings := SoilSettings.mk 254.5 8 4 dot 2000 in
  let t := SoilSettings.threshold settings in
  0 <= t <= 255
  /\ exists p, p ∈ (result (soilScan (solidImage 2 2 xff) settings) eighths 0).1
       /\ ~ SoilPoint.n p == specNormalized (SoilPoint.b p) t.
Proof.
  split; [split; discriminate | ].
  eexists. split.
  - vm_compute. apply list_elem_of_here.
  - vm_compute. discriminate.
Qed.

Lemma scan_normalization_witness :
  let g := solidImage 8 8 xc8 in
  let g' := solidImage 8 8 xff in
  let settings := defaultSettings in
  let t := SoilSettings.threshold settings in
  let d := orElse (255 - t) 1 in
  let step := Qmax 1 (SoilSettings.spacing settings) in
  let sampled br :=
    exists x y, onGrid step (Graphics.width g) x /\ onGrid step (Graphics.height g) y
                /\ brightAt g x y = Some br in
  (forall p, p ∈ (result (soilScan g settings) eighths 0).1 ->
     sampled (SoilPoint.b p)
     /\ t < SoilPoint.b p
     /\ SoilPoint.n p == (SoilPoint.b p - t) / d
     /\ 0 <= SoilPoint.n p <= 1
     /\ (integral t -> SoilPoint.n p == specNormalized (SoilPoint.b p) t))
  /\ (forall p q,
        p ∈ (result (soilScan g settings) eighths 0).1 ->
        q ∈ (result (soilScan g' settings) eighths 0).1 ->
        SoilPoint.b p < SoilPoint.b q -> SoilPoint.n p < SoilPoint.n q)
  /\ (forall dt, dt ∈ previewScan g settings ->
        exists br, sampled br /\ t < br
          /\ 0 <= (br - t) / d <= 1
          /\ PreviewDot.size dt == (br - t) / d * SoilSettings.dotSize settings
          /\ (integral t -> (br - t) / d == specNormalized br t)).
Proof.
  apply (scan_normalization (solidImage 8 8 xc8) defaultSettings eighths 0%nat
           (solidImage 8 8 xff) defaultSettings eighths 0%nat).
  - split; discriminate.
  - reflexivity.
Defined.

(* ------------------------------------------------------------------------- *)
(** ** avgBrightness under the cap *)

Lemma sumN_Permutation pts pts' : pts ≡ₚ pts' -> sumN pts == sumN pts'.
Proof.
  induction 1 as [ | p l l' _ IH | p q l | l l' l'' _ IH1 _ IH2]; simpl.
  - reflexivity.
  - rewrite IH. reflexivity.
  - ring.
  - rewrite IH1. exact IH2.
Qed.

Lemma sample_positive g t step p : isSample g t step p -> 0 < SoilPoint.n p.
Proof.
  intros (x & y & br & u & _ & _ & Hbr & Hlt & ->). simpl.
  destruct (brightAt_range g x y br Hbr) as [_ Hmax].
  apply (normalized_range br t Hlt Hmax).
Qed.

Lemma sumN_positive g t step pts :
  Forall (isSample g t step) pts -> pts <> [] -> 0 < sumN pts.
Proof.
  intros F Hne. destruct pts as [ | p pts]; [congruence | ].
  inversion F as [ | ? ? Hp Hrest]; subst. simpl.
  pose proof (sample_positive _ _ _ _ Hp) as Hpos.
  assert (H0 : 0 <= sumN pts).
  { clear Hne F Hp Hpos. induction Hrest as [ | q pts Hq _ IH]; simpl.
    - apply Qle_refl.
    - pose proof (sample_positive _ _ _ _ Hq). lra. }
  lra.
Qed.

(** Whenever the cap drops points, of which 50 or more remain, the stored
    [avgBrightness] is strictly larger than the mean of [n] over the final
    points: the sum still counts the dropped points. *)
Lemma avgBrightness_capped_exceeds_mean species p5 state g rnd k :
  State.sourceG state = Some g ->
  let settings := State.settings state in
  let final := result (generateDigitalSoil species p5 state) rnd k in
  let scanned := (result (soilScan g settings) rnd k).1 in
  50 <= SoilSettings.maxPoints settings ->
  SoilSettings.maxPoints settings < len scanned ->
  len (State.soilPoints final) <= SoilSettings.maxPoints settings
  /\ meanN (State.soilPoints final) < SoilBehavior.avgBrightness (State.soilBehavior final).
Proof.
  intros Hg settings final scanned H50 Hover.
  destruct (generateDigitalSoil_points species p5 state g rnd k Hg) as [Ep _].
  pose proof (avgBrightness_value species p5 state g rnd k Hg) as Hv.
  destruct (soilScan_spec g settings rnd k) as [Fscan _].
  cbv zeta in Ep, Hv, Fscan. fold settings in Ep, Hv. fold final in Ep, Hv.
  rewrite cappedPoints_run, capPoints_run in Ep.
  assert (Hb : Qltb (SoilSettings.maxPoints settings) (len (soilScan g settings rnd k).1.1)
               = true) by (apply Qltb_lt; exact Hover).
  rewrite Hb in Ep. cbn [fst snd] in Ep.
  set (scan := soilScan g settings rnd k) in *.
  set (shuffled := (shuffle (length scan.1.1 - 1) scan.1.1 rnd scan.2).1) in *.
  assert (Hperm : shuffled ≡ₚ scan.1.1) by apply shuffle_Permutation.
  destruct (toInteger_nonneg (SoilSettings.maxPoints settings) ltac:(lra)) as [Ei Hf0].
  set (m := Z.to_nat (Qfloor (SoilSettings.maxPoints settings))).
  assert (Eslice : slice0 shuffled (SoilSettings.maxPoints settings) = take m shuffled).
  { unfold slice0. rewrite Ei.
    destruct (Qfloor (SoilSettings.maxPoints settings) <? 0)%Z eqn:Hneg;
      [apply Z.ltb_lt in Hneg; lia | reflexivity]. }
  rewrite Eslice in Ep.
  assert (Hm50 : (50 <= m)%nat).
  { assert (H : (Qfloor 50 <= Qfloor (SoilSettings.maxPoints settings))%Z)
      by (apply Qfloor_resp_le; exact H50).
    change (Qfloor 50) with 50%Z in H. unfold m. lia. }
  assert (Hmlen : (m < length shuffled)%nat).
  { rewrite Hperm.
    pose proof (Qfloor_le (SoilSettings.maxPoints settings)) as Hfl.
    assert (H : inject_Z (Qfloor (SoilSettings.maxPoints settings))
                < inject_Z (Z.of_nat (length scan.1.1))).
    { eapply Qle_lt_trans; [exact Hfl | exact Hover]. }
    rewrite <- Zlt_Qlt in H. unfold m. lia. }
  assert (Hlen : length (take m shuffled) = m) by (rewrite length_take; lia).
  rewrite darkFallback_enough in Ep by (rewrite Hlen; exact Hm50).
  cbn [fst] in Ep.
  assert (Hfin : len (State.soilPoints final) == inject_Z (Z.of_nat m)).
  { unfold len. rewrite Ep, Hlen. reflexivity. }
  assert (Hmpos : 0 < inject_Z (Z.of_nat m)).
  { change 0 with (inject_Z 0). rewrite <- Zlt_Qlt. lia. }
  split.
  - rewrite Hfin. unfold m. rewrite Z2Nat.id by exact Hf0. apply Qfloor_le.
  - rewrite Hv by (rewrite Ep, Hlen; lia).
    unfold meanN. rewrite Hfin. unfold Qdiv.
    apply Qmult_lt_compat_r; [apply Qinv_lt_0_compat; exact Hmpos | ].
    unfold result. fold scan. rewrite Ep.
    rewrite <- (sumN_Permutation _ _ Hperm).
    rewrite <- (take_drop m shuffled) at 2. rewrite sumN_app.
    assert (Hrest : 0 < sumN (drop m shuffled)).
    { apply (sumN_positive g (SoilSettings.threshold settings)
               (Qmax 1 (SoilSettings.spacing settings))).
      - apply Forall_drop. rewrite Hperm. exact Fscan.
      - intros E. apply (f_equal length) in E. rewrite length_drop in E.
        simpl in E. lia. }
    lra.
Qed.

(* ------------------------------------------------------------------------- *)
(** ** The population spawner *)

Lemma spawn_spec p behavior species rnd k :
  let c := (spawn p behavior species rnd k).1 in
  Creature.baseX c = SoilPoint.x p
  /\ Creature.baseY c = SoilPoint.z p * 1.5
  /\ Creature.baseZ c = SoilPoint.y p
  /\ Creature.strength c = SoilPoint.n p.
Proof.
  unfold spawn. destruct species;
    unfold newNeonTorus, newFluxRibbon, newTensorCore, newPrismSpire, Creature.new;
    run; repeat split.
Qed.

(** The guard [i < useCount] of the spawn loop, for a counter [i]. *)
Lemma counter_below (i : Z) (useCount : Q) :
  inject_Z i < useCount <-> (i < Qceiling useCount)%Z.
Proof.
  split; intros H.
  - pose proof (Qle_ceiling useCount) as Hc.
    assert (Hlt : inject_Z i < inject_Z (Qceiling useCount)) by lra.
    rewrite <- Zlt_Qlt in Hlt. exact Hlt.
  - pose proof (Qceiling_lt useCount) as Hc.
    assert (Hle : inject_Z i <= inject_Z (Qceiling useCount - 1)).
    { rewrite <- Zle_Qle. lia. }
    lra.
Qed.

Lemma spawnLoop_spec fuel points behavior species indices useCount rnd :
  (forall j idx, indices !! j = Some idx -> is_Some (points !! idx)) ->
  useCount <= len indices ->
  forall i creatures k,
  exists new,
    (spawnLoop fuel points behavior species indices useCount i creatures rnd k).1
    = creatures ++ new
    /\ length new = Nat.min fuel (Z.to_nat (Qceiling useCount - Z.of_nat i))
    /\ Forall2 (spawnedAt points) (take (length new) (drop i indices)) new.
Proof.
  intros Hvalid Hcount. induction fuel as [ | fuel IH]; intros i creatures k.
  - exists []. simpl. rewrite app_nil_r. repeat split. constructor.
  - cbn [spawnLoop].
    destruct (Qltb (inject_Z (Z.of_nat i)) useCount) eqn:Hguard.
    + apply Qltb_lt in Hguard.
      assert (Hi : (i < length indices)%nat).
      { assert (H : inject_Z (Z.of_nat i) < len indices) by lra.
        unfold len in H. rewrite <- Zlt_Qlt in H. lia. }
      destruct (lookup_lt_is_Some_2 indices i Hi) as [idx Hidx].
      destruct (Hvalid i idx Hidx) as [p Hp].
      rewrite Hidx. cbn [mbind option_bind]. rewrite Hp. rewrite bind_run.
      destruct (IH (S i) (creatures ++ [(spawn p behavior species rnd k).1])
                  (spawn p behavior species rnd k).2) as (new & E & L & F).
      exists ((spawn p behavior species rnd k).1 :: new).
      rewrite E, <- app_assoc.
      apply counter_below in Hguard.
      split; [reflexivity | ]. split; [cbn [length]; lia | ].
      rewrite (drop_S _ _ _ Hidx). cbn [length take]. constructor; [ | exact F].
      exists p. split; [exact Hp | ]. apply spawn_spec.
    + apply Qltb_ge in Hguard.
      assert (Hdone : (Qceiling useCount <= Z.of_nat i)%Z).
      { destruct (Z.lt_ge_cases (Z.of_nat i) (Qceiling useCount)) as [Hlt | Hge];
          [ | exact Hge].
        apply counter_below in Hlt. lra. }
      exists []. rewrite ret_run. cbn [fst]. rewrite app_nil_r.
      split; [reflexivity | ]. split; [cbn [length]; lia | constructor].
Qed.

(** With the length of [indices] as fuel the spawn loop ends because its
    guard fails. *)
Lemma spawnLoop_fuel fuel extra points behavior species indices useCount i creatures rnd k :
  useCount <= inject_Z (Z.of_nat (i + fuel)) ->
  spawnLoop (fuel + extra) points behavior species indices useCount i creatures rnd k
  = spawnLoop fuel points behavior species indices useCount i creatures rnd k.
Proof.
  revert i creatures k. induction fuel as [ | fuel IH]; intros i creatures k Hu.
  - rewrite Nat.add_0_r in Hu.
    assert (Hge : Qltb (inject_Z (Z.of_nat i)) useCount = false) by (apply Qltb_ge; exact Hu).
    destruct extra as [ | extra]; simpl; [reflexivity | ]. rewrite Hge. reflexivity.
  - simpl. destruct (Qltb (inject_Z (Z.of_nat i)) useCount); [ | reflexivity].
    destruct (indices !! i ≫= (fun idx => points !! idx)); [ | reflexivity].
    rewrite !bind_run. apply IH.
    replace (S i + fuel)%nat with (i + S fuel)%nat by lia. exact Hu.
Qed.

(** As [setupCreatures] calls it, the spawn loop has fuel to spare. *)
Lemma setupCreatures_fuel extra points behavior species indices plants rnd k :
  spawnLoop (length indices + extra) points behavior species indices
    (Qmin plants (len indices)) 0 [] rnd k
  = spawnLoop (length indices) points behavior species indices
      (Qmin plants (len indices)) 0 [] rnd k.
Proof. apply spawnLoop_fuel. apply Q.le_min_r. Qed.

Lemma shuffledIndices_Permutation count rnd k :
  (shuffledIndices count rnd k).1 ≡ₚ seq 0 count.
Proof. apply shuffle_Permutation. Qed.

Lemma setupCreatures_run points behavior species rnd k :
  let indices := shuffledIndices (length points) rnd k in
  let plants := plantCount (len points) (SoilBehavior.densityFactor behavior) in
  setupCreatures points behavior species rnd k
  = spawnLoop (length indices.1) points behavior species indices.1
      (Qmin plants (len indices.1)) 0 [] rnd indices.2.
Proof. unfold setupCreatures. rewrite bind_run. reflexivity. Qed.

Lemma Qceiling_min (a b : Z) : Qceiling (Qmin (inject_Z a) (inject_Z b)) = Z.min a b.
Proof.
  destruct (Q.min_spec (inject_Z a) (inject_Z b)) as [[Hlt E] | [Hle E]].
  - rewrite (Qceiling_comp _ _ E), Qceiling_Z.
    rewrite <- Zlt_Qlt in Hlt. lia.
  - rewrite (Qceiling_comp _ _ E), Qceiling_Z.
    rewrite <- Zle_Qle in Hle. lia.
Qed.

(** C2, with the count as the code computes it.  For every point set,
    behavior profile and species, the spawner places its creatures on the
    soil points whose indices open a Fisher-Yates permutation of all point
    indices, so no index is used twice and every index is one of a point.
    The permutation is the unbiased one: position [i] draws an index in
    [[0, i]], and the permutation obtained determines every index drawn, so
    that equally likely draws make all permutations equally likely.  The
    spawner makes [floor(floor(remap(pointCount, 50 to 1200, 30 to 160)) *
    densityFactor)] creatures, the inner floor included, clamped to
    [[0, pointCount]], hence never more than there are points. *)
Theorem spawner_distinct_points points behavior species rnd k :
  unitRange rnd ->
  let creatures := result (setupCreatures points behavior species) rnd k in
  let indices := result (shuffledIndices (length points)) rnd k in
  let last := (length points - 1)%nat in
  let baseCount := Qfloor (mapRange (len points) 50 1200 30 160) in
  let target := Qfloor (inject_Z baseCount * SoilBehavior.densityFactor behavior) in
  indices ≡ₚ seq 0 (length points)
  /\ (forall t, (t < last)%nat ->
        (0 <= drawnIndex rnd (k + t) (last - t) <= Z.of_nat (last - t))%Z)
  /\ (forall rnd' k', unitRange rnd' ->
        result (shuffledIndices (length points)) rnd' k' = indices ->
        forall t, (t < last)%nat ->
          drawnIndex rnd' (k' + t) (last - t) = drawnIndex rnd (k + t) (last - t))
  /\ Z.of_nat (length creatures) = Z.max 0 (Z.min target (Z.of_nat (length points)))
  /\ (length creatures <= length points)%nat
  /\ NoDup (take (length creatures) indices)
  /\ Forall (fun i => (i < length points)%nat) (take (length creatures) indices)
  /\ Forall2 (spawnedAt points) (take (length creatures) indices) creatures.
Proof.
  intros Hunit creatures indices last baseCount target.
  assert (Hperm : indices ≡ₚ seq 0 (length points)) by apply shuffledIndices_Permutation.
  assert (Hrange : forall t, (t < last)%nat ->
            (0 <= drawnIndex rnd (k + t) (last - t) <= Z.of_nat (last - t))%Z).
  { intros t _. destruct (Hunit (k + t)%nat). apply draw_index_range; assumption. }
  assert (Hinj : forall rnd' k', unitRange rnd' ->
            result (shuffledIndices (length points)) rnd' k' = indices ->
            forall t, (t < last)%nat ->
              drawnIndex rnd' (k' + t) (last - t) = drawnIndex rnd (k + t) (last - t)).
  { intros rnd' k' Hunit' Hsame t Ht.
    apply (shuffle_injective rnd' rnd last (seq 0 (length points)) k' k Hunit' Hunit).
    - apply NoDup_seq.
    - rewrite length_seq. unfold last in *. lia.
    - exact Hsame.
    - exact Ht. }
  assert (Hlen : length indices = length points).
  { rewrite Hperm. apply length_seq. }
  assert (Hin : forall idx, idx ∈ indices -> (idx < length points)%nat).
  { intros idx H. rewrite Hperm in H. apply elem_of_seq in H. lia. }
  assert (Hvalid : forall j idx, indices !! j = Some idx -> is_Some (points !! idx)).
  { intros j idx H. apply lookup_lt_is_Some_2, Hin. eapply list_elem_of_lookup_2, H. }
  set (useCount := Qmin (plantCount (len points) (SoilBehavior.densityFactor behavior))
                        (len indices)).
  assert (Hcount : useCount <= len indices) by apply Q.le_min_r.
  destruct (spawnLoop_spec (length indices) points behavior species indices useCount rnd
              Hvalid Hcount 0%nat [] (shuffledIndices (length points) rnd k).2)
    as (new & E & L & F).
  assert (Ec : creatures = new).
  { subst creatures. unfold result. rewrite setupCreatures_run. exact E. }
  assert (Hceil : Qceiling useCount = Z.min target (Z.of_nat (length points))).
  { unfold useCount, plantCount, len, floor. rewrite Qceiling_min, Hlen. reflexivity. }
  rewrite drop_0 in F. rewrite Ec.
  assert (Hn : Z.of_nat (length new) = Z.max 0 (Z.min target (Z.of_nat (length points)))).
  { rewrite L, Hceil. lia. }
  split; [exact Hperm | ]. split; [exact Hrange | ]. split; [exact Hinj | ].
  split; [exact Hn | ]. split; [lia | ].
  split; [ | split; [ | exact F]].
  - apply (sublist_NoDup _ indices); [ | apply sublist_take].
    rewrite Hperm. apply NoDup_seq.
  - apply Forall_take, Forall_forall. exact Hin.
Qed.

Lemma spawner_distinct_points_witness :
  let points := [SoilPoint.mk (-4) (-4) 1 200 0.5; SoilPoint.mk 0 (-4) (-2) 255 1;
                 SoilPoint.mk (-4) 0 0 150 0.25] in
  let behavior := SoilBehavior.mk 1.3 1 1 1 0.5 in
  let creatures := result (setupCreatures points behavior knot) eighths 0 in
  let indices := result (shuffledIndices (length points)) eighths 0 in
  let last := (length points - 1)%nat in
  let baseCount := Qfloor (mapRange (len points) 50 1200 30 160) in
  let target := Qfloor (inject_Z baseCount * SoilBehavior.densityFactor behavior) in
  unitRange eighths
  /\ indices ≡ₚ seq 0 (length points)
  /\ (forall t, (t < last)%nat ->
        (0 <= drawnIndex eighths (0 + t) (last - t) <= Z.of_nat (last - t))%Z)
  /\ (forall rnd' k', unitRange rnd' ->
        result (shuffledIndices (length points)) rnd' k' = indices ->
        forall t, (t < last)%nat ->
          drawnIndex rnd' (k' + t) (last - t) = drawnIndex eighths (0 + t) (last - t))
  /\ Z.of_nat (length creatures) = Z.max 0 (Z.min target (Z.of_nat (length points)))
  /\ (length creatures <= length points)%nat
  /\ NoDup (take (length creatures) indices)
  /\ Forall (fun i => (i < length points)%nat) (take (length creatures) indices)
  /\ Forall2 (spawnedAt points) (take (length creatures) indices) creatures.
Proof.
  intros points behavior.
  split; [exact eighths_unitRange | ].
  exact (spawner_distinct_points points behavior knot eighths 0%nat eighths_unitRange).
Defined.

Lemma spawner_count_counterexample :
  let state := configured (solidImage 116 2 xff) (SoilSettings.mk 100 8 2 dot 2000) in
  let final := result (generateDigitalSoil torus None state) eighths 0 in
  length (State.soilPoints final) = 58%nat
  /\ SoilBehavior.densityFactor (State.soilBehavior final) == 1.3
  /\ length (State.creatures final) = 39%nat
  /\ specPlantCount 58 1.3 = 40%Z
  /\ Z.of_nat (length (State.creatures final))
     <> specPlantCount (length (State.soilPoints final))
          (SoilBehavior.densityFactor (State.soilBehavior final)).
Proof.
  vm_compute. repeat split; discriminate.
Qed.

(* ------------------------------------------------------------------------- *)
(** ** The preview of a grey image *)

(** C9. A 100 by 100 image whose pixels all have luminance 200, previewed
    with threshold 100, spacing 10 and dot size 8: the scan keeps a dot at
    each of the 10 by 10 grid positions, 100 dots in all, and every dot has
    the size [(200 - 100) / 155 * 8 = 160 / 31], between 5.16 and 5.17. *)
Theorem preview_scenario :
  let g := solidImage 100 100 xc8 in
  let settings := SoilSettings.mk 100 8 10 dot 2000 in
  let dots := State.previewDots (recomputePreviewDots (configured g settings)) in
  (forall x y br, integral x -> integral y -> brightAt g x y = Some br -> br == 200)
  /\ length dots = 100%nat
  /\ dots = previewScan g settings
  /\ map (fun d => (Qred (PreviewDot.x d), Qred (PreviewDot.y d))) dots
     = flat_map (fun j => map (fun i => (inject_Z (10 * Z.of_nat i - 50),
                                          inject_Z (10 * Z.of_nat j - 50)))
                              (seq 0 10))
                (seq 0 10)
  /\ map (fun d => Qred (PreviewDot.size d)) dots = replicate 100 (160 # 31)
  /\ (200 - 100) / 155 * 8 == 160 # 31
  /\ 5.16 < 160 # 31 < 5.17.
Proof.
  split.
  - intros x y br Hx Hy Hbr. apply (brightAt_solid _ _ _ _ _ _ Hx Hy) in Hbr.
    rewrite Hbr. reflexivity.
  - vm_compute. repeat split.
Qed.

(* ------------------------------------------------------------------------- *)
(** ** Further properties: interpolation and remapping *)

(** [mapRange] sends the ends of the input range to the ends of the output
    range, and mapping back through the exchanged ranges restores the
    value. *)
Theorem mapRange_round_trip (v i1 i2 o1 o2 : Q) :
  ~ i1 == i2 -> ~ o1 == o2 ->
  mapRange i1 i1 i2 o1 o2 == o1
  /\ mapRange i2 i1 i2 o1 o2 == o2
  /\ mapRange (mapRange v i1 i2 o1 o2) o1 o2 i1 i2 == v.
Proof.
  intros Hi Ho. unfold mapRange.
  assert (Hi' : ~ i2 - i1 == 0) by lra.
  assert (Ho' : ~ o2 - o1 == 0) by lra.
  split; [field; exact Hi' | ]. split; [field; exact Hi' | ].
  field. split; assumption.
Qed.

Lemma mapRange_round_trip_witness :
  ~ 50 == 1200 /\ ~ 30 == 160
  /\ mapRange 50 50 1200 30 160 == 30
  /\ mapRange 1200 50 1200 30 160 == 160
  /\ mapRange (mapRange 58 50 1200 30 160) 30 160 50 1200 == 58.
Proof.
  assert (Hi : ~ 50 == 1200) by discriminate.
  assert (Ho : ~ 30 == 160) by discriminate.
  split; [exact Hi | ]. split; [exact Ho | ].
  exact (mapRange_round_trip 58 50 1200 30 160 Hi Ho).
Defined.

Lemma lerp_range (start stop amt : Q) :
  0 <= amt <= 1 -> Qmin start stop <= lerp start stop amt <= Qmax start stop.
Proof.
  intros [H0 H1]. unfold lerp.
  destruct (Qlt_le_dec start stop) as [Hlt | Hge].
  - rewrite Q.min_l, Q.max_r by lra.
    assert (A : 0 <= amt * (stop - start)) by (apply Qmult_le_0_compat; lra).
    assert (B : 0 <= (1 - amt) * (stop - start)) by (apply Qmult_le_0_compat; lra).
    assert (E : (1 - amt) * (stop - start) == (stop - start) - amt * (stop - start)) by ring.
    rewrite E in B. set (P := amt * (stop - start)) in *. split; lra.
  - rewrite Q.min_r, Q.max_l by lra.
    assert (A : 0 <= amt * (start - stop)) by (apply Qmult_le_0_compat; lra).
    assert (B : 0 <= (1 - amt) * (start - stop)) by (apply Qmult_le_0_compat; lra).
    assert (E : (1 - amt) * (start - stop) == (start - stop) - amt * (start - stop)) by ring.
    assert (E' : amt * (stop - start) == - (amt * (start - stop))) by ring.
    rewrite E in B. rewrite E'. set (P := amt * (start - stop)) in *. split; lra.
Qed.

(** With an amount in [[0, 1]], [lerp] stays between its two ends, whichever
    is the larger, and it reaches them at 0 and at 1. *)
Theorem lerp_between (start stop amt : Q) :
  0 <= amt <= 1 ->
  Qmin start stop <= lerp start stop amt <= Qmax start stop
  /\ lerp start stop 0 == start
  /\ lerp start stop 1 == stop.
Proof.
  intros H. split; [apply lerp_range; exact H | ].
  unfold lerp. split; ring.
Qed.

Lemma lerp_between_witness :
  0 <= 0.4 <= 1
  /\ Qmin 450 (-450) <= lerp 450 (-450) 0.4 <= Qmax 450 (-450)
  /\ lerp 450 (-450) 0 == 450
  /\ lerp 450 (-450) 1 == -450.
Proof.
  assert (H : 0 <= 0.4 <= 1) by (split; discriminate).
  split; [exact H | ]. exact (lerp_between 450 (-450) 0.4 H).
Defined.

Lemma mapRange_lerp (v i1 i2 o1 o2 : Q) :
  mapRange v i1 i2 o1 o2 == lerp o1 o2 ((v - i1) / (i2 - i1)).
Proof. unfold mapRange, lerp. ring. Qed.

Lemma mapRange_within (v i1 i2 o1 o2 : Q) :
  i1 < i2 -> i1 <= v <= i2 ->
  Qmin o1 o2 <= mapRange v i1 i2 o1 o2 <= Qmax o1 o2.
Proof.
  intros Hi [Hlo Hhi]. rewrite mapRange_lerp. apply lerp_range.
  split.
  - apply Qle_shift_div_l; lra.
  - apply Qle_shift_div_r; lra.
Qed.

(* ------------------------------------------------------------------------- *)
(** ** Further properties: the behavior profile *)

Lemma behaviorOf_generateDigitalSoil species p5 state g rnd k :
  State.sourceG state = Some g ->
  exists brightnessSum pts,
    State.soilBehavior (result (generateDigitalSoil species p5 state) rnd k)
    = soilBehaviorOf (State.settings state) brightnessSum pts.
Proof.
  intros Hg.
  destruct (generateDigitalSoil_soil species p5 state g rnd k Hg) as [_ E].
  rewrite E. unfold result. rewrite digitalSoil_run. eexists _, _. reflexivity.
Qed.

(** With the settings inside the ranges of their sliders, every factor of
    the stored behavior profile is positive and bounded: density in
    [[0.5, 1.3]], height in [[0.56, 2]], thickness in [[0.7, 1.6]] and growth
    speed in [[0.8, 1.25]]. *)
Theorem behavior_profile_bounds species p5 state g rnd k :
  State.sourceG state = Some g ->
  0 <= SoilSettings.threshold (State.settings state) <= 255 ->
  2 <= SoilSettings.dotSize (State.settings state) <= 20 ->
  2 <= SoilSettings.spacing (State.settings state) <= 20 ->
  let b := State.soilBehavior (result (generateDigitalSoil species p5 state) rnd k) in
  0.5 <= SoilBehavior.densityFactor b <= 1.3
  /\ 0.56 <= SoilBehavior.heightFactor b <= 2
  /\ 0.7 <= SoilBehavior.thicknessFactor b <= 1.6
  /\ 0.8 <= SoilBehavior.growthSpeed b <= 1.25.
Proof.
  intros Hg Ht Hd Hs b.
  destruct (behaviorOf_generateDigitalSoil species p5 state g rnd k Hg) as (sum & pts & E).
  subst b. rewrite E. unfold soilBehaviorOf. simpl.
  pose proof (mapRange_within _ 2 20 1.3 0.5 ltac:(reflexivity) Hs) as Hdf.
  pose proof (mapRange_within _ 2 20 0.7 1.6 ltac:(reflexivity) Hd) as Htf.
  pose proof (mapRange_within _ 0 255 0.8 1.25 ltac:(reflexivity) Ht) as Hgs.
  rewrite Q.min_r, Q.max_l in Hdf by discriminate.
  rewrite Q.min_l, Q.max_r in Htf by discriminate.
  rewrite Q.min_l, Q.max_r in Hgs by discriminate.
  set (A := mapRange (SoilSettings.dotSize (State.settings state)) 2 20 0.7 1.6) in *.
  set (B := mapRange (SoilSettings.threshold (State.settings state)) 0 255 0.8 1.25) in *.
  split; [exact Hdf | ]. split; [ | split; [exact Htf | exact Hgs]].
  split.
  - apply Qle_trans with (0.7 * B).
    + lra.
    + apply Qmult_le_compat_r; lra.
  - apply Qle_trans with (1.6 * B).
    + apply Qmult_le_compat_r; lra.
    + lra.
Qed.

Lemma behavior_profile_bounds_witness :
  let state := configured (solidImage 8 8 xc8) defaultSettings in
  let b := State.soilBehavior (result (generateDigitalSoil torus None state) eighths 0) in
  0.5 <= SoilBehavior.densityFactor b <= 1.3
  /\ 0.56 <= SoilBehavior.heightFactor b <= 2
  /\ 0.7 <= SoilBehavior.thicknessFactor b <= 1.6
  /\ 0.8 <= SoilBehavior.growthSpeed b <= 1.25.
Proof.
  apply (behavior_profile_bounds torus None (configured (solidImage 8 8 xc8) defaultSettings)
           (solidImage 8 8 xc8) eighths 0%nat eq_refl); split; discriminate.
Defined.

(* ------------------------------------------------------------------------- *)
(** ** Further properties: the soil points *)

(** One cell of the final scan, by cases. *)
Lemma soilCell_cases g t y x acc rnd k :
  soilCell g t y x acc rnd k = (acc, k)
  \/ exists br,
       brightAt g x y = Some br /\ t < br
       /\ soilCell g t y x acc rnd k
          = ((acc.1 ++ [SoilPoint.mk (x - inject_Z (Graphics.width g) / 2)
                          (y - inject_Z (Graphics.height g) / 2)
                          (rnd k * 6 - 3) br
                          ((br - t) / orElse (255 - t) 1)],
              acc.2 + (br - t) / orElse (255 - t) 1), S k).
Proof.
  unfold soilCell. destruct (brightAt g x y) as [br | ] eqn:Hb; [ | left; reflexivity].
  destruct (Qltb t br) eqn:Ht; [ | left; reflexivity].
  right. exists br. apply Qltb_lt in Ht. repeat split. exact Ht.
Qed.

Section ScanInvariant.
Variable P : SoilPoint.t -> Prop.
Variables (g : Graphics.t) (t step : Q) (rnd : nat -> Q).
Hypothesis depth : forall x y br k,
  P (SoilPoint.mk x y (rnd k * 6 - 3) br ((br - t) / orElse (255 - t) 1)).

Lemma soilCell_Forall y x acc k :
  Forall P acc.1 -> Forall P (soilCell g t y x acc rnd k).1.1.
Proof.
  intros H. destruct (soilCell_cases g t y x acc rnd k) as [E | (br & _ & _ & E)];
    rewrite E; cbn [fst]; [exact H | ].
  apply Forall_app. split; [exact H | ]. constructor; [apply depth | constructor].
Qed.

Lemma soilRow_Forall fuel y x acc k :
  Forall P acc.1 -> Forall P (soilRow fuel g t step y x acc rnd k).1.1.
Proof.
  revert x acc k. induction fuel as [ | fuel IH]; intros x acc k H; cbn [soilRow].
  - exact H.
  - destruct (Qltb x (inject_Z (Graphics.width g))); [ | exact H].
    rewrite bind_run. apply IH, soilCell_Forall, H.
Qed.

Lemma soilRows_Forall fuel rowFuel y acc k :
  Forall P acc.1 -> Forall P (soilRows fuel rowFuel g t step y acc rnd k).1.1.
Proof.
  revert y acc k. induction fuel as [ | fuel IH]; intros y acc k H; cbn [soilRows].
  - exact H.
  - destruct (Qltb y (inject_Z (Graphics.height g))); [ | exact H].
    rewrite bind_run. apply IH, soilRow_Forall, H.
Qed.
End ScanInvariant.

Lemma soilScan_depth g settings rnd k :
  unitRange rnd ->
  Forall (fun p => -3 <= SoilPoint.z p /\ SoilPoint.z p <= 3) (soilScan g settings rnd k).1.1.
Proof.
  intros Hunit. unfold soilScan. apply soilRows_Forall; [ | constructor].
  intros x y br j. cbn [SoilPoint.z]. destruct (Hunit j). split; lra.
Qed.

Lemma multiple_nonneg step v : 0 <= step -> multiple step v -> 0 <= v.
Proof.
  intros Hs [i E]. rewrite E. apply Qmult_le_0_compat; [apply of_nat_nonneg | exact Hs].
Qed.

Lemma Qhalf (v : Q) : v / 2 == v * (1 # 2).
Proof. field. Qed.

Lemma sample_wellFormed g t step imgW imgH p :
  0 <= step ->
  inject_Z (Graphics.width g) <= imgW -> inject_Z (Graphics.height g) <= imgH ->
  isSample g t step p ->
  -3 <= SoilPoint.z p /\ SoilPoint.z p <= 3 ->
  wellFormedPoint imgW imgH p.
Proof.
  intros Hs Hw Hh (x & y & br & u & [Hx Hxw] & [Hy Hyh] & Hb & Ht & ->) Hz.
  apply multiple_nonneg in Hx; [ | exact Hs].
  apply multiple_nonneg in Hy; [ | exact Hs].
  destruct (brightAt_range _ _ _ _ Hb) as [Hb0 Hb255].
  destruct (normalized_range br t Ht Hb255) as [Hn0 Hn1].
  unfold wellFormedPoint. cbn [SoilPoint.x SoilPoint.y SoilPoint.z SoilPoint.b SoilPoint.n] in *.
  set (n := (br - t) / orElse (255 - t) 1) in *.
  rewrite !Qhalf.
  repeat split; try assumption; lra.
Qed.

Lemma synthetic_wellFormed imgW imgH p :
  isSynthetic imgW imgH p -> wellFormedPoint imgW imgH p.
Proof.
  intros (Hn & Hb & Hz & Hx & Hy). unfold wellFormedPoint.
  rewrite Hn, Hb, Hz. repeat split; try lra; tauto.
Qed.

(** Every soil point [generateDigitalSoil] stores is well formed, whatever
    the image, the settings and the draws: its normalized brightness lies in
    (0, 1], its brightness in [[0, 255]], its depth in [[-3, 3]], and it stands
    inside the image rectangle centred at the origin.  The graphics sampled is
    no larger than the image size recorded, as after an image load. *)
Theorem soil_points_well_formed species p5 state g rnd k :
  State.sourceG state = Some g ->
  unitRange rnd ->
  0 <= State.imgW state -> 0 <= State.imgH state ->
  inject_Z (Graphics.width g) <= State.imgW state ->
  inject_Z (Graphics.height g) <= State.imgH state ->
  Forall (wellFormedPoint (State.imgW state) (State.imgH state))
    (State.soilPoints (result (generateDigitalSoil species p5 state) rnd k)).
Proof.
  intros Hg Hunit HW HH Hw Hh.
  destruct (generateDigitalSoil_points species p5 state g rnd k Hg) as [E _].
  cbv zeta in E. rewrite E. clear E.
  rewrite cappedPoints_run. cbv zeta.
  set (scan := soilScan g (State.settings state) rnd k).
  assert (Hscan : Forall (wellFormedPoint (State.imgW state) (State.imgH state)) scan.1.1).
  { destruct (soilScan_spec g (State.settings state) rnd k) as [Hs _].
    pose proof (soilScan_depth g (State.settings state) rnd k Hunit) as Hz.
    fold scan in Hs, Hz. cbv zeta in Hs. fold scan in Hs.
    rewrite Forall_forall in Hs, Hz. apply Forall_forall. intros p Hp.
    apply (sample_wellFormed g (SoilSettings.threshold (State.settings state))
             (Qmax 1 (SoilSettings.spacing (State.settings state)))); auto.
    pose proof (Q.le_max_l 1 (SoilSettings.spacing (State.settings state))). lra. }
  pose proof (capPoints_Forall _ (SoilSettings.maxPoints (State.settings state))
                _ rnd scan.2 Hscan) as Hcap.
  set (capped := capPoints (SoilSettings.maxPoints (State.settings state)) scan.1.1 rnd scan.2)
    in *.
  rewrite darkFallback_run. destruct (Qltb (len capped.1) 50); [ | exact Hcap].
  destruct (synthetic_spec 120 (State.imgW state) (State.imgH state) capped.1 rnd capped.2
              Hunit HW HH) as (new & E & _ & Hnew).
  rewrite E. apply Forall_app. split; [exact Hcap | ].
  eapply Forall_impl; [exact Hnew | ]. intros p. apply synthetic_wellFormed.
Qed.

Lemma soil_points_well_formed_witness :
  let state := configured (solidImage 8 8 xc8) defaultSettings in
  Forall (wellFormedPoint 8 8)
    (State.soilPoints (result (generateDigitalSoil torus None state) eighths 0)).
Proof.
  apply (soil_points_well_formed torus None (configured (solidImage 8 8 xc8) defaultSettings)
           (solidImage 8 8 xc8) eighths 0%nat eq_refl eighths_unitRange);
    apply Qle_bool_imp_le; reflexivity.
Defined.

(* ------------------------------------------------------------------------- *)
(** ** Further properties: the preview against the final scan *)

Lemma previewCell_soilCell g t maxSize y x acc rnd k :
  previewCell g t maxSize y x (omap (previewOf maxSize) acc.1)
  = omap (previewOf maxSize) (soilCell g t y x acc rnd k).1.1.
Proof.
  unfold previewCell, soilCell.
  destruct (brightAt g x y) as [br | ]; [ | reflexivity].
  destruct (Qltb t br); [ | reflexivity].
  run. rewrite omap_app. cbn [omap list_omap previewOf SoilPoint.n SoilPoint.x SoilPoint.y].
  unfold previewOf. cbn [SoilPoint.n SoilPoint.x SoilPoint.y].
  destruct (Qle_bool ((br - t) / orElse (255 - t) 1 * maxSize) 0.3).
  - rewrite app_nil_r. reflexivity.
  - reflexivity.
Qed.

Lemma previewRow_soilRow fuel g t maxSize step y x acc rnd k :
  previewRow fuel g t maxSize step y x (omap (previewOf maxSize) acc.1)
  = omap (previewOf maxSize) (soilRow fuel g t step y x acc rnd k).1.1.
Proof.
  revert x acc k. induction fuel as [ | fuel IH]; intros x acc k;
    cbn [previewRow soilRow]; [reflexivity | ].
  destruct (Qltb x (inject_Z (Graphics.width g))); [ | reflexivity].
  rewrite bind_run, <- IH, <- previewCell_soilCell. reflexivity.
Qed.

Lemma previewRows_soilRows fuel rowFuel g t maxSize step y acc rnd k :
  previewRows fuel rowFuel g t maxSize step y (omap (previewOf maxSize) acc.1)
  = omap (previewOf maxSize) (soilRows fuel rowFuel g t step y acc rnd k).1.1.
Proof.
  revert y acc k. induction fuel as [ | fuel IH]; intros y acc k;
    cbn [previewRows soilRows]; [reflexivity | ].
  destruct (Qltb y (inject_Z (Graphics.height g))); [ | reflexivity].
  rewrite bind_run, <- IH, <- previewRow_soilRow. reflexivity.
Qed.

Lemma recomputePreviewDots_take state g :
  State.sourceG state = Some g ->
  State.previewDots (recomputePreviewDots state)
  = if (length (Graphics.pixels g) =? 0)%nat then []
    else take 4000 (previewScan g (State.settings state)).
Proof.
  intros Hg. unfold recomputePreviewDots. rewrite Hg.
  destruct (length (Graphics.pixels g) =? 0)%nat; [reflexivity | ].
  cbn [State.setPreviewDots State.previewDots].
  destruct (Qltb 4000 (len (previewScan g (State.settings state)))) eqn:Hlen; [reflexivity | ].
  apply Qltb_ge in Hlen. unfold len in Hlen.
  change 4000 with (inject_Z 4000) in Hlen. rewrite <- Zle_Qle in Hlen.
  symmetry. apply take_ge. lia.
Qed.

(** The preview shows what the final scan will find.  Whatever the draws,
    the dots of the preview scan are, in order, the points of the final scan
    whose radius [n * dotSize] exceeds 0.3, each at the position of its point
    and with that radius.  When the final scan keeps between 50 points and
    the cap, so that neither the cap nor the fallback changes them, the
    stored preview is the first 4000 such dots of the stored soil points. *)
Theorem preview_matches_scan species p5 state g rnd k :
  State.sourceG state = Some g ->
  let settings := State.settings state in
  let scanned := (result (soilScan g settings) rnd k).1 in
  let final := State.soilPoints (result (generateDigitalSoil species p5 state) rnd k) in
  previewScan g settings = omap (previewOf (SoilSettings.dotSize settings)) scanned
  /\ ((50 <= length scanned)%nat ->
      len scanned <= SoilSettings.maxPoints settings ->
      State.previewDots (recomputePreviewDots state)
      = take 4000 (omap (previewOf (SoilSettings.dotSize settings)) final)).
Proof.
  intros Hg settings scanned final.
  assert (E : previewScan g settings
              = omap (previewOf (SoilSettings.dotSize settings)) scanned).
  { unfold previewScan, scanned, result, soilScan.
    rewrite <- previewRows_soilRows. reflexivity. }
  split; [exact E | ].
  intros H50 Hcap.
  destruct (avgBrightness_mean_untouched species p5 state g rnd k Hg H50 Hcap) as [Hsame _].
  fold final in Hsame. fold settings scanned in Hsame. rewrite Hsame.
  rewrite (recomputePreviewDots_take state g Hg).
  fold settings. rewrite E.
  destruct (length (Graphics.pixels g) =? 0)%nat eqn:Hpx; [ | reflexivity].
  apply Nat.eqb_eq in Hpx.
  assert (Hnil : scanned = []).
  { destruct (soilScan_spec g settings rnd k) as [Hs _]. cbv zeta in Hs.
    fold (result (soilScan g settings) rnd k) in Hs. fold scanned in Hs.
    destruct scanned as [ | p rest]; [reflexivity | ].
    apply Forall_cons in Hs. destruct Hs as [(x & y & br & u & _ & _ & Hb & _) _].
    unfold brightAt in Hb. apply nil_length_inv in Hpx. rewrite Hpx in Hb.
    unfold readPixel in Hb.
    destruct ((Qden (Qred ((x + y * inject_Z (Graphics.width g)) * 4)) =? 1)%positive
              && (0 <=? Qnum (Qred ((x + y * inject_Z (Graphics.width g)) * 4)))%Z)%bool;
      discriminate Hb. }
  rewrite Hnil. reflexivity.
Qed.

Lemma preview_matches_scan_witness :
  let g := solidImage 40 40 xc8 in
  let state := configured g defaultSettings in
  let scanned := (result (soilScan g defaultSettings) eighths 0).1 in
  let final := State.soilPoints (result (generateDigitalSoil torus None state) eighths 0) in
  length scanned = 100%nat
  /\ previewScan g defaultSettings = omap (previewOf 8) scanned
  /\ State.previewDots (recomputePreviewDots state) = take 4000 (omap (previewOf 8) final).
Proof.
  intros g state scanned final.
  assert (L : length scanned = 100%nat) by (vm_compute; reflexivity).
  destruct (preview_matches_scan torus None state g eighths 0%nat eq_refl) as [E F].
  split; [exact L | ]. split; [exact E | ].
  apply F.
  - change (50 <= length scanned)%nat. rewrite L. lia.
  - apply Qle_bool_imp_le. vm_compute. reflexivity.
Defined.

(* ------------------------------------------------------------------------- *)
(** ** Further properties: raising the threshold *)

Lemma soilCell_threshold g t t' y x acc acc' rnd k rnd' k' :
  t <= t' ->
  sampleOf <$> acc'.1 `sublist_of` sampleOf <$> acc.1 ->
  sampleOf <$> (soilCell g t' y x acc' rnd' k').1.1
  `sublist_of` sampleOf <$> (soilCell g t y x acc rnd k).1.1.
Proof.
  intros Ht H. unfold soilCell.
  destruct (brightAt g x y) as [br | ]; [ | exact H].
  destruct (Qltb t' br) eqn:H'.
  - apply Qltb_lt in H'.
    assert (Hlt : Qltb t br = true) by (apply Qltb_lt; lra).
    rewrite Hlt. run. rewrite !fmap_app. apply sublist_app; [exact H | reflexivity].
  - destruct (Qltb t br); [ | exact H].
    run. rewrite fmap_app. apply sublist_inserts_r. exact H.
Qed.

Lemma soilRow_threshold fuel g t t' step y x acc acc' rnd k rnd' k' :
  t <= t' ->
  sampleOf <$> acc'.1 `sublist_of` sampleOf <$> acc.1 ->
  sampleOf <$> (soilRow fuel g t' step y x acc' rnd' k').1.1
  `sublist_of` sampleOf <$> (soilRow fuel g t step y x acc rnd k).1.1.
Proof.
  intros Ht. revert x acc acc' k k'.
  induction fuel as [ | fuel IH]; intros x acc acc' k k' H; cbn [soilRow]; [exact H | ].
  destruct (Qltb x (inject_Z (Graphics.width g))); [ | exact H].
  rewrite !bind_run. apply IH, soilCell_threshold; assumption.
Qed.

Lemma soilRows_threshold fuel rowFuel g t t' step y acc acc' rnd k rnd' k' :
  t <= t' ->
  sampleOf <$> acc'.1 `sublist_of` sampleOf <$> acc.1 ->
  sampleOf <$> (soilRows fuel rowFuel g t' step y acc' rnd' k').1.1
  `sublist_of` sampleOf <$> (soilRows fuel rowFuel g t step y acc rnd k).1.1.
Proof.
  intros Ht. revert y acc acc' k k'.
  induction fuel as [ | fuel IH]; intros y acc acc' k k' H; cbn [soilRows]; [exact H | ].
  destruct (Qltb y (inject_Z (Graphics.height g))); [ | exact H].
  rewrite !bind_run. apply IH, soilRow_threshold; assumption.
Qed.

(** Raising the threshold never adds a point to the scan: with the same
    image and spacing, the positions and brightnesses the scan retains at
    the higher threshold are, in order, among those it retains at the lower
    one, whatever the draws; so it retains at most as many points. *)
Theorem threshold_monotone g settings settings' rnd k rnd' k' :
  SoilSettings.spacing settings' = SoilSettings.spacing settings ->
  SoilSettings.threshold settings <= SoilSettings.threshold settings' ->
  let low := (result (soilScan g settings) rnd k).1 in
  let high := (result (soilScan g settings') rnd' k').1 in
  sampleOf <$> high `sublist_of` sampleOf <$> low
  /\ (length high <= length low)%nat.
Proof.
  intros Hs Ht low high.
  assert (H : sampleOf <$> high `sublist_of` sampleOf <$> low).
  { unfold low, high, result, soilScan. rewrite Hs.
    apply soilRows_threshold; [exact Ht | reflexivity]. }
  split; [exact H | ].
  apply sublist_length in H. rewrite !length_fmap in H. exact H.
Qed.

Lemma threshold_monotone_witness :
  let g := solidImage 8 8 xc8 in
  let low := (result (soilScan g (SoilSettings.mk 100 8 4 dot 2000)) eighths 0).1 in
  let high := (result (soilScan g (SoilSettings.mk 220 8 4 dot 2000)) eighths 5).1 in
  sampleOf <$> high `sublist_of` sampleOf <$> low
  /\ (length high <= length low)%nat.
Proof.
  apply (threshold_monotone (solidImage 8 8 xc8) (SoilSettings.mk 100 8 4 dot 2000)
           (SoilSettings.mk 220 8 4 dot 2000) eighths 0%nat eighths 5%nat eq_refl).
  simpl. lra.
Defined.

(* ------------------------------------------------------------------------- *)
(** ** Further properties: a threshold no pixel exceeds *)

Lemma brightAt_no_pixels g x y : Graphics.pixels g = [] -> brightAt g x y = None.
Proof.
  intros Hpx. unfold brightAt, readPixel. rewrite Hpx.
  destruct ((Qden (Qred ((x + y * inject_Z (Graphics.width g)) * 4)) =? 1)%positive
            && (0 <=? Qnum (Qred ((x + y * inject_Z (Graphics.width g)) * 4)))%Z)%bool;
    reflexivity.
Qed.

Lemma saturated_darkGrid g step t :
  255 <= t \/ Graphics.pixels g = [] -> darkGrid g step t.
Proof.
  intros [Ht | Hpx] x y br _ _ Hb.
  - destruct (brightAt_range _ _ _ _ Hb). lra.
  - rewrite (brightAt_no_pixels g x y Hpx) in Hb. discriminate.
Qed.

(** With the threshold at 255, the end of its slider, or above, or with an
    empty pixel buffer, no pixel passes: for every image the preview is
    empty, while [generateDigitalSoil] still stores exactly the 120 synthetic
    points of its fallback. *)
Theorem saturated_threshold species p5 state g rnd k :
  State.sourceG state = Some g ->
  unitRange rnd ->
  0 <= State.imgW state -> 0 <= State.imgH state ->
  255 <= SoilSettings.threshold (State.settings state) \/ Graphics.pixels g = [] ->
  let pts := State.soilPoints (result (generateDigitalSoil species p5 state) rnd k) in
  State.previewDots (recomputePreviewDots state) = []
  /\ length pts = 120%nat
  /\ Forall (isSynthetic (State.imgW state) (State.imgH state)) pts.
Proof.
  intros Hg Hunit HW HH Hsat pts.
  pose proof (saturated_darkGrid g (Qmax 1 (SoilSettings.spacing (State.settings state)))
                _ Hsat) as Hdark.
  split.
  - rewrite (recomputePreviewDots_take state g Hg).
    destruct (length (Graphics.pixels g) =? 0)%nat; [reflexivity | ].
    unfold previewScan.
    rewrite (previewRows_soilRows _ _ g _ _ _ 0 ([], 0) rnd k).
    fold (soilScan g (State.settings state)).
    destruct (dark_scan_empty g (State.settings state) rnd k Hdark) as [E _].
    rewrite E. reflexivity.
  - destruct (dark_image_points species p5 state g rnd k Hg Hdark) as [k' E].
    subst pts. rewrite E.
    destruct (synthetic_spec 120 (State.imgW state) (State.imgH state) [] rnd k'
                Hunit HW HH) as (new & E' & L & F).
    rewrite E'. cbn [app]. split; assumption.
Qed.

Lemma saturated_threshold_witness :
  let state := configured (solidImage 8 8 xff) (SoilSettings.mk 255 8 4 dot 2000) in
  let pts := State.soilPoints (result (generateDigitalSoil torus None state) eighths 0) in
  State.previewDots (recomputePreviewDots state) = []
  /\ length pts = 120%nat
  /\ Forall (isSynthetic 8 8) pts.
Proof.
  apply (saturated_threshold torus None
           (configured (solidImage 8 8 xff) (SoilSettings.mk 255 8 4 dot 2000))
           (solidImage 8 8 xff) eighths 0%nat eq_refl eighths_unitRange).
  - apply Qle_bool_imp_le. reflexivity.
  - apply Qle_bool_imp_le. reflexivity.
  - left. apply Qle_bool_imp_le. reflexivity.
Defined.

(* ------------------------------------------------------------------------- *)
(** ** Further properties: the size of the population *)

(** The number of creatures [setupCreatures] makes. *)
Lemma setupCreatures_length points behavior species rnd k :
  Z.of_nat (length (result (setupCreatures points behavior species) rnd k))
  = Z.max 0
      (Z.min (Qfloor (floor (mapRange (len points) 50 1200 30 160)
                      * SoilBehavior.densityFactor behavior))
             (Z.of_nat (length points))).
Proof.
  set (indices := (shuffledIndices (length points) rnd k).1).
  assert (Hperm : indices ≡ₚ seq 0 (length points)) by apply shuffledIndices_Permutation.
  assert (Hlen : length indices = length points).
  { rewrite Hperm. apply length_seq. }
  assert (Hvalid : forall j idx, indices !! j = Some idx -> is_Some (points !! idx)).
  { intros j idx H. apply lookup_lt_is_Some_2.
    apply list_elem_of_lookup_2 in H. rewrite Hperm in H. apply elem_of_seq in H. lia. }
  set (useCount := Qmin (plantCount (len points) (SoilBehavior.densityFactor behavior))
                        (len indices)).
  assert (Hcount : useCount <= len indices) by apply Q.le_min_r.
  destruct (spawnLoop_spec (length indices) points behavior species indices useCount rnd
              Hvalid Hcount 0%nat [] (shuffledIndices (length points) rnd k).2)
    as (new & E & L & _).
  unfold result. rewrite setupCreatures_run. cbv zeta. fold indices. fold useCount.
  rewrite E. cbn [app]. rewrite L.
  assert (Hceil : Qceiling useCount
                  = Z.min (Qfloor (floor (mapRange (len points) 50 1200 30 160)
                                   * SoilBehavior.densityFactor behavior))
                          (Z.of_nat (length points))).
  { unfold useCount, plantCount, len. unfold floor at 1. rewrite Qceiling_min, Hlen.
    reflexivity. }
  rewrite Hceil. lia.
Qed.

Lemma darkFallback_at_least imgW imgH pts rnd k :
  (50 <= length (darkFallback imgW imgH pts rnd k).1)%nat.
Proof.
  destruct (Nat.lt_ge_cases (length pts) 50) as [Hlt | Hge].
  - rewrite darkFallback_small by exact Hlt.
    destruct (synthetic_shape 120 imgW imgH pts rnd k) as (new & E & L & _).
    rewrite E, length_app. lia.
  - rewrite darkFallback_enough by exact Hge. exact Hge.
Qed.

Lemma darkFallback_at_most imgW imgH pts rnd k (cap : nat) :
  (length pts <= cap)%nat -> (169 <= cap)%nat ->
  (length (darkFallback imgW imgH pts rnd k).1 <= cap)%nat.
Proof.
  intros Hcap H169.
  destruct (Nat.lt_ge_cases (length pts) 50) as [Hlt | Hge].
  - rewrite darkFallback_small by exact Hlt.
    destruct (synthetic_shape 120 imgW imgH pts rnd k) as (new & E & L & _).
    rewrite E, length_app. lia.
  - rewrite darkFallback_enough by exact Hge. exact Hcap.
Qed.

Lemma Qfloor_above (v : Q) (z : Z) : inject_Z z <= v -> (z <= Qfloor v)%Z.
Proof. intros H. rewrite <- (Qfloor_Z z). apply Qfloor_resp_le, H. Qed.

Lemma Qfloor_below (v : Q) (z : Z) : v < inject_Z z -> (Qfloor v < z)%Z.
Proof.
  intros H. pose proof (Qfloor_le v) as Hf. rewrite Zlt_Qlt.
  eapply Qle_lt_trans; [exact Hf | exact H].
Qed.

Lemma remapped_count (v : Q) :
  mapRange v 50 1200 30 160 == 30 + (v - 50) * (13 # 115).
Proof. unfold mapRange. field. Qed.

Lemma generateDigitalSoil_point_count species p5 state g rnd k :
  State.sourceG state = Some g ->
  0 <= SoilSettings.maxPoints (State.settings state) <= 2000 ->
  (50 <= length (State.soilPoints (result (generateDigitalSoil species p5 state) rnd k))
   <= 2000)%nat.
Proof.
  intros Hg Hm.
  destruct (generateDigitalSoil_points species p5 state g rnd k Hg) as [Ep _].
  cbv zeta in Ep. rewrite Ep. split; [apply darkFallback_at_least | ].
  apply darkFallback_at_most; [ | lia].
  rewrite cappedPoints_run. cbv zeta.
  pose proof (capPoints_length (SoilSettings.maxPoints (State.settings state))
                (soilScan g (State.settings state) rnd k).1.1 rnd
                (soilScan g (State.settings state) rnd k).2 (proj1 Hm)) as Hc.
  assert (Hc' : len (capPoints (SoilSettings.maxPoints (State.settings state))
                       (soilScan g (State.settings state) rnd k).1.1 rnd
                       (soilScan g (State.settings state) rnd k).2).1 <= inject_Z 2000).
  { eapply Qle_trans; [exact Hc | apply Hm]. }
  unfold len in Hc'. rewrite <- Zle_Qle in Hc'. lia.
Qed.

Lemma generateDigitalSoil_density species p5 state g rnd k :
  State.sourceG state = Some g ->
  2 <= SoilSettings.spacing (State.settings state) <= 20 ->
  0.5 <= SoilBehavior.densityFactor
           (State.soilBehavior (result (generateDigitalSoil species p5 state) rnd k))
         <= 1.3.
Proof.
  intros Hg Hs.
  destruct (generateDigitalSoil_points species p5 state g rnd k Hg) as [_ Eb].
  cbv zeta in Eb. rewrite Eb. cbn [soilBehaviorOf SoilBehavior.densityFactor].
  pose proof (mapRange_within _ 2 20 1.3 0.5 ltac:(reflexivity) Hs) as H.
  rewrite Q.min_r, Q.max_l in H by discriminate. exact H.
Qed.

(** The count of [setupCreatures] for 50 to 2000 points and a density
    factor in [[0.5, 1.3]]. *)
Lemma creature_count_bounds (points : list SoilPoint.t) (df : Q) (count : nat) :
  (50 <= length points <= 2000)%nat ->
  0.5 <= df <= 1.3 ->
  Z.of_nat count
  = Z.max 0 (Z.min (Qfloor (floor (mapRange (len points) 50 1200 30 160) * df))
                   (Z.of_nat (length points))) ->
  (15 <= count <= 325)%nat /\ (count <= length points)%nat.
Proof.
  intros Hn Hdf Hlen.
  assert (HN : 50 <= len points <= 2000).
  { unfold len. change 50 with (inject_Z 50). change 2000 with (inject_Z 2000).
    rewrite <- !Zle_Qle. lia. }
  set (base := Qfloor (mapRange (len points) 50 1200 30 160)).
  assert (Hbase : (30 <= base <= 250)%Z).
  { unfold base. split.
    - apply Qfloor_above. rewrite remapped_count. change (inject_Z 30) with 30. lra.
    - apply Z.lt_succ_r. apply Qfloor_below. rewrite remapped_count.
      change (inject_Z (Z.succ 250)) with 251. lra. }
  assert (Htarget : (15 <= Qfloor (floor (mapRange (len points) 50 1200 30 160) * df)
                     <= 325)%Z).
  { unfold floor. fold base.
    assert (B1 : 30 <= inject_Z base) by (change 30 with (inject_Z 30); rewrite <- Zle_Qle; lia).
    assert (B2 : inject_Z base <= 250)
      by (change 250 with (inject_Z 250); rewrite <- Zle_Qle; lia).
    split.
    - apply Qfloor_above.
      change (inject_Z 15) with 15. apply Qle_trans with (30 * df); [lra | ].
      apply Qmult_le_compat_r; lra.
    - apply Z.lt_succ_r. apply Qfloor_below.
      change (inject_Z (Z.succ 325)) with 326. apply Qle_lt_trans with (250 * df); [ | lra].
      apply Qmult_le_compat_r; lra. }
  lia.
Qed.



(* ------------------------------------------------------------------------- *)
(** ** Further properties: the creatures spawned *)

Lemma spawnLoop_Forall (P : Creature.t -> Prop) fuel points behavior species indices
    useCount rnd :
  (forall p k, p ∈ points -> P (spawn p behavior species rnd k).1) ->
  forall i creatures k,
    Forall P creatures ->
    Forall P (spawnLoop fuel points behavior species indices useCount i creatures rnd k).1.
Proof.
  intros Hspawn. induction fuel as [ | fuel IH]; intros i creatures k H; cbn [spawnLoop].
  - exact H.
  - destruct (Qltb (inject_Z (Z.of_nat i)) useCount); [ | exact H].
    destruct (indices !! i) as [idx | ] eqn:Hidx; cbn [mbind option_bind]; [ | exact H].
    destruct (points !! idx) as [p | ] eqn:Hp; [ | exact H].
    rewrite bind_run. apply IH, Forall_app. split; [exact H | ].
    constructor; [ | constructor]. apply Hspawn. eapply list_elem_of_lookup_2, Hp.
Qed.

Lemma coreOrbitals_spec count acc rnd k :
  unitRange rnd ->
  exists new,
    (coreOrbitals count acc rnd k).1 = acc ++ new
    /\ length new = count
    /\ Forall (fun o => (0 <= Creature.axisX o /\ Creature.axisX o < 1)
                        /\ (0 <= Creature.axisY o /\ Creature.axisY o < 1)
                        /\ (0 <= Creature.axisZ o /\ Creature.axisZ o < 1)
                        /\ (0.5 <= Qabs (Creature.orbitSpeed o)
                            /\ Qabs (Creature.orbitSpeed o) < 1.5)) new.
Proof.
  intros Hunit. revert acc k. induction count as [ | count IH]; intros acc k.
  - exists []. rewrite app_nil_r. repeat split. constructor.
  - cbn [coreOrbitals]. run.
    destruct (IH (acc ++ [Creature.mkOrbital (rnd k) (rnd (S k)) (rnd (S (S k)))
                            ((rnd (S (S (S k))) + 0.5)
                             * (if Qltb 0.5 (rnd (S (S (S (S k))))) then 1 else -1))])
                (S (S (S (S (S k)))))) as (new & E & L & F).
    eexists (_ :: new). rewrite E, <- app_assoc. split; [reflexivity | ].
    split; [cbn [length]; lia | ]. constructor; [ | exact F].
    cbn [Creature.axisX Creature.axisY Creature.axisZ Creature.orbitSpeed].
    split; [apply Hunit | ]. split; [apply Hunit | ]. split; [apply Hunit | ].
    destruct (Hunit (S (S (S k)))) as [H0 H1].
    destruct (Qltb 0.5 (rnd (S (S (S (S k)))))).
    + assert (E1 : (rnd (S (S (S k))) + 0.5) * 1 == rnd (S (S (S k))) + 0.5) by ring.
      rewrite E1, Qabs_pos by lra. split; lra.
    + assert (E1 : (rnd (S (S (S k))) + 0.5) * -1 == - (rnd (S (S (S k))) + 0.5)) by ring.
      rewrite E1, Qabs_opp, Qabs_pos by lra. split; lra.
Qed.

Lemma floor_lerp_range (lo hi : Z) (s : Q) :
  (lo <= hi)%Z -> 0 < s -> s <= 1 ->
  integral (floor (lerp (inject_Z lo) (inject_Z hi) s))
  /\ inject_Z lo <= floor (lerp (inject_Z lo) (inject_Z hi) s) <= inject_Z hi.
Proof.
  intros Hlh H0 H1. unfold floor. split; [eexists; reflexivity | ].
  pose proof (lerp_range (inject_Z lo) (inject_Z hi) s (conj (Qlt_le_weak _ _ H0) H1)) as Hr.
  assert (Hq : inject_Z lo <= inject_Z hi) by (rewrite <- Zle_Qle; exact Hlh).
  rewrite Q.min_l, Q.max_r in Hr by exact Hq.
  rewrite <- !Zle_Qle. split.
  - apply Qfloor_above, Hr.
  - destruct Hr as [_ Hr]. apply Qfloor_resp_le in Hr. rewrite Qfloor_Z in Hr. exact Hr.
Qed.

Lemma lerp_pos (lo hi s : Q) : 0 < lo -> lo <= hi -> 0 < s -> s <= 1 -> 0 < lerp lo hi s.
Proof.
  intros Hlo Hle H0 H1.
  pose proof (lerp_range lo hi s (conj (Qlt_le_weak _ _ H0) H1)) as Hr.
  rewrite Q.min_l in Hr by exact Hle. lra.
Qed.

Lemma hue_range (u : Q) : 0 <= u -> u < 1 -> -15 <= (u - 0.5) * 30 /\ (u - 0.5) * 30 < 15.
Proof. intros. split; lra. Qed.

Lemma spawn_wellFormed p behavior species rnd k :
  unitRange rnd ->
  0 < SoilPoint.n p -> SoilPoint.n p <= 1 ->
  0 < SoilBehavior.heightFactor behavior ->
  0 < SoilBehavior.thicknessFactor behavior ->
  wellFormedCreature species (spawn p behavior species rnd k).1.
Proof.
  intros Hunit H0 H1 Hh Ht.
  assert (Hhf : 0 < lerp 0.8 1.5 (SoilPoint.n p) * SoilBehavior.heightFactor behavior).
  { apply Qmult_lt_0_compat; [apply lerp_pos; try assumption; lra | exact Hh]. }
  assert (Htf : 0 < lerp 0.8 1.4 (SoilPoint.n p) * SoilBehavior.thicknessFactor behavior).
  { apply Qmult_lt_0_compat; [apply lerp_pos; try assumption; lra | exact Ht]. }
  assert (Hpos : forall lo hi f, 0 < lo -> lo <= hi -> 0 < f ->
            0 < lerp lo hi (SoilPoint.n p) * f).
  { intros lo hi f Hlo Hle Hf. apply Qmult_lt_0_compat; [ | exact Hf].
    apply lerp_pos; assumption. }
  destruct (Hunit k) as [Hu0 Hu1].
  pose proof (hue_range (rnd k) Hu0 Hu1) as Hhue.
  unfold spawn. destruct species;
    unfold newNeonTorus, newFluxRibbon, newTensorCore, newPrismSpire, Creature.new;
    run; unfold wellFormedCreature;
    cbn [Creature.body Creature.strength Creature.heightBase Creature.radiusBase
         Creature.thickness Creature.hueOffset Creature.growth Creature.wind
         Creature.contraction Creature.verticalInf Creature.time Creature.specialize
         speciesOfBody wellFormedBody CreatureParams.strength
         CreatureParams.heightFactor CreatureParams.thicknessFactor];
    (split; [reflexivity | ]); (split; [ | split; [split; assumption | ];
      split; [apply Hpos; [reflexivity | discriminate | exact Hhf] | ];
      split; [apply Hpos; [reflexivity | discriminate | exact Htf] | ];
      split; [reflexivity | ]; split; [exact Hhue | ]; repeat split]).
  - apply (floor_lerp_range 3 8 (SoilPoint.n p)); [lia | assumption | assumption].
  - split; [reflexivity | ].
    repeat constructor;
      cbn [Creature.offset Creature.speed];
      match goal with
      | |- context [rnd ?j] => destruct (Hunit j); lra
      end.
  - destruct (coreOrbitals_spec (Z.to_nat (Qfloor (lerp 2 4 (SoilPoint.n p)))) [] rnd (S k)
                Hunit) as (new & E & L & F).
    match goal with
    | |- context [coreOrbitals ?n] =>
        change n with (Z.to_nat (Qfloor (lerp 2 4 (SoilPoint.n p))))
    end.
    rewrite E. cbn [app]. split; [ | exact F].
    rewrite L.
    destruct (floor_lerp_range 2 4 (SoilPoint.n p) ltac:(lia) H0 H1) as [_ Hr].
    unfold floor in Hr. rewrite <- !Zle_Qle in Hr.
    change (inject_Z 2) with 2 in Hr. change (inject_Z 4) with 4 in Hr. lia.
  - split.
    + apply (floor_lerp_range 4 9 (SoilPoint.n p)); [lia | assumption | assumption].
    + destruct (Hunit (S k)). split; lra.
Qed.

Lemma generateDigitalSoil_strengths species p5 state g rnd k :
  State.sourceG state = Some g ->
  Forall (fun p => 0 < SoilPoint.n p /\ SoilPoint.n p <= 1)
    (State.soilPoints (result (generateDigitalSoil species p5 state) rnd k)).
Proof.
  intros Hg.
  destruct (generateDigitalSoil_points species p5 state g rnd k Hg) as [E _].
  cbv zeta in E. rewrite E. clear E.
  rewrite cappedPoints_run. cbv zeta.
  set (scan := soilScan g (State.settings state) rnd k).
  assert (Hscan : Forall (fun p => 0 < SoilPoint.n p /\ SoilPoint.n p <= 1) scan.1.1).
  { destruct (soilScan_spec g (State.settings state) rnd k) as [Hs _].
    cbv zeta in Hs. fold scan in Hs.
    eapply Forall_impl; [exact Hs | ].
    intros p (x & y & br & u & _ & _ & Hb & Ht & ->). cbn [SoilPoint.n].
    destruct (brightAt_range _ _ _ _ Hb) as [_ Hb255].
    apply normalized_range; assumption. }
  pose proof (capPoints_Forall _ (SoilSettings.maxPoints (State.settings state))
                _ rnd scan.2 Hscan) as Hcap.
  set (capped := capPoints (SoilSettings.maxPoints (State.settings state)) scan.1.1 rnd scan.2)
    in *.
  rewrite darkFallback_run. destruct (Qltb (len capped.1) 50); [ | exact Hcap].
  destruct (synthetic_shape 120 (State.imgW state) (State.imgH state) capped.1 rnd capped.2)
    as (new & E & _ & Hnew).
  rewrite E. apply Forall_app. split; [exact Hcap | ].
  eapply Forall_impl; [exact Hnew | ]. intros p (Hn & _). rewrite Hn. split; lra.
Qed.

Lemma thickness_factor_pos (d : Q) : 2 <= d -> 0 < mapRange d 2 20 0.7 1.6.
Proof.
  intros Hd.
  assert (E : mapRange d 2 20 0.7 1.6 == 0.7 + (d - 2) * (1 # 20))
    by (unfold mapRange; field).
  rewrite E. lra.
Qed.

(** Every creature [generateDigitalSoil] spawns is well formed, whatever the
    image and the draws, once the threshold is not negative and the dot size
    at least 2, the low ends of their sliders.  It is of the class of the
    selected species, with the fields of that class in range (3 to 8 rings,
    3 particles, 2 to 4 orbitals, 4 to 9 segments), its strength lies in
    (0, 1], its height and radius are positive, its hue offset lies in
    [[-15, 15)], and it is not animated yet: growth 0, so invisible until the
    first frame updates it. *)
Theorem population_well_formed species p5 state g rnd k :
  State.sourceG state = Some g ->
  unitRange rnd ->
  0 <= SoilSettings.threshold (State.settings state) ->
  2 <= SoilSettings.dotSize (State.settings state) ->
  Forall (wellFormedCreature species)
    (State.creatures (result (generateDigitalSoil species p5 state) rnd k)).
Proof.
  intros Hg Hunit Ht Hd.
  pose proof (generateDigitalSoil_creatures species p5 state g rnd k Hg) as Hc.
  destruct (generateDigitalSoil_soil species p5 state g rnd k Hg) as [E1 E2].
  pose proof (generateDigitalSoil_strengths species p5 state g rnd k Hg) as Hn.
  destruct (behaviorOf_generateDigitalSoil species p5 state g rnd k Hg) as (sum & pts & Eb).
  cbv zeta in Hc, E1, E2. unfold result in *. rewrite Hc. clear Hc.
  rewrite E1 in Hn. rewrite E2 in Eb.
  set (soil := digitalSoil g (State.settings state) (State.imgW state) (State.imgH state)
                 rnd k) in *.
  rewrite setupCreatures_run. cbv zeta.
  apply spawnLoop_Forall; [ | constructor].
  intros p j Hp. rewrite Forall_forall in Hn. destruct (Hn p Hp) as [H0 H1].
  apply spawn_wellFormed; try assumption.
  - rewrite Eb. cbn [soilBehaviorOf SoilBehavior.heightFactor].
    apply Qmult_lt_0_compat; [apply thickness_factor_pos, Hd | apply growthSpeed_factor_pos, Ht].
  - rewrite Eb. cbn [soilBehaviorOf SoilBehavior.thicknessFactor].
    apply thickness_factor_pos, Hd.
Qed.

Lemma population_well_formed_witness :
  let state := configured (solidImage 8 8 xc8) defaultSettings in
  Forall (wellFormedCreature knot)
    (State.creatures (result (generateDigitalSoil knot None state) eighths 0)).
Proof.
  apply (population_well_formed knot None (configured (solidImage 8 8 xc8) defaultSettings)
           (solidImage 8 8 xc8) eighths 0%nat eq_refl eighths_unitRange);
    apply Qle_bool_imp_le; reflexivity.
Defined.

(* ------------------------------------------------------------------------- *)
(** ** Further properties: loading an image *)

Lemma channel_range pix i :
  (i < length pix)%nat -> exists v, channel pix i = Some v /\ 0 <= v /\ v <= 255.
Proof.
  intros Hi. destruct (lookup_lt_is_Some_2 pix i Hi) as [b Hb].
  unfold channel. rewrite Hb. eexists. split; [reflexivity | ].
  pose proof (Byte.to_N_bounded b) as Hr.
  split.
  - change 0 with (inject_Z 0). rewrite <- Zle_Qle. lia.
  - change 255 with (inject_Z 255). rewrite <- Zle_Qle. lia.
Qed.

Lemma brightnessSamples_spec fuel pix i s count :
  (length pix mod 4 = 0)%nat -> (i mod 4 = 0)%nat ->
  0 <= s -> s <= 255 * inject_Z (Z.of_nat count) ->
  exists s' count',
    brightnessSamples fuel pix i (Some s) count = (Some s', count')
    /\ 0 <= s' /\ s' <= 255 * inject_Z (Z.of_nat count')
    /\ (count <= count')%nat
    /\ ((0 < fuel)%nat -> (i < length pix)%nat -> (0 < count')%nat).
Proof.
  intros Hlen. revert i s count.
  induction fuel as [ | fuel IH]; intros i s count Hi H0 H1; cbn [brightnessSamples].
  - exists s, count. repeat split; try assumption; lia.
  - destruct (Nat.ltb_spec i (length pix)) as [Hlt | Hge].
    + assert (Hi2 : (i + 2 < length pix)%nat).
      { apply Nat.Div0.div_exact in Hlen, Hi. lia. }
      destruct (channel_range pix i ltac:(lia)) as (r & Er & Hr0 & Hr1).
      destruct (channel_range pix (i + 1) ltac:(lia)) as (g & Eg & Hg0 & Hg1).
      destruct (channel_range pix (i + 2) ltac:(lia)) as (b & Eb & Hb0 & Hb1).
      rewrite Er, Eg, Eb. cbn [mbind option_bind].
      destruct (IH (i + 4 * 4)%nat (s + (r * 0.299 + g * 0.587 + b * 0.114)) (S count))
        as (s' & count' & E & Hs0 & Hs1 & Hc & _).
      * rewrite <- Nat.Div0.add_mod_idemp_l, Hi. reflexivity.
      * lra.
      * rewrite of_nat_succ. lra.
      * exists s', count'. split; [exact E | ]. repeat split; try assumption; lia.
    + exists s, count. repeat split; try assumption; lia.
Qed.

(** The threshold suggested for a loaded image is always a number the
    threshold slider can show.  For every RGBA pixel buffer it is an integer
    between 0 and 178, namely the floor of 0.7 times the mean luminance of
    every fourth pixel; for an empty buffer it is 89. *)
Theorem auto_threshold_range (pix : list byte) :
  (length pix mod 4 = 0)%nat ->
  exists t,
    smartThreshold pix = Some t
    /\ integral t
    /\ 0 <= t <= 178
    /\ (pix = [] -> t == 89).
Proof.
  intros Hlen.
  destruct (brightnessSamples_spec (length pix) pix 0 0 0 Hlen eq_refl) as
    (s & count & E & Hs0 & Hs1 & _ & Hpos); [lra | apply Qle_bool_imp_le; reflexivity | ].
  unfold smartThreshold. rewrite E. cbn [fst snd].
  destruct (Nat.ltb_spec 0 count) as [Hc | Hc].
  - cbn [fmap option_fmap option_map].
    exists (floor (s / inject_Z (Z.of_nat count) * 0.7)).
    split; [reflexivity | ]. split; [eexists; reflexivity | ].
    assert (Hcq : 0 < inject_Z (Z.of_nat count)).
    { change 0 with (inject_Z 0). rewrite <- Zlt_Qlt. lia. }
    assert (Ha0 : 0 <= s / inject_Z (Z.of_nat count)).
    { apply Qle_shift_div_l; [exact Hcq | lra]. }
    assert (Ha1 : s / inject_Z (Z.of_nat count) <= 255).
    { apply Qle_shift_div_r; [exact Hcq | exact Hs1]. }
    set (avg := s / inject_Z (Z.of_nat count)) in *.
    split.
    + unfold floor. split.
      * change 0 with (inject_Z 0). rewrite <- Zle_Qle. apply Qfloor_above.
        change (inject_Z 0) with 0. lra.
      * change 178 with (inject_Z 178). rewrite <- Zle_Qle.
        apply Z.lt_succ_r, Qfloor_below. change (inject_Z (Z.succ 178)) with 179. lra.
    + intros ->. cbn in Hpos. cbn in E. injection E as _ Ec. lia.
  - exists 89. split; [reflexivity | ]. split; [exists 89%Z; reflexivity | ].
    split; [split; discriminate | reflexivity].
Qed.

Lemma auto_threshold_range_witness :
  exists t,
    smartThreshold (Graphics.pixels (solidImage 4 4 xc8)) = Some t
    /\ integral t
    /\ 0 <= t <= 178
    /\ (Graphics.pixels (solidImage 4 4 xc8) = [] -> t == 89).
Proof. apply (auto_threshold_range (Graphics.pixels (solidImage 4 4 xc8))). reflexivity. Defined.




(* ------------------------------------------------------------------------- *)
(** ** Further properties: the progress of the growth *)

Lemma generateDigitalSoil_start species p5 state g rnd k :
  State.sourceG state = Some g ->
  let final := result (generateDigitalSoil species p5 state) rnd k in
  State.growthStartFrame final
  = match p5 with Some p => P5.frameCount p | None => 0 end
  /\ State.growthProgress final = 0.
Proof.
  intros Hg. unfold result, generateDigitalSoil. cbn [State.setSoilPoints State.sourceG].
  rewrite Hg. run. split; reflexivity.
Qed.

Lemma behavior_range species p5 state g rnd k :
  State.sourceG state = Some g ->
  0 <= SoilSettings.threshold (State.settings state) <= 255 ->
  0.8 <= SoilBehavior.growthSpeed
           (State.soilBehavior (result (generateDigitalSoil species p5 state) rnd k))
  /\ SoilBehavior.growthSpeed
       (State.soilBehavior (result (generateDigitalSoil species p5 state) rnd k)) <= 1.25.
Proof.
  intros Hg Ht.
  destruct (behaviorOf_generateDigitalSoil species p5 state g rnd k Hg) as (sum & pts & E).
  rewrite E. cbn [soilBehaviorOf SoilBehavior.growthSpeed].
  pose proof (mapRange_within _ 0 255 0.8 1.25 ltac:(reflexivity) Ht) as H.
  rewrite Q.min_l, Q.max_r in H by discriminate. exact H.
Qed.

Lemma frames_soil obs n s :
  State.soilBehavior (frames obs n s) = State.soilBehavior s
  /\ State.growthStartFrame (frames obs n s) = State.growthStartFrame s.
Proof.
  induction n as [ | n [IH1 IH2]]; [split; reflexivity | ].
  cbn [frames]. unfold drawGrowthScene, observe.
  cbn [State.soilBehavior State.growthStartFrame]. split; assumption.
Qed.

Lemma frames_growthProgress obs n s :
  State.growthProgress (frames obs (S n) s)
  = constrain ((P5.frameCount (Observation.sketch (obs n)) - State.growthStartFrame s) / 200
               * orElse (SoilBehavior.growthSpeed (State.soilBehavior s)) 1) 0 1.
Proof.
  destruct (frames_soil obs n s) as [E1 E2].
  cbn [frames]. unfold drawGrowthScene, observe.
  cbn [State.soilBehavior State.growthStartFrame State.growthProgress].
  rewrite E1, E2. reflexivity.
Qed.

Lemma orElse_pos (v d : Q) : 0 < v -> orElse v d = v.
Proof.
  intros Hv. unfold orElse. destruct (Qeq_bool v 0) eqn:E; [ | reflexivity].
  apply Qeq_bool_iff in E. lra.
Qed.

Lemma constrain_unit (v : Q) :
  (0 <= constrain v 0 1 /\ constrain v 0 1 <= 1)
  /\ (v <= 0 -> constrain v 0 1 == 0)
  /\ (1 <= v -> constrain v 0 1 == 1).
Proof.
  unfold constrain.
  destruct (Q.max_spec (Qmin v 1) 0) as [[H E] | [H E]];
    destruct (Q.min_spec v 1) as [[H' E'] | [H' E']];
    rewrite E; rewrite ?E' in *; repeat split; intros; lra.
Qed.

Lemma constrain_monotone (v v' lo hi : Q) :
  v <= v' -> constrain v lo hi <= constrain v' lo hi.
Proof.
  intros H. unfold constrain.
  apply Q.max_le_compat_r, Q.min_le_compat_r, H.
Qed.

(** Growth starts at the frame of [generateDigitalSoil] and is complete 250
    frames later at the latest.  With the threshold inside its slider, the
    growth progress after any frame of the growth scene lies in [[0, 1]], is
    0 up to the start frame, is 1 from 250 frames after it, and never
    decreases with the frame count; every creature carries it as its
    growth. *)
Theorem growth_completes species p0 state g rnd k obs :
  State.sourceG state = Some g ->
  0 <= SoilSettings.threshold (State.settings state) <= 255 ->
  let generated := result (generateDigitalSoil species (Some p0) state) rnd k in
  let frame i := P5.frameCount (Observation.sketch (obs i)) in
  let progress i := State.growthProgress (frames obs (S i) generated) in
  State.growthProgress generated = 0
  /\ forall n,
       (0 <= progress n /\ progress n <= 1)
       /\ (frame n <= P5.frameCount p0 -> progress n == 0)
       /\ (P5.frameCount p0 + 250 <= frame n -> progress n == 1)
       /\ (forall m, frame n <= frame m -> progress n <= progress m)
       /\ Forall (fun c => Creature.growth c = progress n)
            (State.creatures (frames obs (S n) generated)).
Proof.
  intros Hg Ht generated frame progress.
  destruct (generateDigitalSoil_start species (Some p0) state g rnd k Hg) as [Es Ep].
  cbv zeta in Es, Ep. fold generated in Es, Ep.
  split; [exact Ep | ].
  destruct (behavior_range species (Some p0) state g rnd k Hg Ht) as [Hs0 Hs1].
  fold generated in Hs0, Hs1.
  set (speed := SoilBehavior.growthSpeed (State.soilBehavior generated)) in *.
  assert (Eprog : forall i, progress i
            = constrain ((frame i - P5.frameCount p0) / 200 * speed) 0 1).
  { intros i. unfold progress. rewrite frames_growthProgress, Es.
    fold speed. rewrite (orElse_pos speed 1) by lra. reflexivity. }
  assert (Elin : forall i, (frame i - P5.frameCount p0) / 200 * speed
                           == (frame i - P5.frameCount p0) * speed * (1 # 200)).
  { intros i. field. }
  intros n. rewrite Eprog.
  destruct (constrain_unit ((frame n - P5.frameCount p0) / 200 * speed)) as (Hr & Hz & Hone).
  split; [exact Hr | ]. split; [ | split; [ | split]].
  - intros Hle. apply Hz. rewrite Elin.
    assert (A : 0 <= (P5.frameCount p0 - frame n) * speed)
      by (apply Qmult_le_0_compat; lra).
    assert (E : (P5.frameCount p0 - frame n) * speed
                == - ((frame n - P5.frameCount p0) * speed)) by ring.
    rewrite E in A. set (P := (frame n - P5.frameCount p0) * speed) in *. lra.
  - intros Hge. apply Hone. rewrite Elin.
    assert (A : 250 * 0.8 <= (frame n - P5.frameCount p0) * speed).
    { apply Qle_trans with ((frame n - P5.frameCount p0) * 0.8).
      - lra.
      - apply Qmult_le_l; lra. }
    set (P := (frame n - P5.frameCount p0) * speed) in *. lra.
  - intros m Hle. rewrite Eprog. apply constrain_monotone. rewrite !Elin.
    assert (A : (frame n - P5.frameCount p0) * speed <= (frame m - P5.frameCount p0) * speed)
      by (apply Qmult_le_compat_r; lra).
    set (P := (frame n - P5.frameCount p0) * speed) in *.
    set (P' := (frame m - P5.frameCount p0) * speed) in *. lra.
  - rewrite <- Eprog. unfold progress. cbn [frames].
    rewrite drawGrowthScene_updates. cbv zeta.
    apply Forall_fmap, Forall_forall. intros c _. reflexivity.
Qed.

Lemma growth_completes_witness :
  let state := configured (solidImage 8 8 xc8) defaultSettings in
  let p0 := canvas 40 in
  let obs := fun i : nat =>
    Observation.mk (canvas (41 + inject_Z (Z.of_nat i))) (Vec3.mk 0 0 0) false in
  let generated := result (generateDigitalSoil torus (Some p0) state) eighths 0 in
  let frame i := P5.frameCount (Observation.sketch (obs i)) in
  let progress i := State.growthProgress (frames obs (S i) generated) in
  State.growthProgress generated = 0
  /\ forall n,
       (0 <= progress n /\ progress n <= 1)
       /\ (frame n <= P5.frameCount p0 -> progress n == 0)
       /\ (P5.frameCount p0 + 250 <= frame n -> progress n == 1)
       /\ (forall m, frame n <= frame m -> progress n <= progress m)
       /\ Forall (fun c => Creature.growth c = progress n)
            (State.creatures (frames obs (S n) generated)).
Proof.
  intros state p0 obs.
  apply (growth_completes torus p0 state (solidImage 8 8 xc8) eighths 0%nat obs eq_refl).
  split; apply Qle_bool_imp_le; reflexivity.
Defined.

(* ------------------------------------------------------------------------- *)
(** ** Further properties: sessions *)

(** A property that holds of the mounted component and that every event
    preserves holds throughout every session. *)
Lemma session_invariant (I : App.t -> Prop) (E : Event -> Prop) rnd :
  (forall e a a' k, E e -> I a -> (step e a rnd k).1 = Some a' -> I a') ->
  forall events a a' k,
    Forall E events -> I a -> (session events a rnd k).1 = Some a' -> I a'.
Proof.
  intros Hstep. induction events as [ | e rest IH]; intros a a' k HE HI H.
  - cbn [session] in H. rewrite ret_run in H. injection H as <-. exact HI.
  - apply Forall_cons in HE. destruct HE as [He Hrest].
    cbn [session] in H. rewrite bind_run in H.
    destruct (step e a rnd k).1 as [a1 | ] eqn:E1.
    + apply (IH a1 a' (step e a rnd k).2 Hrest); [ | exact H].
      apply (Hstep e a a1 k He HI E1).
    + rewrite ret_run in H. discriminate H.
Qed.

Ltac fields :=
  unfold State.setPreviewDots, State.setSoilPoints, State.setCreatures, State.setSoil,
    withSettings, withImage, withMouseInteraction, withRotationStart, withIsFist,
    App.setState in *;
  cbn [State.settings State.imgW State.imgH State.sourceG State.previewDots
       State.soilPoints State.creatures State.soilBehavior State.growthStartFrame
       State.growthProgress State.wind State.windTarget State.verticalInfluence
       State.contraction State.worldRotation State.worldRotationStart
       State.mouseInteraction State.isFist
       State.setPreviewDots State.setSoilPoints State.setCreatures State.setSoil
       withSettings withImage withMouseInteraction withRotationStart withIsFist
       App.state App.scene App.currentSpecies App.img App.previewDirty
       App.soilBreathPhase App.worldZoom App.handPos App.handReady App.setState
       MouseInteraction.position MouseInteraction.isDragging
       MouseInteraction.dragStart MouseInteraction.scrollTwist
       Vec2.x Vec2.y Vec3.x Vec3.y Vec3.z fst snd] in *.

Lemma setupCreatures_Forall (P : Creature.t -> Prop) points bh sp rnd k :
  (forall p j, p ∈ points -> P (spawn p bh sp rnd j).1) ->
  Forall P (setupCreatures points bh sp rnd k).1.
Proof.
  intros Hfresh. rewrite setupCreatures_run. cbv zeta.
  apply spawnLoop_Forall; [exact Hfresh | constructor].
Qed.

(** What [generateDigitalSoil] leaves alone. *)
Lemma generateDigitalSoil_shape species p5 st rnd k :
  exists pts cs bh start progress,
    (generateDigitalSoil species p5 st rnd k).1
    = State.mk (State.settings st) (State.imgW st) (State.imgH st) (State.sourceG st)
        (State.previewDots st) pts cs bh start progress
        (State.wind st) (State.windTarget st) (State.verticalInfluence st)
        (State.contraction st) (State.worldRotation st) (State.worldRotationStart st)
        (State.mouseInteraction st) (State.isFist st)
    /\ (progress = 0 \/ progress = State.growthProgress st)
    /\ (forall P : Creature.t -> Prop,
          (forall p bh sp j, P (spawn p bh sp rnd j).1) ->
          Forall P (State.creatures st) -> Forall P cs).
Proof.
  unfold generateDigitalSoil. cbn [State.setSoilPoints State.sourceG].
  destruct (State.sourceG st) as [g | ] eqn:Hg.
  - rewrite !bind_run, ret_run. fields. rewrite Hg.
    eexists _, _, _, _, _. split; [reflexivity | ]. split; [left; reflexivity | ].
    intros P Hfresh _. apply setupCreatures_Forall. intros p j _. apply Hfresh.
  - rewrite ret_run. fields. rewrite Hg.
    eexists _, _, _, _, _. split; [reflexivity | ]. split; [right; reflexivity | ].
    intros P _ Hold. exact Hold.
Qed.

Lemma respawn_shape a rnd k :
  exists cs,
    (respawn a rnd k).1 = App.setState a (State.setCreatures (App.state a) cs)
    /\ (forall P : Creature.t -> Prop,
          (forall p bh sp j, P (spawn p bh sp rnd j).1) ->
          Forall P (State.creatures (App.state a)) -> Forall P cs).
Proof.
  unfold respawn. destruct (App.scene a =? 3)%Z.
  - rewrite bind_run, ret_run. fields. eexists. split; [reflexivity | ].
    intros P Hfresh _. apply setupCreatures_Forall. intros p j _. apply Hfresh.
  - rewrite ret_run. exists (State.creatures (App.state a)). split.
    + destruct a as [st sc sp im pd ph wz hp hr]. destruct st. reflexivity.
    + intros P _ Hold. exact Hold.
Qed.

(** The component after one event, for each event that changes more than
    the scene: the fields besides the soil and the creatures. *)
Lemma generateClicked_shape p5 a rnd k :
  exists st sc,
    (generateClicked p5 a rnd k).1
    = App.mk st sc (App.currentSpecies a) (App.img a) (App.previewDirty a)
        (App.soilBreathPhase a) (App.worldZoom a) (App.handPos a) (App.handReady a)
    /\ exists pts cs bh start progress,
         st = State.mk (State.settings (App.state a)) (State.imgW (App.state a))
                (State.imgH (App.state a)) (State.sourceG (App.state a))
                (State.previewDots (App.state a)) pts cs bh start progress
                (State.wind (App.state a)) (State.windTarget (App.state a))
                (State.verticalInfluence (App.state a)) (State.contraction (App.state a))
                (State.worldRotation (App.state a)) (State.worldRotationStart (App.state a))
                (State.mouseInteraction (App.state a)) (State.isFist (App.state a))
         /\ (progress = 0 \/ progress = State.growthProgress (App.state a))
         /\ (forall P : Creature.t -> Prop,
               (forall p bh sp j, P (spawn p bh sp rnd j).1) ->
               Forall P (State.creatures (App.state a)) -> Forall P cs).
Proof.
  unfold generateClicked. rewrite bind_run.
  destruct (generateDigitalSoil_shape (App.currentSpecies a) p5 (App.state a) rnd k)
    as (pts & cs & bh & start & progress & E & Hp & Hcs).
  rewrite E.
  destruct (State.sourceG (App.state a)).
  - destruct (App.scene a =? 3)%Z.
    + rewrite ret_run. eexists _, _. split; [reflexivity | ].
      eexists _, _, _, _, _. split; [reflexivity | ]. split; [exact Hp | exact Hcs].
    + match goal with
      | |- context [respawn ?x ?r ?j] =>
          destruct (respawn_shape x r j) as (cs' & E' & Hcs')
      end.
      rewrite E'. eexists _, _. split; [reflexivity | ].
      eexists _, _, _, _, _. split; [reflexivity | ]. split; [exact Hp | ].
      intros P Hfresh Hold. apply Hcs'; [exact Hfresh | ]. fields.
      apply Hcs; assumption.
  - rewrite ret_run. eexists _, _. split; [reflexivity | ].
    eexists _, _, _, _, _. split; [reflexivity | ]. split; [exact Hp | exact Hcs].
Qed.

Lemma selectSpecies_shape s a rnd k :
  exists cs sp,
    (selectSpecies s a rnd k).1
    = App.mk (State.setCreatures (App.state a) cs) (App.scene a) sp (App.img a)
        (App.previewDirty a) (App.soilBreathPhase a) (App.worldZoom a) (App.handPos a)
        (App.handReady a)
    /\ (forall P : Creature.t -> Prop,
          (forall p bh sp j, P (spawn p bh sp rnd j).1) ->
          Forall P (State.creatures (App.state a)) -> Forall P cs).
Proof.
  unfold selectSpecies. destruct (speciesEq s (App.currentSpecies a)).
  - rewrite ret_run. exists (State.creatures (App.state a)), (App.currentSpecies a). split.
    + destruct a as [st sc sp im pd ph wz hp hr]. destruct st. reflexivity.
    + intros P _ Hold. exact Hold.
  - match goal with
    | |- context [respawn ?x ?r ?j] =>
        destruct (respawn_shape x r j) as (cs' & E' & Hcs')
    end.
    rewrite E'. eexists _, _. split; [reflexivity | exact Hcs'].
Qed.

Lemma constrain_range (v lo hi : Q) :
  lo <= hi -> lo <= constrain v lo hi /\ constrain v lo hi <= hi.
Proof.
  intros H. unfold constrain. split; [apply Q.le_max_r | ].
  apply Q.max_lub; [apply Q.le_min_r | exact H].
Qed.

(** The camera never leaves its range.  Throughout every session, whatever
    the wheel, the drags and the other events, the zoom stays in
    [[0.5, 2.2]] and the tilt of the world, as well as the tilt a drag starts
    from, in [[-1.2, 0.1]]. *)
Theorem camera_in_range events rnd k a :
  (session events mounted rnd k).1 = Some a ->
  (0.5 <= App.worldZoom a /\ App.worldZoom a <= 2.2)
  /\ (-1.2 <= Vec2.x (State.worldRotation (App.state a))
      /\ Vec2.x (State.worldRotation (App.state a)) <= 0.1)
  /\ (-1.2 <= Vec2.x (State.worldRotationStart (App.state a))
      /\ Vec2.x (State.worldRotationStart (App.state a)) <= 0.1).
Proof.
  intros H.
  apply (session_invariant
           (fun a => (0.5 <= App.worldZoom a /\ App.worldZoom a <= 2.2)
                     /\ (-1.2 <= Vec2.x (State.worldRotation (App.state a))
                         /\ Vec2.x (State.worldRotation (App.state a)) <= 0.1)
                     /\ (-1.2 <= Vec2.x (State.worldRotationStart (App.state a))
                         /\ Vec2.x (State.worldRotationStart (App.state a)) <= 0.1))
           (fun _ => True) rnd) with (events := events) (a := mounted) (k := k);
    [ | apply Forall_true; trivial | cbn; repeat split; discriminate | exact H].
  clear. intros e a a' k _ (Hz & Hr & Hs) H.
  destruct e; cbn [step] in H.
  - rewrite ret_run in H. cbn [fst] in H.
    destruct (App.scene a =? 0)%Z; [injection H as <- | discriminate H].
    fields. auto.
  - rewrite ret_run in H. cbn [fst] in H. unfold imageLoaded in H.
    destruct ((App.scene a =? 1)%Z && negb (App.img a))%bool; [ | discriminate H].
    destruct (smartThreshold pixels); cbn [mbind option_bind] in H; [ | discriminate H].
    injection H as <-. fields. auto.
  - rewrite ret_run in H. cbn [fst] in H.
    destruct ((App.scene a =? 1)%Z && App.img a)%bool; [ | discriminate H].
    injection H as <-. unfold setSoilSettings. fields. auto.
  - destruct ((App.scene a =? 1)%Z && App.img a)%bool;
      [ | rewrite ret_run in H; discriminate H].
    rewrite bind_run, ret_run in H. cbn [fst] in H. injection H as <-.
    destruct (generateClicked_shape p5Instance a rnd k)
      as (st & sc & E & pts & cs & bh & start & progress & -> & _ & _).
    rewrite E. fields. auto.
  - destruct (App.scene a =? 3)%Z; [ | rewrite ret_run in H; discriminate H].
    rewrite bind_run, ret_run in H. cbn [fst] in H. injection H as <-.
    destruct (selectSpecies_shape s a rnd k) as (cs & sp & E & _).
    rewrite E. fields. auto.
  - rewrite ret_run in H. cbn [fst] in H. injection H as <-.
    unfold draw, drawSoilConfigScene, drawGrowthScene, recomputePreviewDots.
    destruct (App.scene a =? 1)%Z.
    + fields. destruct (App.img a); [ | fields; auto].
      destruct (State.sourceG (App.state a)); [ | fields; auto].
      destruct (App.previewDirty a); [ | fields; auto].
      destruct (length (Graphics.pixels t) =? 0)%nat; fields; auto.
    + destruct (App.scene a =? 3)%Z; fields; [ | auto].
      split; [exact Hz | ]. split; [ | exact Hs].
      destruct (MouseInteraction.isDragging (State.mouseInteraction (App.state a)));
        fields; [ | exact Hr].
      apply constrain_range. discriminate.
  - rewrite ret_run in H. cbn [fst] in H. injection H as <-.
    unfold gotHands. destruct predictions as [ | hand rest]; cbn [stateOf]; fields; [auto | ].
    destruct (HandPrediction.landmarks hand !! 9%nat); cbn [stateOf]; [ | auto].
    destruct (HandPrediction.landmarks hand !! 0%nat); cbn [stateOf]; fields; [ | auto].
    destruct (HandPrediction.landmarks hand !! 12%nat); cbn [stateOf]; fields; auto.
  - rewrite ret_run in H. cbn [fst] in H. injection H as <-.
    unfold mousePressed. destruct (App.scene a =? 3)%Z; fields; auto.
  - rewrite ret_run in H. cbn [fst] in H. injection H as <-.
    unfold mouseReleased. fields. auto.
  - rewrite ret_run in H. cbn [fst] in H. injection H as <-.
    unfold mouseWheel. destruct (App.scene a =? 3)%Z; cbn [negb]; fields; [ | auto].
    split; [ | auto]. apply constrain_range. discriminate.
Qed.

Lemma camera_in_range_witness :
  let events :=
    [Enter; ImageLoaded 1800 6 (Graphics.pixels (solidImage 4 4 xc8)); Generate None;
     MouseWheel (-5000); MousePressed (canvas 1); Draw (P5.mk 2 900 600 450 900)] in
  exists a,
    (session events mounted eighths 0%nat).1 = Some a
    /\ (0.5 <= App.worldZoom a /\ App.worldZoom a <= 2.2)
    /\ (-1.2 <= Vec2.x (State.worldRotation (App.state a))
        /\ Vec2.x (State.worldRotation (App.state a)) <= 0.1)
    /\ (-1.2 <= Vec2.x (State.worldRotationStart (App.state a))
        /\ Vec2.x (State.worldRotationStart (App.state a)) <= 0.1).
Proof.
  intros events.
  destruct (session events mounted eighths 0%nat).1 as [a | ] eqn:E;
    [ | vm_compute in E; discriminate E].
  exists a. split; [reflexivity | ].
  exact (camera_in_range events eighths 0%nat a E).
Defined.

(* ------------------------------------------------------------------------- *)
(** ** Further properties: the animation state *)

Lemma lerp_within (lo hi start stop amt : Q) :
  0 <= amt <= 1 -> lo <= start <= hi -> lo <= stop <= hi ->
  lo <= lerp start stop amt /\ lerp start stop amt <= hi.
Proof.
  intros Ha [Hs1 Hs2] [Ht1 Ht2].
  destruct (lerp_range start stop amt Ha) as [H1 H2]. split.
  - eapply Qle_trans; [ | exact H1]. apply Q.min_glb; assumption.
  - eapply Qle_trans; [exact H2 | ]. apply Q.max_lub; assumption.
Qed.

Lemma spawn_fresh p bh sp rnd j :
  let c := (spawn p bh sp rnd j).1 in
  Creature.growth c = 0 /\ Creature.wind c = 0
  /\ Creature.contraction c = 0 /\ Creature.verticalInf c = 0.
Proof.
  unfold spawn. destruct sp;
    unfold newNeonTorus, newFluxRibbon, newTensorCore, newPrismSpire, Creature.new;
    run; repeat split.
Qed.

Lemma verticalTargetOf_range p pos :
  0 <= verticalTargetOf p pos /\ verticalTargetOf p pos <= 1.
Proof. unfold verticalTargetOf. apply constrain_range. discriminate. Qed.

Lemma contractionTargetOf_range b :
  0 <= contractionTargetOf b /\ contractionTargetOf b <= 1.
Proof. destruct b; split; discriminate. Qed.

(** The animation state never leaves the unit ranges.  Throughout every
    session the vertical influence, the contraction and the growth progress
    lie in [[0, 1]], and so do the growth, contraction and vertical influence
    every creature carries, whether it was just spawned or updated by a
    frame; no assumption on the pointer is needed. *)
Theorem animation_in_range events rnd k a :
  (session events mounted rnd k).1 = Some a ->
  let st := App.state a in
  (0 <= State.verticalInfluence st /\ State.verticalInfluence st <= 1)
  /\ (0 <= State.contraction st /\ State.contraction st <= 1)
  /\ (0 <= State.growthProgress st /\ State.growthProgress st <= 1)
  /\ Forall animated (State.creatures st).
Proof.
  intros H. cbv zeta.
  apply (session_invariant
           (fun a =>
              (0 <= State.verticalInfluence (App.state a)
               /\ State.verticalInfluence (App.state a) <= 1)
              /\ (0 <= State.contraction (App.state a)
                  /\ State.contraction (App.state a) <= 1)
              /\ (0 <= State.growthProgress (App.state a)
                  /\ State.growthProgress (App.state a) <= 1)
              /\ Forall animated (State.creatures (App.state a)))
           (fun _ => True) rnd) with (events := events) (a := mounted) (k := k);
    [ | apply Forall_true; trivial
      | cbn; split; [split; discriminate | ]; split; [split; discriminate | ];
        split; [split; discriminate | constructor]
      | exact H].
  clear. intros e a a' k _ (Hv & Hc & Hg & Hcs) H.
  assert (Hfresh : forall p bh sp j, animated (spawn p bh sp rnd j).1).
  { intros p bh sp j. destruct (spawn_fresh p bh sp rnd j) as (E1 & _ & E2 & E3).
    unfold animated. rewrite E1, E2, E3. repeat split; discriminate. }
  destruct e; cbn [step] in H.
  - rewrite ret_run in H. cbn [fst] in H.
    destruct (App.scene a =? 0)%Z; [injection H as <- | discriminate H].
    fields. auto.
  - rewrite ret_run in H. cbn [fst] in H. unfold imageLoaded in H.
    destruct ((App.scene a =? 1)%Z && negb (App.img a))%bool; [ | discriminate H].
    destruct (smartThreshold pixels); cbn [mbind option_bind] in H; [ | discriminate H].
    injection H as <-. fields. auto.
  - rewrite ret_run in H. cbn [fst] in H.
    destruct ((App.scene a =? 1)%Z && App.img a)%bool; [ | discriminate H].
    injection H as <-. unfold setSoilSettings. fields. auto.
  - destruct ((App.scene a =? 1)%Z && App.img a)%bool;
      [ | rewrite ret_run in H; discriminate H].
    rewrite bind_run, ret_run in H. cbn [fst] in H. injection H as <-.
    destruct (generateClicked_shape p5Instance a rnd k)
      as (st & sc & E & pts & cs & bh & start & progress & -> & Hp & Hnew).
    rewrite E. fields. split; [exact Hv | ]. split; [exact Hc | ].
    split; [ | apply Hnew; assumption].
    destruct Hp as [-> | ->]; [split; discriminate | exact Hg].
  - destruct (App.scene a =? 3)%Z; [ | rewrite ret_run in H; discriminate H].
    rewrite bind_run, ret_run in H. cbn [fst] in H. injection H as <-.
    destruct (selectSpecies_shape s a rnd k) as (cs & sp & E & Hnew).
    rewrite E. fields. split; [exact Hv | ]. split; [exact Hc | ].
    split; [exact Hg | apply Hnew; assumption].
  - rewrite ret_run in H. cbn [fst] in H. injection H as <-.
    unfold draw, drawSoilConfigScene, recomputePreviewDots.
    destruct (App.scene a =? 1)%Z.
    + fields. destruct (App.img a); [ | fields; auto].
      destruct (State.sourceG (App.state a)); [ | fields; auto].
      destruct (App.previewDirty a); [ | fields; auto].
      destruct (length (Graphics.pixels t) =? 0)%nat; fields; auto.
    + destruct (App.scene a =? 3)%Z; fields; [ | auto].
      unfold drawGrowthScene. fields.
      assert (Hv' : 0 <= lerp (State.verticalInfluence (App.state a))
                          (verticalTargetOf p (pointerOf p a)) 0.1
                    /\ lerp (State.verticalInfluence (App.state a))
                         (verticalTargetOf p (pointerOf p a)) 0.1 <= 1).
      { apply lerp_within; [split; discriminate | exact Hv | ].
        apply verticalTargetOf_range. }
      assert (Hc' : 0 <= lerp (State.contraction (App.state a))
                          (contractionTargetOf (State.isFist (App.state a))) 0.1
                    /\ lerp (State.contraction (App.state a))
                         (contractionTargetOf (State.isFist (App.state a))) 0.1 <= 1).
      { apply lerp_within; [split; discriminate | exact Hc | ].
        apply contractionTargetOf_range. }
      split; [exact Hv' | ]. split; [exact Hc' | ].
      split; [apply constrain_range; discriminate | ].
      apply Forall_fmap, Forall_forall. intros c _. unfold animated.
      cbn [compose Creature.update Creature.growth Creature.contraction Creature.verticalInf].
      split; [apply constrain_range; discriminate | ]. split; assumption.
  - rewrite ret_run in H. cbn [fst] in H. injection H as <-.
    unfold gotHands. destruct predictions as [ | hand rest]; cbn [stateOf]; fields; [auto | ].
    destruct (HandPrediction.landmarks hand !! 9%nat); cbn [stateOf]; [ | auto].
    destruct (HandPrediction.landmarks hand !! 0%nat); cbn [stateOf]; fields; [ | auto].
    destruct (HandPrediction.landmarks hand !! 12%nat); cbn [stateOf]; fields; auto.
  - rewrite ret_run in H. cbn [fst] in H. injection H as <-.
    unfold mousePressed. destruct (App.scene a =? 3)%Z; fields; auto.
  - rewrite ret_run in H. cbn [fst] in H. injection H as <-.
    unfold mouseReleased. fields. auto.
  - rewrite ret_run in H. cbn [fst] in H. injection H as <-.
    unfold mouseWheel. destruct (App.scene a =? 3)%Z; cbn [negb]; fields; auto.
Qed.

Lemma animation_in_range_witness :
  let events :=
    [Enter; ImageLoaded 1800 6 (Graphics.pixels (solidImage 4 4 xc8)); Generate None;
     Predict [] (canvas 1) (Video.mk 320 240); Draw (P5.mk 300 900 600 2000 (-700));
     SelectSpecies hopf] in
  exists a,
    (session events mounted eighths 0%nat).1 = Some a
    /\ let st := App.state a in
       (0 <= State.verticalInfluence st /\ State.verticalInfluence st <= 1)
       /\ (0 <= State.contraction st /\ State.contraction st <= 1)
       /\ (0 <= State.growthProgress st /\ State.growthProgress st <= 1)
       /\ Forall animated (State.creatures st).
Proof.
  intros events.
  destruct (session events mounted eighths 0%nat).1 as [a | ] eqn:E;
    [ | vm_compute in E; discriminate E].
  exists a. split; [reflexivity | ].
  exact (animation_in_range events eighths 0%nat a E).
Defined.

(* ------------------------------------------------------------------------- *)
(** ** Further properties: the wind and the pointer *)

Lemma windTargetOf_range p pos :
  P5.width p = 900 -> -450 <= Vec3.x pos -> Vec3.x pos <= 450 ->
  -1 <= windTargetOf p pos /\ windTargetOf p pos <= 1.
Proof.
  intros Hw H0 H1. unfold windTargetOf, p5map. rewrite Hw.
  assert (E : (Vec3.x pos - - (900) / 2) / (900 / 2 - - (900) / 2) * (1 - -1) + -1
              == (Vec3.x pos + 450) * (1 # 450) - 1) by field.
  cbv zeta. rewrite E. split; lra.
Qed.

Lemma mappedHand_onCanvas p video x y :
  P5.width p = 900 -> P5.height p = 600 ->
  Video.width video = 320 -> Video.height video = 240 ->
  0 <= x -> x <= 320 -> 0 <= y -> y <= 240 ->
  (-450 <= (mappedHand p video x y).1 /\ (mappedHand p video x y).1 <= 450)
  /\ (-300 <= (mappedHand p video x y).2 /\ (mappedHand p video x y).2 <= 300).
Proof.
  intros Hw Hh Hvw Hvh Hx0 Hx1 Hy0 Hy1. unfold mappedHand, p5map. cbn [fst snd].
  rewrite Hw, Hh, Hvw, Hvh.
  assert (Ex : (x - 0) / (320 - 0) * (- (900) / 2 - 900 / 2) + 900 / 2
               == 450 - x * (45 # 16)) by field.
  assert (Ey : (y - 0) / (240 - 0) * (600 / 2 - - (600) / 2) + - (600) / 2
               == y * (5 # 2) - 300) by field.
  rewrite Ex, Ey. repeat split; lra.
Qed.

Lemma pointerOf_onCanvas p a :
  P5.width p = 900 -> P5.height p = 600 ->
  0 <= P5.mouseX p -> P5.mouseX p <= 900 ->
  0 <= P5.mouseY p -> P5.mouseY p <= 600 ->
  (forall pos, App.handPos a = Some pos -> onCanvas pos) ->
  onCanvas (pointerOf p a).
Proof.
  intros Hw Hh Hx0 Hx1 Hy0 Hy1 Hhand. unfold pointerOf.
  assert (Hmouse : onCanvas (Vec3.mk (P5.mouseX p - P5.width p / 2)
                               (P5.mouseY p - P5.height p / 2) 0)).
  { unfold onCanvas. cbn [Vec3.x Vec3.y]. rewrite Hw, Hh, !Qhalf. repeat split; lra. }
  destruct (App.handReady a); [ | exact Hmouse].
  destruct (App.handPos a) as [pos | ]; [ | exact Hmouse].
  apply Hhand. reflexivity.
Qed.

(** While the pointer stays in frame, the wind stays in [[-1, 1]].  In a
    session whose draws find the mouse over the 900 by 600 canvas and whose
    predictions find the tracked knuckle inside the 320 by 240 video frame,
    the smoothed hand position is always a position on the canvas, and the
    wind, its target and the wind every creature carries lie in [[-1, 1]]. *)
Theorem wind_in_range events rnd k a :
  Forall inFrame events ->
  (session events mounted rnd k).1 = Some a ->
  let st := App.state a in
  (-1 <= State.wind st /\ State.wind st <= 1)
  /\ (-1 <= State.windTarget st /\ State.windTarget st <= 1)
  /\ (forall pos, App.handPos a = Some pos -> onCanvas pos)
  /\ Forall (fun c => -1 <= Creature.wind c /\ Creature.wind c <= 1) (State.creatures st).
Proof.
  intros Hframe H. cbv zeta.
  apply (session_invariant
           (fun a =>
              (-1 <= State.wind (App.state a) /\ State.wind (App.state a) <= 1)
              /\ (-1 <= State.windTarget (App.state a)
                  /\ State.windTarget (App.state a) <= 1)
              /\ (forall pos, App.handPos a = Some pos -> onCanvas pos)
              /\ Forall (fun c => -1 <= Creature.wind c /\ Creature.wind c <= 1)
                   (State.creatures (App.state a)))
           inFrame rnd) with (events := events) (a := mounted) (k := k);
    [ | exact Hframe
      | cbn; split; [split; discriminate | ]; split; [split; discriminate | ];
        split; [intros pos Hpos; discriminate Hpos | constructor]
      | exact H].
  clear. intros e a a' k He (Hw & Ht & Hh & Hcs) H.
  assert (Hfresh : forall p bh sp j,
            -1 <= Creature.wind (spawn p bh sp rnd j).1
            /\ Creature.wind (spawn p bh sp rnd j).1 <= 1).
  { intros p bh sp j. destruct (spawn_fresh p bh sp rnd j) as (_ & E & _).
    rewrite E. split; discriminate. }
  destruct e; cbn [step] in H; cbn [inFrame] in He.
  - rewrite ret_run in H. cbn [fst] in H.
    destruct (App.scene a =? 0)%Z; [injection H as <- | discriminate H].
    fields. auto.
  - rewrite ret_run in H. cbn [fst] in H. unfold imageLoaded in H.
    destruct ((App.scene a =? 1)%Z && negb (App.img a))%bool; [ | discriminate H].
    destruct (smartThreshold pixels); cbn [mbind option_bind] in H; [ | discriminate H].
    injection H as <-. fields. auto.
  - rewrite ret_run in H. cbn [fst] in H.
    destruct ((App.scene a =? 1)%Z && App.img a)%bool; [ | discriminate H].
    injection H as <-. unfold setSoilSettings. fields. auto.
  - destruct ((App.scene a =? 1)%Z && App.img a)%bool;
      [ | rewrite ret_run in H; discriminate H].
    rewrite bind_run, ret_run in H. cbn [fst] in H. injection H as <-.
    destruct (generateClicked_shape p5Instance a rnd k)
      as (st & sc & E & pts & cs & bh & start & progress & -> & _ & Hnew).
    rewrite E. fields. split; [exact Hw | ]. split; [exact Ht | ].
    split; [exact Hh | ].
    apply (Hnew (fun c => -1 <= Creature.wind c /\ Creature.wind c <= 1)); assumption.
  - destruct (App.scene a =? 3)%Z; [ | rewrite ret_run in H; discriminate H].
    rewrite bind_run, ret_run in H. cbn [fst] in H. injection H as <-.
    destruct (selectSpecies_shape s a rnd k) as (cs & sp & E & Hnew).
    rewrite E. fields. split; [exact Hw | ]. split; [exact Ht | ].
    split; [exact Hh | ].
    apply (Hnew (fun c => -1 <= Creature.wind c /\ Creature.wind c <= 1)); assumption.
  - rewrite ret_run in H. cbn [fst] in H. injection H as <-.
    destruct He as (Hpw & Hph & [Hx0 Hx1] & [Hy0 Hy1]).
    pose proof (pointerOf_onCanvas p a Hpw Hph Hx0 Hx1 Hy0 Hy1 Hh) as [[Hp0 Hp1] _].
    unfold draw, drawSoilConfigScene, recomputePreviewDots.
    destruct (App.scene a =? 1)%Z.
    + fields. destruct (App.img a); [ | fields; auto].
      destruct (State.sourceG (App.state a)); [ | fields; auto].
      destruct (App.previewDirty a); [ | fields; auto].
      destruct (length (Graphics.pixels t) =? 0)%nat; fields; auto.
    + destruct (App.scene a =? 3)%Z; fields; [ | auto].
      unfold drawGrowthScene. fields.
      pose proof (windTargetOf_range p (pointerOf p a) Hpw Hp0 Hp1) as Htarget.
      assert (Hw' : -1 <= lerp (State.wind (App.state a))
                           (windTargetOf p (pointerOf p a)) 0.05
                    /\ lerp (State.wind (App.state a))
                         (windTargetOf p (pointerOf p a)) 0.05 <= 1).
      { apply lerp_within; [split; discriminate | exact Hw | exact Htarget]. }
      split; [exact Hw' | ]. split; [exact Htarget | ]. split; [exact Hh | ].
      apply Forall_fmap, Forall_forall. intros c _.
      cbn [compose Creature.update Creature.wind]. exact Hw'.
  - rewrite ret_run in H. cbn [fst] in H. injection H as <-.
    destruct He as (Hpw & Hph & Hvw & Hvh & Hk).
    unfold gotHands. destruct predictions as [ | hand rest]; cbn [stateOf]; fields; [auto | ].
    destruct (HandPrediction.landmarks hand !! 9%nat) as [knuckle | ] eqn:E9;
      cbn [stateOf]; [ | auto].
    destruct (Hk hand knuckle eq_refl E9) as [[Kx0 Kx1] [Ky0 Ky1]].
    pose proof (mappedHand_onCanvas p video knuckle.1.1 knuckle.1.2 Hpw Hph Hvw Hvh
                  Kx0 Kx1 Ky0 Ky1) as [Hmx Hmy].
    assert (Hpos : forall pos,
              Some match App.handPos a with
                   | Some pos0 =>
                       Vec3.mk
                         (lerp (Vec3.x pos0) (mappedHand p video knuckle.1.1 knuckle.1.2).1 0.4)
                         (lerp (Vec3.y pos0) (mappedHand p video knuckle.1.1 knuckle.1.2).2 0.4)
                         (Vec3.z pos0)
                   | None =>
                       Vec3.mk (mappedHand p video knuckle.1.1 knuckle.1.2).1
                         (mappedHand p video knuckle.1.1 knuckle.1.2).2 0
                   end = Some pos -> onCanvas pos).
    { intros pos Epos. injection Epos as <-.
      destruct (App.handPos a) as [pos0 | ] eqn:E0.
      - destruct (Hh pos0 eq_refl) as [Hx Hy].
        unfold onCanvas. cbn [Vec3.x Vec3.y].
        split; apply lerp_within; try assumption; split; discriminate.
      - unfold onCanvas. cbn [Vec3.x Vec3.y]. split; assumption. }
    destruct (HandPrediction.landmarks hand !! 0%nat); cbn [stateOf]; fields;
      [ | split; [exact Hw | ]; split; [exact Ht | ]; split; [exact Hpos | exact Hcs]].
    destruct (HandPrediction.landmarks hand !! 12%nat); cbn [stateOf]; fields;
      split; [exact Hw | | exact Hw | ]; (split; [exact Ht | ]);
      (split; [exact Hpos | exact Hcs]).
  - rewrite ret_run in H. cbn [fst] in H. injection H as <-.
    unfold mousePressed. destruct (App.scene a =? 3)%Z; fields; auto.
  - rewrite ret_run in H. cbn [fst] in H. injection H as <-.
    unfold mouseReleased. fields. auto.
  - rewrite ret_run in H. cbn [fst] in H. injection H as <-.
    unfold mouseWheel. destruct (App.scene a =? 3)%Z; cbn [negb]; fields; auto.
Qed.

Lemma wind_in_range_witness :
  let open := handAt (160, 200, 0) (40, 120, 0) (160, 40, 0) in
  let events :=
    [Enter; ImageLoaded 1800 6 (Graphics.pixels (solidImage 4 4 xc8)); Generate None;
     Predict [open] (canvas 1) (Video.mk 320 240); Draw (canvas 2);
     Predict [] (canvas 2) (Video.mk 320 240); Draw (P5.mk 3 900 600 900 0)] in
  exists a,
    (session events mounted eighths 0%nat).1 = Some a
    /\ let st := App.state a in
       (-1 <= State.wind st /\ State.wind st <= 1)
       /\ (-1 <= State.windTarget st /\ State.windTarget st <= 1)
       /\ (forall pos, App.handPos a = Some pos -> onCanvas pos)
       /\ Forall (fun c => -1 <= Creature.wind c /\ Creature.wind c <= 1)
            (State.creatures st).
Proof.
  intros open events.
  assert (Hframe : Forall inFrame events).
  { repeat apply Forall_cons_2; try exact I; try apply Forall_nil_2; cbn [inFrame].
    - repeat (split; [reflexivity | ]).
      intros hand knuckle Hhand Hk. injection Hhand as <-. injection Hk as <-.
      repeat split; discriminate.
    - repeat split; discriminate.
    - repeat (split; [reflexivity | ]).
      intros hand knuckle Hhand. discriminate Hhand.
    - repeat split; discriminate. }
  destruct (session events mounted eighths 0%nat).1 as [a | ] eqn:E;
    [ | vm_compute in E; discriminate E].
  exists a. split; [reflexivity | ].
  exact (wind_in_range events eighths 0%nat a Hframe E).
Defined.

(* ------------------------------------------------------------------------- *)
(** ** Further properties: the preview cache *)

Lemma recomputePreviewDots_congr st st' :
  State.sourceG st = State.sourceG st' ->
  State.settings st = State.settings st' ->
  State.previewDots (recomputePreviewDots st)
  = match State.sourceG st' with
    | None => State.previewDots st
    | Some _ => State.previewDots (recomputePreviewDots st')
    end.
Proof.
  intros Hg Hs. unfold recomputePreviewDots. rewrite Hg, Hs.
  destruct (State.sourceG st') as [g | ]; [ | reflexivity].
  destruct (length (Graphics.pixels g) =? 0)%nat; reflexivity.
Qed.

Lemma recomputePreviewDots_idem st :
  State.sourceG (recomputePreviewDots st) = State.sourceG st
  /\ State.settings (recomputePreviewDots st) = State.settings st
  /\ State.previewDots (recomputePreviewDots (recomputePreviewDots st))
     = State.previewDots (recomputePreviewDots st).
Proof.
  destruct st as [settings imgW imgH [g | ] dots pts cs bh start progress wind target
                  vertical contraction rotation rotationStart mi fist];
    unfold recomputePreviewDots; cbn [State.sourceG]; [ | repeat split].
  destruct (length (Graphics.pixels g) =? 0)%nat eqn:Epx;
    cbn [State.setPreviewDots State.sourceG State.settings State.previewDots];
    rewrite Epx; repeat split.
Qed.

(** The invariant behind the cache: an image once loaded has its graphics,
    and a preview not marked for recomputing is the preview of the image and
    the settings held now. *)
Lemma preview_cache events rnd k a :
  (session events mounted rnd k).1 = Some a ->
  (App.img a = true -> is_Some (State.sourceG (App.state a)))
  /\ (App.previewDirty a = false ->
      forall g, State.sourceG (App.state a) = Some g ->
        State.previewDots (App.state a)
        = State.previewDots (recomputePreviewDots (App.state a))).
Proof.
  intros H.
  apply (session_invariant
           (fun a =>
              (App.img a = true -> is_Some (State.sourceG (App.state a)))
              /\ (App.previewDirty a = false ->
                  forall g, State.sourceG (App.state a) = Some g ->
                    State.previewDots (App.state a)
                    = State.previewDots (recomputePreviewDots (App.state a))))
           (fun _ => True) rnd) with (events := events) (a := mounted) (k := k);
    [ | apply Forall_true; trivial
      | cbn; split; [discriminate | discriminate]
      | exact H].
  clear. intros e a a' k _ (Hi & Hd) H.
  assert (Hkeep : forall st',
            State.sourceG st' = State.sourceG (App.state a) ->
            State.settings st' = State.settings (App.state a) ->
            App.previewDirty a = false ->
            forall g, State.sourceG (App.state a) = Some g ->
              State.previewDots (App.state a)
              = State.previewDots (recomputePreviewDots st')).
  { intros st' Eg Es Hclean g Hg.
    rewrite (recomputePreviewDots_congr st' (App.state a) Eg Es), Hg.
    exact (Hd Hclean g Hg). }
  destruct e; cbn [step] in H.
  - rewrite ret_run in H. cbn [fst] in H.
    destruct (App.scene a =? 0)%Z; [injection H as <- | discriminate H].
    fields. auto.
  - rewrite ret_run in H. cbn [fst] in H. unfold imageLoaded in H.
    destruct ((App.scene a =? 1)%Z && negb (App.img a))%bool; [ | discriminate H].
    destruct (smartThreshold pixels); cbn [mbind option_bind] in H; [ | discriminate H].
    injection H as <-. fields. split; [intros _; eexists; reflexivity | discriminate].
  - rewrite ret_run in H. cbn [fst] in H.
    destruct ((App.scene a =? 1)%Z && App.img a)%bool; [ | discriminate H].
    injection H as <-. unfold setSoilSettings. fields. split; [exact Hi | discriminate].
  - destruct ((App.scene a =? 1)%Z && App.img a)%bool;
      [ | rewrite ret_run in H; discriminate H].
    rewrite bind_run, ret_run in H. cbn [fst] in H. injection H as <-.
    destruct (generateClicked_shape p5Instance a rnd k)
      as (st & sc & E & pts & cs & bh & start & progress & -> & _ & _).
    rewrite E. fields. split; [exact Hi | ].
    intros Hclean g Hg. refine (Hkeep _ _ _ Hclean g Hg); reflexivity.
  - destruct (App.scene a =? 3)%Z; [ | rewrite ret_run in H; discriminate H].
    rewrite bind_run, ret_run in H. cbn [fst] in H. injection H as <-.
    destruct (selectSpecies_shape s a rnd k) as (cs & sp & E & _).
    rewrite E. fields. split; [exact Hi | ].
    intros Hclean g Hg. refine (Hkeep _ _ _ Hclean g Hg); reflexivity.
  - rewrite ret_run in H. cbn [fst] in H. injection H as <-.
    unfold draw, drawSoilConfigScene.
    destruct (App.scene a =? 1)%Z.
    + fields.
      destruct (App.img a) eqn:Eimg;
        [ | fields; split; [discriminate | ];
            intros Hclean g Hg; refine (Hkeep _ _ _ Hclean g Hg); reflexivity].
      destruct (State.sourceG (App.state a)) as [g | ] eqn:Eg;
        [ | fields; split; [intros _; apply Hi; reflexivity | ];
            intros _ g0 Hg0; discriminate Hg0].
      destruct (App.previewDirty a) eqn:Edirty.
      * cbn [App.state App.img App.previewDirty].
        match goal with
        | |- context [recomputePreviewDots ?s] =>
            destruct (recomputePreviewDots_idem s) as (E1 & _ & E3)
        end.
        rewrite E1, E3. fields.
        split; [intros _; eexists; reflexivity | reflexivity].
      * fields. split; [intros _; eexists; reflexivity | ].
        intros _ g' Hg'. refine (Hkeep _ _ _ eq_refl g' Hg'); reflexivity.
    + destruct (App.scene a =? 3)%Z; fields.
      * unfold drawGrowthScene. fields. split; [exact Hi | ].
        intros Hclean g Hg. refine (Hkeep _ _ _ Hclean g Hg); reflexivity.
      * split; [exact Hi | ].
        intros Hclean g Hg. refine (Hkeep _ _ _ Hclean g Hg); reflexivity.
  - rewrite ret_run in H. cbn [fst] in H. injection H as <-.
    unfold gotHands.
    destruct predictions as [ | hand rest]; cbn [stateOf]; fields;
      [split; [exact Hi | ]; intros Hclean g Hg; refine (Hkeep _ _ _ Hclean g Hg); reflexivity | ].
    destruct (HandPrediction.landmarks hand !! 9%nat); cbn [stateOf]; [ | auto].
    destruct (HandPrediction.landmarks hand !! 0%nat); cbn [stateOf]; fields; [ | auto].
    destruct (HandPrediction.landmarks hand !! 12%nat); cbn [stateOf]; fields; [ | auto].
    split; [exact Hi | ]. intros Hclean g Hg. refine (Hkeep _ _ _ Hclean g Hg); reflexivity.
  - rewrite ret_run in H. cbn [fst] in H. injection H as <-.
    unfold mousePressed. destruct (App.scene a =? 3)%Z; fields; [ | auto].
    split; [exact Hi | ]. intros Hclean g Hg. refine (Hkeep _ _ _ Hclean g Hg); reflexivity.
  - rewrite ret_run in H. cbn [fst] in H. injection H as <-.
    unfold mouseReleased. fields.
    split; [exact Hi | ]. intros Hclean g Hg. refine (Hkeep _ _ _ Hclean g Hg); reflexivity.
  - rewrite ret_run in H. cbn [fst] in H. injection H as <-.
    unfold mouseWheel. destruct (App.scene a =? 3)%Z; cbn [negb]; fields; auto.
Qed.

(** The preview is never stale.  At any point of any session, a frame drawn
    in the settings scene once an image is loaded leaves as stored preview
    the preview of the image and the settings held at that frame: the first
    4000 dots of their scan, recomputed if a control or a load marked it and
    kept from the earlier frame otherwise; the mark is cleared. *)
Theorem preview_never_stale events rnd k a p :
  (session events mounted rnd k).1 = Some a ->
  App.scene a = 1%Z -> App.img a = true ->
  exists g,
    State.sourceG (App.state a) = Some g
    /\ State.previewDots (App.state (draw p a))
       = (if (length (Graphics.pixels g) =? 0)%nat then []
          else take 4000 (previewScan g (State.settings (App.state a))))
    /\ App.previewDirty (draw p a) = false
    /\ State.settings (App.state (draw p a)) = State.settings (App.state a)
    /\ State.sourceG (App.state (draw p a)) = Some g.
Proof.
  intros H Hscene Himg.
  destruct (preview_cache events rnd k a H) as [Hi Hd].
  destruct (Hi Himg) as [g Hg]. exists g. split; [exact Hg | ].
  rewrite <- (recomputePreviewDots_take (App.state a) g Hg).
  set (st1 := withMouseInteraction (App.state a)
                (MouseInteraction.mk (pointerOf p a)
                   (MouseInteraction.isDragging (State.mouseInteraction (App.state a)))
                   (MouseInteraction.dragStart (State.mouseInteraction (App.state a)))
                   (MouseInteraction.scrollTwist (State.mouseInteraction (App.state a))))).
  assert (Hg1 : State.sourceG st1 = Some g) by exact Hg.
  assert (Edraw : draw p a
                  = if App.previewDirty a
                    then App.mk (recomputePreviewDots st1) (App.scene a)
                           (App.currentSpecies a) (App.img a) false
                           (App.soilBreathPhase a + 0.01) (App.worldZoom a)
                           (App.handPos a) (App.handReady a)
                    else App.mk st1 (App.scene a) (App.currentSpecies a) (App.img a)
                           (App.previewDirty a) (App.soilBreathPhase a + 0.01)
                           (App.worldZoom a) (App.handPos a) (App.handReady a)).
  { unfold draw, drawSoilConfigScene. rewrite Hscene. cbn [Z.eqb Pos.eqb].
    cbn [App.img App.state App.previewDirty App.scene App.currentSpecies
         App.soilBreathPhase App.worldZoom App.handPos App.handReady].
    fold st1. rewrite Himg, Hg1. reflexivity. }
  rewrite Edraw.
  pose proof (recomputePreviewDots_congr st1 (App.state a) eq_refl eq_refl) as Hsame.
  rewrite Hg in Hsame.
  destruct (recomputePreviewDots_idem st1) as (E1 & E2 & _).
  destruct (App.previewDirty a) eqn:Edirty; cbn [App.state App.previewDirty].
  - split; [exact Hsame | ]. split; [reflexivity | ].
    split; [exact E2 | rewrite E1; exact Hg1].
  - split; [exact (Hd eq_refl g Hg) | ].
    split; [reflexivity | ]. split; [reflexivity | exact Hg1].
Qed.

Lemma preview_never_stale_witness :
  let pixels := Graphics.pixels (solidImage 4 4 xc8) in
  let events :=
    [Enter; ImageLoaded 1800 6 pixels; Draw (canvas 1); Changed (Spacing 2);
     Changed (Threshold 50)] in
  exists a,
    (session events mounted eighths 0%nat).1 = Some a
    /\ App.previewDirty a = true
    /\ exists g,
         State.sourceG (App.state a) = Some g
         /\ State.previewDots (App.state (draw (canvas 2) a))
            = (if (length (Graphics.pixels g) =? 0)%nat then []
               else take 4000 (previewScan g (State.settings (App.state a))))
         /\ App.previewDirty (draw (canvas 2) a) = false
         /\ State.settings (App.state (draw (canvas 2) a)) = State.settings (App.state a)
         /\ State.sourceG (App.state (draw (canvas 2) a)) = Some g.
Proof.
  intros pixels events.
  destruct (session events mounted eighths 0%nat).1 as [a | ] eqn:E;
    [ | vm_compute in E; discriminate E].
  exists a. split; [reflexivity | ].
  assert (Ea : App.scene a = 1%Z /\ App.img a = true /\ App.previewDirty a = true).
  { vm_compute in E. injection E as <-. repeat split. }
  destruct Ea as (Hscene & Himg & Hdirty).
  split; [exact Hdirty | ].
  exact (preview_never_stale events eighths 0%nat a (canvas 2) E Hscene Himg).
Defined.

(* ------------------------------------------------------------------------- *)
(** ** Further properties: the population in a session *)

Lemma spawn_species p bh sp rnd j :
  speciesOfBody (Creature.body (spawn p bh sp rnd j).1) = Some sp.
Proof.
  unfold spawn. destruct sp;
    unfold newNeonTorus, newFluxRibbon, newTensorCore, newPrismSpire, Creature.new;
    rewrite !bind_run, ret_run; reflexivity.
Qed.

Lemma setupCreatures_populationOf points bh sp rnd k :
  populationOf points bh sp (setupCreatures points bh sp rnd k).1.
Proof.
  split; [apply (setupCreatures_length points bh sp rnd k) | ].
  apply setupCreatures_Forall. intros p j Hp. split; [apply spawn_species | ].
  apply list_elem_of_lookup in Hp. destruct Hp as [i Hi].
  exists i, p. split; [exact Hi | apply spawn_spec].
Qed.

Lemma update_populationOf points bh sp cs growth wind contraction verticalInf frame :
  populationOf points bh sp cs ->
  populationOf points bh sp
    (map (fun c => Creature.update c growth wind contraction verticalInf frame) cs).
Proof.
  intros [Hlen Hall]. split; [rewrite length_map; exact Hlen | ].
  apply Forall_map. eapply Forall_impl; [exact Hall | ].
  intros c [Hs (i & p & Hp & Hx & Hy & Hz & Hn)]. split; [exact Hs | ].
  exists i, p. repeat split; assumption.
Qed.

Lemma speciesEq_true s s' : speciesEq s s' = true -> s = s'.
Proof. destruct s, s'; simpl; congruence. Qed.

Lemma generateClicked_run p5 a rnd k g :
  State.sourceG (App.state a) = Some g -> (App.scene a =? 3)%Z = false ->
  let gen := generateDigitalSoil (App.currentSpecies a) p5 (App.state a) rnd k in
  (generateClicked p5 a rnd k).1
  = App.mk (State.setCreatures gen.1
              (setupCreatures (State.soilPoints gen.1) (State.soilBehavior gen.1)
                 (App.currentSpecies a) rnd gen.2).1)
      3 (App.currentSpecies a) (App.img a) (App.previewDirty a)
      (App.soilBreathPhase a) (App.worldZoom a) (App.handPos a) (App.handReady a).
Proof.
  intros Hg Hscene. unfold generateClicked. rewrite bind_run, Hg, Hscene.
  unfold respawn. cbn [App.scene Z.eqb Pos.eqb App.state App.currentSpecies].
  rewrite bind_run, ret_run. reflexivity.
Qed.

(** The invariant of the population. *)
Lemma population_invariant events rnd k a :
  Forall sliderEvent events ->
  (session events mounted rnd k).1 = Some a ->
  let st := App.state a in
  ((2 <= SoilSettings.spacing (State.settings st)
    /\ SoilSettings.spacing (State.settings st) <= 20)
   /\ SoilSettings.maxPoints (State.settings st) = 2000)
  /\ (App.scene a = 3%Z ->
      (50 <= length (State.soilPoints st) <= 2000)%nat
      /\ (0.5 <= SoilBehavior.densityFactor (State.soilBehavior st)
          /\ SoilBehavior.densityFactor (State.soilBehavior st) <= 1.3)
      /\ populationOf (State.soilPoints st) (State.soilBehavior st)
           (App.currentSpecies a) (State.creatures st)).
Proof.
  intros Hev H. cbv zeta.
  apply (session_invariant
           (fun a =>
              ((2 <= SoilSettings.spacing (State.settings (App.state a))
                /\ SoilSettings.spacing (State.settings (App.state a)) <= 20)
               /\ SoilSettings.maxPoints (State.settings (App.state a)) = 2000)
              /\ (App.scene a = 3%Z ->
                  (50 <= length (State.soilPoints (App.state a)) <= 2000)%nat
                  /\ (0.5 <= SoilBehavior.densityFactor (State.soilBehavior (App.state a))
                      /\ SoilBehavior.densityFactor (State.soilBehavior (App.state a))
                         <= 1.3)
                  /\ populationOf (State.soilPoints (App.state a))
                       (State.soilBehavior (App.state a))
                       (App.currentSpecies a) (State.creatures (App.state a))))
           sliderEvent rnd) with (events := events) (a := mounted) (k := k);
    [ | exact Hev
      | cbn; split; [split; [split; discriminate | reflexivity] | discriminate]
      | exact H].
  clear. intros e a a' k He (Hset & Hpop) H.
  destruct e; cbn [step] in H; cbn [sliderEvent] in He.
  - rewrite ret_run in H. cbn [fst] in H.
    destruct (App.scene a =? 0)%Z; [injection H as <- | discriminate H].
    fields. split; [exact Hset | discriminate].
  - rewrite ret_run in H. cbn [fst] in H. unfold imageLoaded in H.
    destruct ((App.scene a =? 1)%Z && negb (App.img a))%bool; [ | discriminate H].
    destruct (smartThreshold pixels); cbn [mbind option_bind] in H; [ | discriminate H].
    injection H as <-. fields. cbn [SoilSettings.spacing SoilSettings.maxPoints].
    split; [exact Hset | discriminate].
  - rewrite ret_run in H. cbn [fst] in H.
    destruct (App.scene a =? 1)%Z eqn:Hscene; cbn [andb] in H; [ | discriminate H].
    destruct (App.img a); [ | discriminate H].
    injection H as <-. unfold setSoilSettings. fields.
    apply Z.eqb_eq in Hscene. split; [ | intros H3; rewrite Hscene in H3; discriminate H3].
    destruct c; cbn [applyControl SoilSettings.spacing SoilSettings.maxPoints];
      try exact Hset.
    split; [exact He | apply Hset].
  - destruct (App.scene a =? 1)%Z eqn:Hscene; cbn [andb] in H;
      [ | rewrite ret_run in H; discriminate H].
    destruct (App.img a); [ | rewrite ret_run in H; discriminate H].
    rewrite bind_run, ret_run in H. cbn [fst] in H. injection H as <-.
    apply Z.eqb_eq in Hscene.
    destruct (generateDigitalSoil_shape (App.currentSpecies a) p5Instance (App.state a) rnd k)
      as (pts & cs & bh & start & progress & Egen & _ & _).
    destruct (State.sourceG (App.state a)) as [g | ] eqn:Hg.
    + rewrite (generateClicked_run p5Instance a rnd k g Hg)
        by (rewrite Hscene; reflexivity).
      cbv zeta. fields.
      split; [rewrite Egen; fields; exact Hset | ]. intros _.
      split; [apply (generateDigitalSoil_point_count _ _ _ g rnd k Hg);
              destruct Hset as [_ ->]; split; discriminate | ].
      split; [apply (generateDigitalSoil_density _ _ _ g rnd k Hg); apply Hset | ].
      apply setupCreatures_populationOf.
    + unfold generateClicked. rewrite bind_run, Hg, ret_run. fields.
      split; [rewrite Egen; fields; exact Hset | ].
      intros H3. rewrite Hscene in H3. discriminate H3.
  - destruct (App.scene a =? 3)%Z eqn:Hscene; [ | rewrite ret_run in H; discriminate H].
    rewrite bind_run, ret_run in H. cbn [fst] in H. injection H as <-.
    apply Z.eqb_eq in Hscene. destruct (Hpop Hscene) as (Hn & Hdf & Hp).
    unfold selectSpecies. destruct (speciesEq s (App.currentSpecies a)) eqn:Es.
    + rewrite ret_run. cbn [fst]. split; [exact Hset | exact Hpop].
    + unfold respawn. cbn [App.scene App.state App.currentSpecies].
      rewrite Hscene. cbn [Z.eqb Pos.eqb]. rewrite bind_run, ret_run. fields.
      split; [exact Hset | ]. intros _.
      split; [exact Hn | ]. split; [exact Hdf | ]. apply setupCreatures_populationOf.
  - rewrite ret_run in H. cbn [fst] in H. injection H as <-.
    unfold draw, drawSoilConfigScene.
    destruct (App.scene a =? 1)%Z eqn:Hscene1.
    + apply Z.eqb_eq in Hscene1. fields.
      assert (Hno : App.scene a = 3%Z -> False)
        by (intros H3; rewrite Hscene1 in H3; discriminate H3).
      destruct (App.img a); [ | fields; split; [exact Hset | intros H3; destruct (Hno H3)]].
      destruct (State.sourceG (App.state a));
        [ | fields; split; [exact Hset | intros H3; destruct (Hno H3)]].
      destruct (App.previewDirty a);
        [ | fields; split; [exact Hset | intros H3; destruct (Hno H3)]].
      cbn [App.state App.scene].
      match goal with
      | |- context [recomputePreviewDots ?s] =>
          destruct (recomputePreviewDots_idem s) as (_ & E2 & _)
      end.
      rewrite E2. fields. split; [exact Hset | intros H3; destruct (Hno H3)].
    + destruct (App.scene a =? 3)%Z eqn:Hscene; fields; [ | split; assumption].
      unfold drawGrowthScene. fields. split; [exact Hset | ]. intros H3.
      destruct (Hpop H3) as (Hn & Hdf & Hp).
      split; [exact Hn | ]. split; [exact Hdf | ].
      apply update_populationOf, Hp.
  - rewrite ret_run in H. cbn [fst] in H. injection H as <-.
    unfold gotHands.
    destruct predictions as [ | hand rest]; cbn [stateOf]; fields; [split; assumption | ].
    destruct (HandPrediction.landmarks hand !! 9%nat); cbn [stateOf]; [ | split; assumption].
    destruct (HandPrediction.landmarks hand !! 0%nat); cbn [stateOf]; fields;
      [ | split; assumption].
    destruct (HandPrediction.landmarks hand !! 12%nat); cbn [stateOf]; fields;
      split; assumption.
  - rewrite ret_run in H. cbn [fst] in H. injection H as <-.
    unfold mousePressed. destruct (App.scene a =? 3)%Z; fields; split; assumption.
  - rewrite ret_run in H. cbn [fst] in H. injection H as <-.
    unfold mouseReleased. fields. split; assumption.
  - rewrite ret_run in H. cbn [fst] in H. injection H as <-.
    unfold mouseWheel. destruct (App.scene a =? 3)%Z; cbn [negb]; fields; split; assumption.
Qed.

(** The garden always shows the selected species on the current soil.  In
    every session whose spacing control stays on its slider, whenever the
    component is in the growth scene there are between 50 and 2000 soil
    points and between 15 and 325 creatures, never more than points; every
    creature is of the class of the species selected now and stands on one
    of the soil points held now, also after the species was changed and
    after frames have updated the creatures. *)
Theorem population_consistent events rnd k a :
  Forall sliderEvent events ->
  (session events mounted rnd k).1 = Some a ->
  App.scene a = 3%Z ->
  let st := App.state a in
  (50 <= length (State.soilPoints st) <= 2000)%nat
  /\ (15 <= length (State.creatures st) <= 325)%nat
  /\ (length (State.creatures st) <= length (State.soilPoints st))%nat
  /\ Forall (fun c => speciesOfBody (Creature.body c) = Some (App.currentSpecies a)
                      /\ exists i, spawnedAt (State.soilPoints st) i c)
       (State.creatures st).
Proof.
  intros Hev H Hscene st.
  destruct (population_invariant events rnd k a Hev H) as [_ Hpop].
  destruct (Hpop Hscene) as (Hn & Hdf & Hlen & Hall).
  split; [exact Hn | ].
  destruct (creature_count_bounds _ _ _ Hn (conj (proj1 Hdf) (proj2 Hdf)) Hlen) as [Hc Hle].
  split; [exact Hc | ]. split; [exact Hle | exact Hall].
Qed.

Lemma population_consistent_witness :
  let pixels := Graphics.pixels (solidImage 4 4 xc8) in
  let events :=
    [Enter; ImageLoaded 1800 6 pixels; Changed (Spacing 12); Draw (canvas 1);
     Generate (Some (canvas 2)); Draw (canvas 3); SelectSpecies knot; Draw (canvas 4)] in
  exists a,
    (session events mounted eighths 0%nat).1 = Some a
    /\ App.currentSpecies a = knot
    /\ let st := App.state a in
       (50 <= length (State.soilPoints st) <= 2000)%nat
       /\ (15 <= length (State.creatures st) <= 325)%nat
       /\ (length (State.creatures st) <= length (State.soilPoints st))%nat
       /\ Forall (fun c => speciesOfBody (Creature.body c) = Some (App.currentSpecies a)
                           /\ exists i, spawnedAt (State.soilPoints st) i c)
            (State.creatures st).
Proof.
  intros pixels events.
  assert (Hev : Forall sliderEvent events).
  { repeat apply Forall_cons_2; try exact I; try apply Forall_nil_2.
    cbn [sliderEvent]. split; discriminate. }
  destruct (session events mounted eighths 0%nat).1 as [a | ] eqn:E;
    [ | vm_compute in E; discriminate E].
  exists a.
  assert (Ea : App.scene a = 3%Z /\ App.currentSpecies a = knot).
  { vm_compute in E. injection E as <-. split; reflexivity. }
  destruct Ea as [Hscene Hsp].
  split; [reflexivity | ]. split; [exact Hsp | ].
  exact (population_consistent events eighths 0%nat a Hev E Hscene).
Defined.

(* ------------------------------------------------------------------------- *)
(** ** Further properties: dragging the world *)

Lemma constrain_inside (v lo hi : Q) : lo <= v -> v <= hi -> constrain v lo hi == v.
Proof.
  intros H0 H1. unfold constrain. rewrite Q.min_l by exact H1. apply Q.max_l, H0.
Qed.

(** A drag turns the world from where it was when the mouse went down.  In
    the growth scene, after a press at [p0] the frame drawn at [p] sets the
    yaw to the yaw at the press plus 0.008 per pixel moved right and the tilt
    to the tilt at the press plus 0.005 per pixel moved down, clamped to
    [[-1.2, 0.1]]; a press without movement leaves a rotation in range as it
    was; once the mouse is released the next frame keeps the rotation,
    wherever the mouse is; and while no drag is going on a frame never turns
    the world. *)
Theorem drag_rotates (a : App.t) (p0 p p' : P5.t) :
  App.scene a = 3%Z ->
  -1.2 <= Vec2.x (State.worldRotation (App.state a)) <= 0.1 ->
  let rotation := State.worldRotation (App.state a) in
  let dragged := draw p (mousePressed p0 a) in
  let released := draw p' (mouseReleased dragged) in
  State.worldRotation (App.state dragged)
  = Vec2.mk (constrain (Vec2.x rotation + (P5.mouseY p - P5.mouseY p0) * 0.005) (-1.2) 0.1)
            (Vec2.y rotation + (P5.mouseX p - P5.mouseX p0) * 0.008)
  /\ (P5.mouseX p == P5.mouseX p0 -> P5.mouseY p == P5.mouseY p0 ->
      Vec2.x (State.worldRotation (App.state dragged)) == Vec2.x rotation
      /\ Vec2.y (State.worldRotation (App.state dragged)) == Vec2.y rotation)
  /\ State.worldRotation (App.state released) = State.worldRotation (App.state dragged)
  /\ (MouseInteraction.isDragging (State.mouseInteraction (App.state a)) = false ->
      forall p'', State.worldRotation (App.state (draw p'' a)) = rotation).
Proof.
  intros Hscene Htilt rotation dragged released.
  assert (Edrag : State.worldRotation (App.state dragged)
                  = Vec2.mk
                      (constrain (Vec2.x rotation + (P5.mouseY p - P5.mouseY p0) * 0.005)
                         (-1.2) 0.1)
                      (Vec2.y rotation + (P5.mouseX p - P5.mouseX p0) * 0.008)).
  { unfold dragged, draw, mousePressed. rewrite Hscene. cbn [Z.eqb Pos.eqb]. fields.
    rewrite Hscene. cbn [Z.eqb Pos.eqb]. unfold drawGrowthScene. fields. reflexivity. }
  split; [exact Edrag | ]. split; [ | split].
  - intros Hx Hy. rewrite Edrag. cbn [Vec2.x Vec2.y]. split.
    + assert (E : Vec2.x rotation + (P5.mouseY p - P5.mouseY p0) * 0.005 == Vec2.x rotation)
        by (rewrite Hy; ring).
      unfold constrain. rewrite E. apply constrain_inside; apply Htilt.
    + rewrite Hx. ring.
  - unfold released, draw, mouseReleased.
    assert (Es : App.scene dragged = 3%Z).
    { unfold dragged, draw, mousePressed. rewrite Hscene. cbn [Z.eqb Pos.eqb]. fields.
      rewrite Hscene. cbn [Z.eqb Pos.eqb]. fields. reflexivity. }
    fields. rewrite Es. cbn [Z.eqb Pos.eqb]. unfold drawGrowthScene. fields. reflexivity.
  - intros Hidle p''. unfold draw. rewrite Hscene. cbn [Z.eqb Pos.eqb]. fields.
    unfold drawGrowthScene. fields. rewrite Hidle. reflexivity.
Qed.

Lemma drag_rotates_witness :
  let a := App.mk initialState 3 torus true false 0 1 None false in
  let p0 := P5.mk 10 900 600 400 300 in
  let p := P5.mk 11 900 600 500 200 in
  let p' := P5.mk 12 900 600 0 0 in
  let rotation := State.worldRotation (App.state a) in
  let dragged := draw p (mousePressed p0 a) in
  let released := draw p' (mouseReleased dragged) in
  State.worldRotation (App.state dragged)
  = Vec2.mk (constrain (Vec2.x rotation + (P5.mouseY p - P5.mouseY p0) * 0.005) (-1.2) 0.1)
            (Vec2.y rotation + (P5.mouseX p - P5.mouseX p0) * 0.008)
  /\ (P5.mouseX p == P5.mouseX p0 -> P5.mouseY p == P5.mouseY p0 ->
      Vec2.x (State.worldRotation (App.state dragged)) == Vec2.x rotation
      /\ Vec2.y (State.worldRotation (App.state dragged)) == Vec2.y rotation)
  /\ State.worldRotation (App.state released) = State.worldRotation (App.state dragged)
  /\ (MouseInteraction.isDragging (State.mouseInteraction (App.state a)) = false ->
      forall p'', State.worldRotation (App.state (draw p'' a)) = rotation).
Proof.
  intros a p0 p p'.
  apply (drag_rotates a p0 p p'); [reflexivity | split; discriminate].
Defined.

(* ------------------------------------------------------------------------- *)
(** ** Further properties: the fist *)

Lemma Qltb_iff (a b a' b' : Q) : (a < b <-> a' < b') -> Qltb a b = Qltb a' b'.
Proof.
  intros H. destruct (Qltb a b) eqn:E, (Qltb a' b') eqn:E'; try reflexivity.
  - apply Qltb_lt in E. apply Qltb_ge in E'. apply H in E. lra.
  - apply Qltb_ge in E. apply Qltb_lt in E'. apply H in E'. lra.
Qed.

Lemma Qsquare_nonneg (v : Q) : 0 <= v * v.
Proof. nra. Qed.

Lemma Qsquares_nonneg (u v : Q) : 0 <= u * u + v * v.
Proof.
  pose proof (Qsquare_nonneg u). pose proof (Qsquare_nonneg v).
  set (a := u * u) in *. set (b := v * v) in *. lra.
Qed.

(** The fist test reads the shape of the hand, not where or how large it is
    in the video.  Moving the three landmarks together, scaling them by a
    factor other than 0, hence moving the hand towards or away from the
    camera, or mirroring them left to right, as a flipped video would,
    gives the same answer.  A middle fingertip back at the wrist is a fist
    whenever the knuckle is elsewhere, and a fingertip twice as far from the
    wrist as the knuckle, in the same direction, is not. *)
Theorem fist_shape_only (wrist midKnuckle midTip : HandLandmark) (dx dy s width : Q) :
  ~ s == 0 ->
  fistLike (moveLandmark dx dy wrist) (moveLandmark dx dy midKnuckle)
    (moveLandmark dx dy midTip) = fistLike wrist midKnuckle midTip
  /\ fistLike (scaleLandmark s wrist) (scaleLandmark s midKnuckle) (scaleLandmark s midTip)
     = fistLike wrist midKnuckle midTip
  /\ fistLike (mirrorLandmark width wrist) (mirrorLandmark width midKnuckle)
       (mirrorLandmark width midTip) = fistLike wrist midKnuckle midTip
  /\ (~ (midKnuckle.1.1 == wrist.1.1 /\ midKnuckle.1.2 == wrist.1.2) ->
      fistLike wrist midKnuckle wrist = true)
  /\ fistLike wrist midKnuckle
       (2 * midKnuckle.1.1 - wrist.1.1, 2 * midKnuckle.1.2 - wrist.1.2, midTip.2) = false.
Proof.
  intros Hs.
  destruct wrist as [[wx wy] wz], midKnuckle as [[kx ky] kz], midTip as [[tx ty] tz].
  unfold fistLike, moveLandmark, scaleLandmark, mirrorLandmark. cbn [fst snd].
  set (hand := (kx - wx) * (kx - wx) + (ky - wy) * (ky - wy)).
  set (tip := (tx - wx) * (tx - wx) + (ty - wy) * (ty - wy)).
  assert (Hhand : 0 <= hand).
  { apply Qsquares_nonneg. }
  split; [ | split; [ | split; [ | split]]].
  - apply Qltb_iff.
    assert (E1 : (tx + dx - (wx + dx)) * (tx + dx - (wx + dx))
                 + (ty + dy - (wy + dy)) * (ty + dy - (wy + dy)) == tip)
      by (unfold tip; ring).
    assert (E2 : (kx + dx - (wx + dx)) * (kx + dx - (wx + dx))
                 + (ky + dy - (wy + dy)) * (ky + dy - (wy + dy)) == hand)
      by (unfold hand; ring).
    rewrite E1, E2. reflexivity.
  - apply Qltb_iff.
    assert (E1 : (s * tx - s * wx) * (s * tx - s * wx)
                 + (s * ty - s * wy) * (s * ty - s * wy) == s * s * tip)
      by (unfold tip; ring).
    assert (E2 : (s * kx - s * wx) * (s * kx - s * wx)
                 + (s * ky - s * wy) * (s * ky - s * wy) == s * s * hand)
      by (unfold hand; ring).
    rewrite E1, E2.
    assert (Hss : 0 < s * s).
    { destruct (Qlt_le_dec 0 (s * s)) as [Hlt | Hle]; [exact Hlt | ].
      pose proof (Qsquare_nonneg s) as H0.
      assert (E0 : s * s == 0) by (set (q := s * s) in *; lra).
      apply Qmult_integral in E0. destruct E0; contradiction. }
    assert (E3 : s * s * hand * (1.1 * 1.1) == s * s * (hand * (1.1 * 1.1))) by ring.
    rewrite E3. split; intros H.
    + apply Qmult_lt_l in H; assumption.
    + apply Qmult_lt_l; assumption.
  - apply Qltb_iff.
    assert (E1 : (width - tx - (width - wx)) * (width - tx - (width - wx))
                 + (ty - wy) * (ty - wy) == tip)
      by (unfold tip; ring).
    assert (E2 : (width - kx - (width - wx)) * (width - kx - (width - wx))
                 + (ky - wy) * (ky - wy) == hand)
      by (unfold hand; ring).
    rewrite E1, E2. reflexivity.
  - intros Hk. apply Qltb_lt.
    assert (E1 : (wx - wx) * (wx - wx) + (wy - wy) * (wy - wy) == 0) by ring.
    rewrite E1.
    assert (Hpos : 0 < hand).
    { destruct (Qlt_le_dec 0 hand) as [Hlt | Hle]; [exact Hlt | ].
      exfalso. apply Hk.
      pose proof (Qsquare_nonneg (kx - wx)) as Hx.
      pose proof (Qsquare_nonneg (ky - wy)) as Hy.
      unfold hand in Hle.
      assert (Ex : (kx - wx) * (kx - wx) == 0)
        by (set (u := (kx - wx) * (kx - wx)) in *;
            set (v := (ky - wy) * (ky - wy)) in *; lra).
      assert (Ey : (ky - wy) * (ky - wy) == 0)
        by (set (u := (kx - wx) * (kx - wx)) in *;
            set (v := (ky - wy) * (ky - wy)) in *; lra).
      apply Qmult_integral in Ex, Ey.
      split; [destruct Ex as [Ex | Ex] | destruct Ey as [Ey | Ey]]; lra. }
    lra.
  - apply Qltb_ge.
    assert (E1 : (2 * kx - wx - wx) * (2 * kx - wx - wx)
                 + (2 * ky - wy - wy) * (2 * ky - wy - wy) == 4 * hand)
      by (unfold hand; ring).
    rewrite E1. lra.
Qed.

Lemma fist_shape_only_witness :
  let wrist : HandLandmark := (160, 200, 0) in
  let midKnuckle : HandLandmark := (150, 120, 0) in
  let midTip : HandLandmark := (155, 130, 0) in
  fistLike wrist midKnuckle midTip = true
  /\ fistLike (moveLandmark 30 (-20) wrist) (moveLandmark 30 (-20) midKnuckle)
       (moveLandmark 30 (-20) midTip) = fistLike wrist midKnuckle midTip
  /\ fistLike (scaleLandmark 0.5 wrist) (scaleLandmark 0.5 midKnuckle)
       (scaleLandmark 0.5 midTip) = fistLike wrist midKnuckle midTip
  /\ fistLike (mirrorLandmark 320 wrist) (mirrorLandmark 320 midKnuckle)
       (mirrorLandmark 320 midTip) = fistLike wrist midKnuckle midTip
  /\ (~ (midKnuckle.1.1 == wrist.1.1 /\ midKnuckle.1.2 == wrist.1.2) ->
      fistLike wrist midKnuckle wrist = true)
  /\ fistLike wrist midKnuckle
       (2 * midKnuckle.1.1 - wrist.1.1, 2 * midKnuckle.1.2 - wrist.1.2, midTip.2) = false.
Proof.
  intros wrist midKnuckle midTip. split; [reflexivity | ].
  apply (fist_shape_only wrist midKnuckle midTip 30 (-20) 0.5 320). discriminate.
Defined.

Section RealDistances.
Import Reals Qreals.

Lemma hypot_scaled (x y c : R) :
  (0 <= c)%R -> (hypot x y * c = sqrt ((x * x + y * y) * (c * c)))%R.
Proof.
  intros Hc. unfold hypot.
  rewrite sqrt_mult_alt by (apply Rplus_le_le_0_compat; apply Rle_0_sqr).
  rewrite sqrt_square by exact Hc. reflexivity.
Qed.

(** The fist test is the comparison of distances the program writes.  The
    model compares squares of rationals; over the real numbers that is
    [Math.hypot] of the offsets of the middle fingertip from the wrist being
    smaller than 1.1 times [Math.hypot] of the offsets of the middle knuckle
    from the wrist. *)
Theorem fistLike_hypot (wrist midKnuckle midTip : HandLandmark) :
  fistLike wrist midKnuckle midTip = true
  <-> (hypot (Q2R (midTip.1.1 - wrist.1.1)) (Q2R (midTip.1.2 - wrist.1.2))
       < hypot (Q2R (midKnuckle.1.1 - wrist.1.1)) (Q2R (midKnuckle.1.2 - wrist.1.2))
         * Q2R 1.1)%R.
Proof.
  destruct wrist as [[wx wy] wz], midKnuckle as [[kx ky] kz], midTip as [[tx ty] tz].
  unfold fistLike. cbn [fst snd]. rewrite Qltb_lt.
  assert (Hc : (0 <= Q2R 1.1)%R).
  { rewrite <- RMicromega.Q2R_0. apply Qle_Rle. discriminate. }
  rewrite (hypot_scaled _ _ _ Hc). unfold hypot.
  set (tx' := (tx - wx)%Q). set (ty' := (ty - wy)%Q).
  set (kx' := (kx - wx)%Q). set (ky' := (ky - wy)%Q).
  assert (E1 : (Q2R tx' * Q2R tx' + Q2R ty' * Q2R ty')%R = Q2R (tx' * tx' + ty' * ty')).
  { rewrite Q2R_plus, !Q2R_mult. reflexivity. }
  assert (E2 : ((Q2R kx' * Q2R kx' + Q2R ky' * Q2R ky') * (Q2R 1.1 * Q2R 1.1))%R
               = Q2R ((kx' * kx' + ky' * ky') * (1.1 * 1.1))).
  { rewrite !Q2R_mult, Q2R_plus, !Q2R_mult. reflexivity. }
  rewrite E1, E2.
  assert (H0 : (0 <= Q2R (tx' * tx' + ty' * ty'))%R).
  { rewrite <- RMicromega.Q2R_0. apply Qle_Rle, Qsquares_nonneg. }
  split; intros H.
  - apply sqrt_lt_1_alt. split; [exact H0 | apply Qlt_Rlt, H].
  - apply Rlt_Qlt. apply sqrt_lt_0_alt. exact H.
Qed.

End RealDistances.

(* ------------------------------------------------------------------------- *)
(** ** Further properties: the hand as pointer *)



